(** * Harmony: command dispatch and interaction responder

    A shallow embedding of [CommandClient.processMessage]
    (src/models/commandClient.ts) and of the [Interaction] class
    (src/unnamed/part_000), followed by the properties established about
    them.

    JavaScript strings are modelled by [string]; every character stands for
    one code unit, which is all [startsWith] and [length] look at. *)

From Stdlib Require Import ZArith String Ascii List Bool Lia DecimalString.
From stdpp Require Import base option gmap strings.
Import ListNotations.

Local Open Scope string_scope.
Local Open Scope Z_scope.

(** ** JavaScript values and library functions used by the sources *)

Module Js.

(** Values handed around untyped in the sources ([any]). [VObj] is an opaque
    object known by its identity only. *)
Inductive JsVal :=
| VUndefined
| VBool (b : bool)
| VNum (n : Z)
| VStr (s : string)
| VObj (ref : N).

(** What a [throw] carries: [new Error(message)] or any other value. *)
Inductive Exn :=
| Error (message : string)
| Thrown (v : JsVal).

(** [content.startsWith(v)] *)
Definition startsWith (content v : string) : bool := String.prefix v content.

(** [set.add(x)] on a Set kept in insertion order. *)
Definition setAdd (s : list string) (x : string) : list string :=
  if existsb (String.eqb x) s then s else (s ++ [x])%list.

(** [[...new Set(l)]] *)
Definition newSet (l : list string) : list string := fold_left setAdd l [].

(** Iterating a string yields its characters, one string each. *)
Fixpoint chars (s : string) : list string :=
  match s with
  | EmptyString => []
  | String a r => String a EmptyString :: chars r
  end.

(** [Array.prototype.sort(cmp)]: a stable sort; [x] goes in front of the first
    element it does not compare greater than. *)
Fixpoint insertBy {A} (cmp : A -> A -> Z) (x : A) (l : list A) : list A :=
  match l with
  | [] => [x]
  | y :: r => if cmp x y <=? 0 then x :: y :: r else y :: insertBy cmp x r
  end.

Definition sortBy {A} (cmp : A -> A -> Z) (l : list A) : list A :=
  fold_right (insertBy cmp) [] l.

(** [o !== undefined] *)
Definition isSome {A} (o : option A) : bool :=
  match o with
  | Some _ => true
  | None => false
  end.

(** [ToInt32], the wrap-around of the operands and result of [|]. *)
Definition toInt32 (n : Z) : Z := (n + 2 ^ 31) mod 2 ^ 32 - 2 ^ 31.

(** [p | a] *)
Definition bitor (p a : Z) : Z := toInt32 (Z.lor (toInt32 p) (toInt32 a)).

End Js.

(** ** src/models/commandClient.ts *)

Module CommandClient.
Import Js.

Definition Snowflake := string.

Record User := { user_id : Snowflake; user_bot : option bool }.

(** [msg.channel], read as a [GuildTextChannel] for its [nsfw] field. *)
Record Channel := { channel_id : Snowflake; channel_nsfw : option bool }.

(** A member is consulted through [permissions.has(perm)] only. *)
Record Member := { permissions_has : string -> bool }.

(** [guild_me] is what [await msg.guild.me()] resolves to. *)
Record Guild := { guild_id : Snowflake; guild_me : Member }.

Record Message := {
  content : string;
  author : User;
  channel : Channel;
  guild : option Guild;
  member : option Member
}.

(** [string | string[]] *)
Inductive OneOrMany :=
| One (s : string)
| Many (l : list string).

(** [command.args]: a boolean requirement or a minimal count. *)
Inductive ArgsRequirement :=
| ArgsFlag (b : bool)
| ArgsCount (n : Z).

(** The data fields of a [Command] that [processMessage] reads. *)
Record CommandOptions := {
  name : string;
  category : option string;
  whitelistedGuilds : option (list Snowflake);
  whitelistedChannels : option (list Snowflake);
  whitelistedUsers : option (list Snowflake);
  ownerOnly : option bool;
  guildOnly : option bool;
  dmOnly : option bool;
  nsfw : option bool;
  permissions : option OneOrMany;
  botPermissions : option OneOrMany;
  userPermissions : option OneOrMany;
  args : option ArgsRequirement
}.

(** Modelled from the spec: the [CommandCategory] class is declared in
    models/command.ts, which is not part of the sources at hand; a category
    has the same flag, permission and whitelist shape as a command. *)
Record CommandCategory := {
  cat_whitelistedGuilds : option (list Snowflake);
  cat_whitelistedChannels : option (list Snowflake);
  cat_whitelistedUsers : option (list Snowflake);
  cat_ownerOnly : option bool;
  cat_guildOnly : option bool;
  cat_dmOnly : option bool;
  cat_nsfw : option bool;
  cat_permissions : option OneOrMany;
  cat_botPermissions : option OneOrMany;
  cat_userPermissions : option OneOrMany
}.

(** Result of [parseCommand]. *)
Record ParsedCommand := {
  parsed_name : string;
  parsed_args : list string;
  parsed_argString : string
}.

(** The dispatch context built at lines 241-252. Its [client] field is the
    dispatcher itself and is left out; [ctx_command] holds the data fields of
    the command (the hooks take the context and so cannot be inside it). *)
Record CommandContext := {
  ctx_name : string;
  ctx_prefix : string;
  ctx_args : list string;
  ctx_argString : string;
  ctx_message : Message;
  ctx_author : User;
  ctx_command : CommandOptions;
  ctx_channel : Channel;
  ctx_guild : option Guild
}.

(** How a hook call ends: it returns (a value, or a promise fulfilled with
    it), throws while running, or returns a promise that rejects. *)
Inductive HookResult :=
| Returns (v : JsVal)
| Throws (e : Exn)
| Rejects (e : Exn).

Record Command := {
  options :> CommandOptions;
  beforeExecute : CommandContext -> HookResult;
  execute : CommandContext -> HookResult;
  afterExecute : CommandContext -> JsVal -> HookResult
}.

(** [this.user]: the two mention forms of the logged-in user. *)
Record ClientUser := { mention : string; nickMention : string }.

(** The fields of the dispatcher. [parseCommand], [commands.fetch] and
    [categories.get] live in models/command.ts; they are taken as they are
    called. A prefix provider may answer [undefined]. *)
Record Client := {
  prefix : OneOrMany;
  mentionPrefix : bool;
  getGuildPrefix : Snowflake -> option OneOrMany;
  getUserPrefix : Snowflake -> option OneOrMany;
  isGuildBlacklisted : Snowflake -> bool;
  isUserBlacklisted : Snowflake -> bool;
  isChannelBlacklisted : Snowflake -> bool;
  owners : list Snowflake;
  allowBots : bool;
  user : option ClientUser;
  parseCommand : Message -> string -> option ParsedCommand;
  commands_fetch : ParsedCommand -> option Command;
  categories_get : string -> option CommandCategory
}.

(** Events emitted on the client. *)
Inductive Event :=
| commandOwnerOnly (ctx : CommandContext)
| commandGuildOnly (ctx : CommandContext)
| commandDmOnly (ctx : CommandContext)
| commandNSFW (ctx : CommandContext)
| commandBotMissingPermissions (ctx : CommandContext) (missing : list string)
| commandUserMissingPermissions (ctx : CommandContext) (missing : list string)
| commandMissingArgs (ctx : CommandContext)
| commandUsed (ctx : CommandContext)
| commandError (ctx : CommandContext) (e : Exn).

(** Everything [processMessage] does to the outside, in order. *)
Inductive Action :=
| AskUserBlacklisted (id : Snowflake)
| AskChannelBlacklisted (id : Snowflake)
| AskGuildBlacklisted (id : Snowflake)
| AskUserPrefix (id : Snowflake)
| AskGuildPrefix (id : Snowflake)
| FetchMe (guildID : Snowflake)
| Emit (ev : Event)
| RunBefore (ctx : CommandContext)
| RunExecute (ctx : CommandContext)
| RunAfter (ctx : CommandContext) (result : JsVal).

(** *** The monad of an async function body: a log of actions, and either
    the value to go on with, a [return] (of nothing, or of the promise of an
    [emit]), or a pending exception. *)
Inductive Flow (A : Type) :=
| Next (a : A)
| Return (v : option Event)
| Throw (e : Exn).
Arguments Next {A} a.
Arguments Return {A} v.
Arguments Throw {A} e.

Definition Proc (A : Type) : Type := list Action * Flow A.

Definition ret {A} (a : A) : Proc A := ([], Next a).

Definition bind {A B} (m : Proc A) (f : A -> Proc B) : Proc B :=
  match m with
  | (t, Next a) => let '(t', r) := f a in ((t ++ t')%list, r)
  | (t, Return v) => (t, Return v)
  | (t, Throw e) => (t, Throw e)
  end.

Declare Scope proc_scope.
Delimit Scope proc_scope with proc.
Notation "x <- m ;; k" := (bind m (fun x => k))
  (at level 100, m at next level, right associativity) : proc_scope.
Notation "m ;; k" := (bind m (fun _ => k))
  (at level 100, right associativity) : proc_scope.
Local Open Scope proc_scope.

(** An external call that answers [v]; what a call that rejects leads to
    is told in [Rejections]. *)
Definition ask {A} (a : Action) (v : A) : Proc A := ([a], Next v).

(** [return] and [return this.emit(ev)] *)
Definition return_ {A} : Proc A := ([], Return None).
Definition returnEmit {A} (ev : Event) : Proc A := ([Emit ev], Return (Some ev)).

(** [this.emit(ev)] as a statement; the promise is dropped. *)
Definition emit (ev : Event) : Proc unit := ([Emit ev], Next tt).

Definition throw {A} (e : Exn) : Proc A := ([], Throw e).

(** [if (c) s], where [s] ends the function or falls through. *)
Definition when (c : bool) (s : Proc unit) : Proc unit := if c then s else ret tt.

(** [try { body } catch (e) { handler }] *)
Definition tryCatch {A} (body : Proc A) (handler : Exn -> Proc A) : Proc A :=
  match body with
  | (t, Throw e) => let '(t', r) := handler e in ((t ++ t')%list, r)
  | other => other
  end.

(** [await awaitSync(hook(...))]: a throw and a rejection both surface here. *)
Definition awaitHook (a : Action) (r : HookResult) : Proc JsVal :=
  match r with
  | Returns v => ([a], Next v)
  | Throws e | Rejects e => ([a], Throw e)
  end.

(** [hook(...)] as a statement: a rejected promise goes unobserved. *)
Definition callHook (a : Action) (r : HookResult) : Proc unit :=
  match r with
  | Returns _ | Rejects _ => ([a], Next tt)
  | Throws e => ([a], Throw e)
  end.

(** *** Lines 130-147: bot filter and blacklists *)
Definition checkBlacklists (c : Client) (msg : Message) : Proc unit :=
  when (negb (allowBots c) && bool_decide (user_bot (author msg) = Some true)) return_ ;;
  isUserBL <- ask (AskUserBlacklisted (user_id (author msg)))
                  (isUserBlacklisted c (user_id (author msg))) ;;
  when isUserBL return_ ;;
  isChannelBL <- ask (AskChannelBlacklisted (channel_id (channel msg)))
                     (isChannelBlacklisted c (channel_id (channel msg))) ;;
  when isChannelBL return_ ;;
  match guild msg with
  | Some g =>
      isGuildBL <- ask (AskGuildBlacklisted (guild_id g))
                       (isGuildBlacklisted c (guild_id g)) ;;
      when isGuildBL return_
  | None => ret tt
  end.

(** [[...prefix, p]] or [[...prefix, ...p]] *)
Definition spread (acc : list string) (p : OneOrMany) : list string :=
  match p with
  | One s => (acc ++ [s])%list
  | Many l => (acc ++ l)%list
  end.

Definition spreadOpt (acc : list string) (p : option OneOrMany) : list string :=
  match p with
  | Some p => spread acc p
  | None => acc
  end.

(** Lines 149-167: global, then user, then guild prefixes, duplicates removed. *)
Definition gatherPrefixes (c : Client) (msg : Message) : Proc (list string) :=
  let prefix := spread [] (prefix c) in
  userPrefix <- ask (AskUserPrefix (user_id (author msg)))
                    (getUserPrefix c (user_id (author msg))) ;;
  let prefix := spreadOpt prefix userPrefix in
  prefix <- match guild msg with
            | Some g =>
                guildPrefix <- ask (AskGuildPrefix (guild_id g))
                                   (getGuildPrefix c (guild_id g)) ;;
                ret (spreadOpt prefix guildPrefix)
            | None => ret prefix
            end ;;
  ret (newSet prefix).

(** The prefixes asked for, in the order they are asked for. *)
Definition prefixSources (c : Client) (msg : Message) : list string :=
  spreadOpt
    (spreadOpt (spread [] (prefix c)) (getUserPrefix c (user_id (author msg))))
    (match guild msg with
     | Some g => getGuildPrefix c (guild_id g)
     | None => None
     end).

(** The comparator [(b, a) => a.length - b.length]. *)
Definition byLengthDesc (b a : string) : Z :=
  Z.of_nat (String.length a) - Z.of_nat (String.length b).

(** Lines 171-173: [prefix.filter(...).sort(...)[0]] *)
Definition usedPrefix (prefix : list string) (content : string) : option string :=
  head (sortBy byLengthDesc (List.filter (startsWith content) prefix)).

(** [startsWith(this.user?.mention as string)]: [undefined] is turned into
    the string "undefined" by [startsWith]. *)
Definition searchString (s : option string) : string :=
  match s with
  | Some s => s
  | None => "undefined"
  end.

(** Lines 149-187 *)
Definition resolvePrefix (c : Client) (msg : Message) : Proc string :=
  prefix <- gatherPrefixes c msg ;;
  let used := usedPrefix prefix (content msg) in
  let mentionPfx := match used with None => mentionPrefix c | Some _ => false end in
  used <- (if mentionPfx then
             if startsWith (content msg) (searchString (mention <$> user c))
             then ret (mention <$> user c)
             else if startsWith (content msg) (searchString (nickMention <$> user c))
             then ret (nickMention <$> user c)
             else return_
           else ret used) ;;
  match used with
  | Some p => ret p
  | None => return_
  end.

(** [list.includes(x)] *)
Definition includes (l : list string) (x : string) : bool := existsb (String.eqb x) l.

(** [category?.field] *)
Definition catField {A} (f : CommandCategory -> option A)
    (cat : option CommandCategory) : option A :=
  match cat with
  | Some k => f k
  | None => None
  end.

(** [own !== undefined || category === undefined ? own : category.field] *)
Definition flagOf (own : option bool) (cat : option CommandCategory)
    (f : CommandCategory -> option bool) : option bool :=
  match own, cat with
  | None, Some k => f k
  | _, _ => own
  end.

(** [flag === true] *)
Definition isTrue (flag : option bool) : bool := bool_decide (flag = Some true).

(** What the body has in hand once the context is built (line 252). *)
Record Invocation := {
  inv_command : Command;
  inv_category : option CommandCategory;
  inv_parsed : ParsedCommand;
  inv_ctx : CommandContext
}.

(** Lines 189-252: parsing, lookup, whitelists and the context. *)
Definition resolveCommand (c : Client) (msg : Message) (pfx : string) : Proc Invocation :=
  match parseCommand c msg pfx with
  | None => return_
  | Some parsed =>
  match commands_fetch c parsed with
  | None => return_
  | Some command =>
    let cat := match category command with
               | Some k => categories_get c k
               | None => None
               end in
    when (match whitelistedGuilds command, catField cat_whitelistedGuilds cat, guild msg with
          | None, Some wl, Some g => negb (includes wl (guild_id g))
          | _, _, _ => false
          end) return_ ;;
    when (match whitelistedGuilds command, guild msg with
          | Some wl, Some g => negb (includes wl (guild_id g))
          | _, _ => false
          end) return_ ;;
    when (match whitelistedChannels command, catField cat_whitelistedChannels cat with
          | None, Some wl => negb (includes wl (channel_id (channel msg)))
          | _, _ => false
          end) return_ ;;
    when (match whitelistedChannels command with
          | Some wl => negb (includes wl (channel_id (channel msg)))
          | None => false
          end) return_ ;;
    when (match whitelistedUsers command, catField cat_whitelistedUsers cat with
          | None, Some wl => negb (includes wl (user_id (author msg)))
          | _, _ => false
          end) return_ ;;
    when (match whitelistedUsers command with
          | Some wl => negb (includes wl (user_id (author msg)))
          | None => false
          end) return_ ;;
    ret {| inv_command := command;
           inv_category := cat;
           inv_parsed := parsed;
           inv_ctx := {| ctx_name := parsed_name parsed;
                         ctx_prefix := pfx;
                         ctx_args := parsed_args parsed;
                         ctx_argString := parsed_argString parsed;
                         ctx_message := msg;
                         ctx_author := author msg;
                         ctx_command := command;
                         ctx_channel := channel msg;
                         ctx_guild := guild msg |} |}
  end
  end.

(** Lines 254-280: owner-only, guild-only and DM-only. *)
Definition checkScope (c : Client) (msg : Message) (inv : Invocation) : Proc unit :=
  let command := inv_command inv in
  let cat := inv_category inv in
  let ctx := inv_ctx inv in
  when (isTrue (flagOf (ownerOnly command) cat cat_ownerOnly)
        && negb (includes (owners c) (user_id (author msg))))
       (returnEmit (commandOwnerOnly ctx)) ;;
  when (isTrue (flagOf (guildOnly command) cat cat_guildOnly)
        && negb (isSome (guild msg)))
       (returnEmit (commandGuildOnly ctx)) ;;
  when (isTrue (flagOf (dmOnly command) cat cat_dmOnly)
        && isSome (guild msg))
       (returnEmit (commandDmOnly ctx)).

(** Lines 282-287 *)
Definition checkNSFW (msg : Message) (inv : Invocation) : Proc unit :=
  when (isTrue (nsfw (inv_command inv))
        && (negb (isSome (guild msg))
            || negb (isTrue (channel_nsfw (channel msg)))))
       (returnEmit (commandNSFW (inv_ctx inv))).

(** Lines 289-292 *)
Definition allPermissions (inv : Invocation) : option OneOrMany :=
  match permissions (inv_command inv) with
  | Some p => Some p
  | None => catField cat_permissions (inv_category inv)
  end.

(** [if (typeof permissions === 'string') permissions = [permissions]] *)
Definition toArray (p : OneOrMany) : list string :=
  match p with
  | One s => [s]
  | Many l => l
  end.

(** [...p] in an argument list: a string spreads into its characters. *)
Definition spreadArgs (p : OneOrMany) : list string :=
  match p with
  | One s => chars s
  | Many l => l
  end.

(** [[...new Set(...permissions, ...allPermissions)]]: the spread elements
    become the arguments of the constructor, which reads the first one only,
    as the iterable to take its elements from; that argument is a string. *)
Definition setOfSpreads (permissions : list string) (allPerms : OneOrMany) : list string :=
  match (permissions ++ spreadArgs allPerms)%list with
  | [] => newSet []
  | first :: _ => newSet (chars first)
  end.

Definition mergeAll (permissions : list string) (allPerms : option OneOrMany) : list string :=
  match allPerms with
  | Some ap => setOfSpreads permissions ap
  | None => permissions
  end.

(** Lines 294-321 *)
Definition checkBotPermissions (msg : Message) (inv : Invocation) : Proc unit :=
  let command := inv_command inv in
  let cat := inv_category inv in
  if (isSome (botPermissions command) || isSome (catField cat_permissions cat))
     && isSome (guild msg)
  then
    match guild msg with
    | Some g =>
        me <- ask (FetchMe (guild_id g)) (guild_me g) ;;
        let perms := match botPermissions command with
                     | None => catField cat_permissions cat
                     | Some p => Some p
                     end in
        match perms with
        | Some perms =>
            let perms := mergeAll (toArray perms) (allPermissions inv) in
            let missing := List.filter (fun perm => negb (permissions_has me perm)) perms in
            when (negb (Nat.eqb (length missing) 0))
                 (returnEmit (commandBotMissingPermissions (inv_ctx inv) missing))
        | None => ret tt
        end
    | None => ret tt
    end
  else ret tt.

(** [msg.member?.permissions.has(perm) !== true] *)
Definition memberLacks (m : option Member) (perm : string) : bool :=
  match m with
  | Some m => negb (permissions_has m perm)
  | None => true
  end.

(** Lines 323-349 *)
Definition checkUserPermissions (msg : Message) (inv : Invocation) : Proc unit :=
  let command := inv_command inv in
  let cat := inv_category inv in
  if (isSome (userPermissions command) || isSome (catField cat_userPermissions cat))
     && isSome (guild msg)
  then
    let perms := match userPermissions command with
                 | Some p => Some p
                 | None => catField cat_userPermissions cat
                 end in
    match perms with
    | Some perms =>
        let perms := mergeAll (toArray perms) (allPermissions inv) in
        let missing := List.filter (memberLacks (member msg)) perms in
        when (negb (Nat.eqb (length missing) 0))
             (returnEmit (commandUserMissingPermissions (inv_ctx inv) missing))
    | None => ret tt
    end
  else ret tt.

(** Lines 351-359 *)
Definition checkArgs (inv : Invocation) : Proc unit :=
  match args (inv_command inv) with
  | Some (ArgsFlag _) =>
      when (Nat.eqb (length (parsed_args (inv_parsed inv))) 0)
           (returnEmit (commandMissingArgs (inv_ctx inv)))
  | Some (ArgsCount n) =>
      when (Z.of_nat (length (parsed_args (inv_parsed inv))) <? n)
           (emit (commandMissingArgs (inv_ctx inv)))
  | None => ret tt
  end.

(** [beforeExecute === false] *)
Definition isFalse (v : JsVal) : bool :=
  match v with
  | VBool false => true
  | _ => false
  end.

(** Lines 361-372 *)
Definition runHooks (inv : Invocation) : Proc unit :=
  let command := inv_command inv in
  let ctx := inv_ctx inv in
  tryCatch
    (emit (commandUsed ctx) ;;
     before <- awaitHook (RunBefore ctx) (beforeExecute command ctx) ;;
     when (isFalse before) return_ ;;
     result <- awaitHook (RunExecute ctx) (execute command ctx) ;;
     callHook (RunAfter ctx result) (afterExecute command ctx result))
    (fun e => emit (commandError ctx e)).

(** The body of [processMessage] down to each of its checks. *)
Definition uptoNSFW (c : Client) (msg : Message) : Proc Invocation :=
  checkBlacklists c msg ;;
  pfx <- resolvePrefix c msg ;;
  inv <- resolveCommand c msg pfx ;;
  checkScope c msg inv ;;
  ret inv.

Definition uptoBotPermissions (c : Client) (msg : Message) : Proc Invocation :=
  inv <- uptoNSFW c msg ;;
  checkNSFW msg inv ;;
  ret inv.

Definition uptoUserPermissions (c : Client) (msg : Message) : Proc Invocation :=
  inv <- uptoBotPermissions c msg ;;
  checkBotPermissions msg inv ;;
  ret inv.

Definition uptoArgs (c : Client) (msg : Message) : Proc Invocation :=
  inv <- uptoUserPermissions c msg ;;
  checkUserPermissions msg inv ;;
  ret inv.

Definition uptoHooks (c : Client) (msg : Message) : Proc Invocation :=
  inv <- uptoArgs c msg ;;
  checkArgs inv ;;
  ret inv.

(** [processMessage(msg)], lines 129-372. *)
Definition processMessage (c : Client) (msg : Message) : Proc unit :=
  inv <- uptoHooks c msg ;;
  runHooks inv.

(** *** Reading a log *)
Definition events (t : list Action) : list Event :=
  flat_map (fun a => match a with Emit ev => [ev] | _ => [] end) t.

Definition isHook (a : Action) : bool :=
  match a with
  | RunBefore _ | RunExecute _ | RunAfter _ _ => true
  | _ => false
  end.

Definition hookCalls (t : list Action) : list Action := List.filter isHook t.

Definition isBlacklistQuery (a : Action) : bool :=
  match a with
  | AskUserBlacklisted _ | AskChannelBlacklisted _ | AskGuildBlacklisted _ => true
  | _ => false
  end.

Definition isError (ev : Event) : bool :=
  match ev with
  | commandError _ _ => true
  | _ => false
  end.

Definition isQuery (a : Action) : bool :=
  match a with
  | AskUserBlacklisted _ | AskChannelBlacklisted _ | AskGuildBlacklisted _
  | AskUserPrefix _ | AskGuildPrefix _ | FetchMe _ => true
  | _ => false
  end.

Definition isAfter (a : Action) : bool :=
  match a with
  | RunAfter _ _ => true
  | _ => false
  end.

Definition isNSFW (ev : Event) : bool :=
  match ev with
  | commandNSFW _ => true
  | _ => false
  end.

Definition isBotMissing (ev : Event) : bool :=
  match ev with
  | commandBotMissingPermissions _ _ => true
  | _ => false
  end.

(** A hook call that ends in an exception, thrown or by rejection. *)
Definition raises (r : HookResult) (e : Exn) : Prop := r = Throws e \/ r = Rejects e.

(** *** Sample dispatchers and messages *)

Definition plainHooks (o : CommandOptions) : Command :=
  {| options := o;
     beforeExecute := fun _ => Returns VUndefined;
     execute := fun _ => Returns (VStr "done");
     afterExecute := fun _ _ => Returns VUndefined |}.

Definition sampleOptions (cat : option string) (isNsfw : option bool)
    (perms botPerms : option OneOrMany) (req : option ArgsRequirement) : CommandOptions :=
  {| name := "ban"; category := cat;
     whitelistedGuilds := None; whitelistedChannels := None; whitelistedUsers := None;
     ownerOnly := None; guildOnly := None; dmOnly := None; nsfw := isNsfw;
     permissions := perms; botPermissions := botPerms; userPermissions := None;
     args := req |}.

Definition sampleCategory (botPerms : option OneOrMany) : CommandCategory :=
  {| cat_whitelistedGuilds := None; cat_whitelistedChannels := None;
     cat_whitelistedUsers := None; cat_ownerOnly := None; cat_guildOnly := None;
     cat_dmOnly := None; cat_nsfw := None; cat_permissions := None;
     cat_botPermissions := botPerms; cat_userPermissions := None |}.

(** A parser that takes what follows the prefix as the name, with no
    arguments. *)
Definition sampleParse (msg : Message) (pfx : string) : option ParsedCommand :=
  Some {| parsed_name := substring (String.length pfx)
                                   (String.length (content msg) - String.length pfx)
                                   (content msg);
          parsed_args := [];
          parsed_argString := EmptyString |}.

Definition sampleClient (command : Command) (cat : option CommandCategory) : Client :=
  {| prefix := Many ["!"; "!!"];
     mentionPrefix := false;
     getGuildPrefix := fun _ => None;
     getUserPrefix := fun _ => None;
     isGuildBlacklisted := fun _ => false;
     isUserBlacklisted := fun id => String.eqb id "666";
     isChannelBlacklisted := fun _ => false;
     owners := ["1"];
     allowBots := false;
     user := Some {| mention := "<@99>"; nickMention := "<@!99>" |};
     parseCommand := sampleParse;
     commands_fetch := fun p => if String.eqb (parsed_name p) (name command)
                                then Some command else None;
     categories_get := fun _ => cat |}.

(** A guild in which the bot and the members hold the permissions [held]. *)
Definition sampleMember (held : list string) : Member :=
  {| permissions_has := includes held |}.

Definition sampleGuild (held : list string) : Guild :=
  {| guild_id := "500"; guild_me := sampleMember held |}.

Definition sampleMessage (text : string) (from : Snowflake) (g : option Guild) : Message :=
  {| content := text;
     author := {| user_id := from; user_bot := None |};
     channel := {| channel_id := "700"; channel_nsfw := None |};
     guild := g;
     member := None |}.

Definition isMissingArgs (ev : Event) : bool :=
  match ev with
  | commandMissingArgs _ => true
  | _ => false
  end.

(** No event of the log is one that [p] picks. *)
Definition emitsNone (p : Event -> bool) (t : list Action) : bool :=
  forallb (fun a => match a with Emit ev => negb (p ev) | _ => true end) t.

(** A command whose execute hook throws. *)
Definition failingCommand : Command :=
  {| options := sampleOptions None None None None None;
     beforeExecute := fun _ => Returns VUndefined;
     execute := fun _ => Throws (Error "boom");
     afterExecute := fun _ _ => Returns VUndefined |}.

End CommandClient.



(** ** src/unnamed/part_000: the [Interaction] class *)

Module Interaction.
Import Js.

Definition Snowflake := string.

(** The members of [InteractionResponseType] that the class names. *)
Inductive InteractionResponseType :=
| ACKNOWLEDGE
| CHANNEL_MESSAGE
| CHANNEL_MESSAGE_WITH_SOURCE
| ACK_WITH_SOURCE.

(** Modelled from the spec: [SlashCommandOptionType] is declared in
    types/slash.ts, which is not part of the sources at hand; an option is a
    sub-command grouping, a number, a string, a boolean, a user, a role or a
    channel. *)
Inductive SlashCommandOptionType :=
| SUB_COMMAND
| SUB_COMMAND_GROUP
| STRING
| INTEGER
| BOOLEAN
| USER
| CHANNEL
| ROLE.

(** An entry of [data.options]; [VUndefined] is a value that is not there. *)
Record InteractionApplicationCommandOption := {
  op_name : string;
  op_type : SlashCommandOptionType;
  op_value : JsVal
}.

Record InteractionApplicationCommandData := {
  data_name : string;
  data_options : list InteractionApplicationCommandOption
}.

(** Hydrated entities; only their identity matters here. *)
Record InteractionUser := { iuser_id : Snowflake }.
Record Member := { member_id : Snowflake }.
Record InteractionChannel := { ichannel_id : Snowflake }.
Record Role := { role_id : Snowflake }.

(** The resolved tables, each with the entries it has of its own; a [Dict]
    is an object used as a map. *)
Record InteractionApplicationCommandResolved := {
  users : gmap string InteractionUser;
  members : gmap string Member;
  channels : gmap string InteractionChannel;
  roles : gmap string Role
}.

(** The fields of an [Interaction] that its methods read or write;
    [client_user_id] is [this.client.user?.id]. *)
Record Interaction := {
  id : Snowflake;
  token : string;
  data : option InteractionApplicationCommandData;
  responded : bool;
  resolved : InteractionApplicationCommandResolved;
  client_user_id : option Snowflake
}.

Definition setResponded (b : bool) (i : Interaction) : Interaction :=
  {| id := id i; token := token i; data := data i; responded := b;
     resolved := resolved i; client_user_id := client_user_id i |}.

(** [get options()]: [this.data?.options ?? []] *)
Definition options (i : Interaction) : list InteractionApplicationCommandOption :=
  match data i with
  | Some d => data_options d
  | None => []
  end.

(** What [option<T>(name)] hands back, typed [any] in the source.
    [Inherited member] is what an object literal inherits under that name
    from [Object.prototype]. *)
Inductive OptionValue :=
| NoValue
| Raw (v : JsVal)
| UserValue (u : InteractionUser)
| RoleValue (r : Role)
| ChannelValue (c : InteractionChannel)
| Inherited (member : string).

(** Decimal form of an integer. *)
Definition decimal (n : Z) : string := NilZero.string_of_int (Z.to_int n).

(** The double nearest to a natural number, a tie going to the even
    significand: the number that the integer denotes in JavaScript. *)
Definition roundToDouble (a : Z) : Z :=
  let e := Z.log2 a - 52 in
  if e <=? 0 then a
  else
    let q := Z.shiftr a e in
    let r := a - Z.shiftl q e in
    let half := Z.shiftl 1 (e - 1) in
    let q := if r <? half then q
             else if half <? r then q + 1
             else if Z.even q then q else q + 1 in
    Z.shiftl q e.

(** Number of decimal digits of a natural number. *)
Definition digits (a : Z) : Z := Z.of_nat (String.length (decimal a)).

(** Of the two decimals of [k] digits next to the double [x], the one that
    denotes [x]; the closer one when both do. *)
Definition withDigits (x k : Z) : Datatypes.option Z :=
  let unit := 10 ^ (digits x - k) in
  let lo := x / unit * unit in
  let hi := lo + unit in
  match roundToDouble lo =? x, roundToDouble hi =? x with
  | true, true =>
      Some (if x - lo <? hi - x then lo
            else if hi - x <? x - lo then hi
            else if Z.even (lo / unit) then lo else hi)
  | true, false => Some lo
  | false, true => Some hi
  | false, false => None
  end.

(** The decimal of the fewest digits that denotes the double [x]; seventeen
    digits tell any two doubles apart. *)
Fixpoint shortestFrom (x k : Z) (fuel : nat) : Z :=
  match fuel with
  | O => x
  | S fuel =>
      if digits x <? k then x
      else match withDigits x k with
           | Some v => v
           | None => shortestFrom x (k + 1) fuel
           end
  end.

Definition shortest (x : Z) : Z := shortestFrom x 1 17.

Fixpoint stripZeros (s : string) : string :=
  match s with
  | EmptyString => EmptyString
  | String c r =>
      match stripZeros r with
      | EmptyString => if Ascii.eqb c "0" then EmptyString else String c EmptyString
      | r' => String c r'
      end
  end.

(** The form [d.ddde+x] of a natural number. *)
Definition exponential (v : Z) : string :=
  let e := "e+" ++ decimal (digits v - 1) in
  match stripZeros (decimal v) with
  | String d EmptyString => String d e
  | String d more => String d ("." ++ more ++ e)
  | EmptyString => e
  end.

(** [String(n)] for the number that the integer [n] denotes. Up to 2^53 in
    absolute value every integer is a double and prints in full. Beyond,
    the digits are those of the shortest decimal that denotes the same
    double, printed in full below 10^21 and in exponent form from there
    on. *)
Definition numberToString (n : Z) : string :=
  if Z.abs n <=? 2 ^ 53 then decimal n
  else
    let x := roundToDouble (Z.abs n) in
    let sign := if n <? 0 then "-" else EmptyString in
    if 2 ^ 1024 <=? x then sign ++ "Infinity"
    else
      let v := shortest x in
      sign ++ (if digits v <=? 21 then decimal v else exponential v).

(** The property key that [table[value]] looks up. The values of a payload
    come parsed from JSON; an object among them is a plain one. *)
Definition toPropertyKey (v : JsVal) : string :=
  match v with
  | VUndefined => "undefined"
  | VBool true => "true"
  | VBool false => "false"
  | VNum n => numberToString n
  | VStr s => s
  | VObj _ => "[object Object]"
  end.

(** The names of the members that an object literal inherits from
    [Object.prototype]. *)
Definition objectPrototype : list string :=
  ["constructor"; "hasOwnProperty"; "isPrototypeOf"; "propertyIsEnumerable";
   "toLocaleString"; "toString"; "valueOf"; "__proto__";
   "__defineGetter__"; "__defineSetter__"; "__lookupGetter__"; "__lookupSetter__"].

(** [table[key] as any] on a table that is an object literal: the entry the
    table has under the key; failing that, the member of [Object.prototype]
    of that name; failing that, [undefined]. *)
Definition tableGet {A} (inj : A -> OptionValue) (table : gmap string A)
    (key : JsVal) : OptionValue :=
  let k := toPropertyKey key in
  match table !! k with
  | Some x => inj x
  | None => if existsb (String.eqb k) objectPrototype then Inherited k else NoValue
  end.

Definition isUndefined (v : JsVal) : bool :=
  match v with
  | VUndefined => true
  | _ => false
  end.

(** *** Outbound calls *)

Inductive Embed := EmbedObj (ref : N).

(** [flags?: number | InteractionResponseFlags[]] *)
Inductive Flags :=
| FlagsNumber (n : Z)
| FlagsArray (l : list Z).

(** [InteractionResponse], the argument of [respond]. *)
Record InteractionResponse := {
  r_content : option string;
  r_embeds : option (list JsVal);
  r_tts : option bool;
  r_flags : option Flags;
  r_allowedMentions : option JsVal;
  r_withSource : option bool;
  r_type : option InteractionResponseType;
  r_temp : option bool;
  r_ephemeral : option bool
}.

Record InteractionResponseData := {
  d_content : string;
  d_embeds : option (list JsVal);
  d_tts : bool;
  d_flags : Z;
  d_allowed_mentions : option JsVal
}.

Record InteractionResponsePayload := {
  p_type : InteractionResponseType;
  p_data : option InteractionResponseData
}.

(** [WebhookMessageOptions] with the fields [send] reads. *)
Record WebhookMessageOptions := {
  o_embed : option Embed;
  o_embeds : option (list Embed);
  o_file : option JsVal;
  o_tts : option bool;
  o_allowedMentions : option JsVal;
  o_name : option string;
  o_avatar : option string
}.

(** An argument of [send]: a string, an options object or an [Embed]. *)
Inductive SendArg :=
| ArgString (s : string)
| ArgOptions (o : WebhookMessageOptions)
| ArgEmbed (e : Embed).

(** The follow-up payload built by [send]. *)
Record FollowupPayload := {
  f_content : option string;
  f_embeds : option (list Embed);
  f_file : option JsVal;
  f_tts : option bool;
  f_allowed_mentions : option JsVal;
  f_username : option string;
  f_avatar : option string
}.

(** [INTERACTION_CALLBACK(id, token)] is kept symbolic (types/endpoint.ts);
    the follow-up address is the string built from [this.url]. *)
Inductive Endpoint :=
| INTERACTION_CALLBACK (id token : string)
| Url (url : string).

Inductive Body :=
| ResponseBody (p : InteractionResponsePayload)
| FollowupBody (p : FollowupPayload).

(** A call of [this.client.rest.post(endpoint, body)]. *)
Record Request := { endpoint : Endpoint; body : Body }.

(** How the transport answers a call. *)
Inductive RestResult :=
| Resolves (resp : JsVal)
| RejectsWith (e : Exn).

(** The transport: its answer may depend on every call made before. *)
Definition Rest := list Request -> Request -> RestResult.

(** The object a method runs on, and the calls issued so far. *)
Record Heap := { this : Interaction; outbound : list Request }.

(** A method body: it throws or returns, and leaves a heap. *)
Definition Method (A : Type) : Type := Heap -> (Exn + A) * Heap.

Definition ret {A} (a : A) : Method A := fun h => (inr a, h).

Definition bind {A B} (m : Method A) (f : A -> Method B) : Method B :=
  fun h => match m h with
           | (inr a, h') => f a h'
           | (inl e, h') => (inl e, h')
           end.

Declare Scope method_scope.
Delimit Scope method_scope with method.
Notation "x <- m ;; k" := (bind m (fun x => k))
  (at level 100, m at next level, right associativity) : method_scope.
Notation "m ;; k" := (bind m (fun _ => k))
  (at level 100, right associativity) : method_scope.
Local Open Scope method_scope.

Definition throw {A} (e : Exn) : Method A := fun h => (inl e, h).

Definition getThis : Method Interaction := fun h => (inr (this h), h).

(** [this.responded = b] *)
Definition assignResponded (b : bool) : Method unit :=
  fun h => (inr tt, {| this := setResponded b (this h); outbound := outbound h |}).

(** [await this.client.rest.post(endpoint, body)] *)
Definition restPost (rest : Rest) (ep : Endpoint) (b : Body) : Method JsVal :=
  fun h =>
    let req := {| endpoint := ep; body := b |} in
    let h' := {| this := this h; outbound := (outbound h ++ [req])%list |} in
    match rest (outbound h) req with
    | Resolves resp => (inr resp, h')
    | RejectsWith e => (inl e, h')
    end.

Definition isTrue (flag : option bool) : bool := bool_decide (flag = Some true).

Section Methods.

(** [InteractionResponseFlags.EPHEMERAL] (types/slash.ts) and the transport. *)
Variable EPHEMERAL : Z.
Variable rest : Rest.

(** Lines 161-168 *)
Definition responseFlags (data : InteractionResponse) : Z :=
  let flags := 0 in
  let flags := if isTrue (r_ephemeral data) || isTrue (r_temp data)
               then bitor flags EPHEMERAL else flags in
  match r_flags data with
  | Some (FlagsArray l) => fold_left bitor l flags
  | Some (FlagsNumber n) => bitor flags n
  | None => flags
  end.

(** Lines 169-187 *)
Definition responsePayload (data : InteractionResponse) : InteractionResponsePayload :=
  {| p_type := match r_type data with
               | Some t => t
               | None => if bool_decide (r_withSource data = Some false)
                         then CHANNEL_MESSAGE
                         else CHANNEL_MESSAGE_WITH_SOURCE
               end;
     p_data := match r_type data with
               | None | Some CHANNEL_MESSAGE_WITH_SOURCE | Some CHANNEL_MESSAGE =>
                   Some {| d_content := default EmptyString (r_content data);
                           d_embeds := r_embeds data;
                           d_tts := default false (r_tts data);
                           d_flags := responseFlags data;
                           d_allowed_mentions := r_allowedMentions data |}
               | _ => None
               end |}.

(** Lines 159-196. The method returns [this], which is the heap's object. *)
Definition respond (data : InteractionResponse) : Method unit :=
  i <- getThis ;;
  if responded i then throw (Error "Already responded to Interaction")
  else
    let payload := responsePayload data in
    restPost rest (INTERACTION_CALLBACK (id i) (token i)) (ResponseBody payload) ;;
    assignResponded true.

(** Lines 199-207 *)
Definition acknowledge (withSource : option bool) : Method unit :=
  respond {| r_content := None; r_embeds := None; r_tts := None; r_flags := None;
             r_allowedMentions := None; r_withSource := None;
             r_type := Some (if isTrue withSource then ACK_WITH_SOURCE else ACKNOWLEDGE);
             r_temp := None; r_ephemeral := None |}.

(** [get url()], where [undefined] prints as "undefined". *)
Definition url (i : Interaction) : string :=
  "https://discord.com/api/v8/webhooks/"
  ++ match client_user_id i with Some u => u | None => "undefined" end
  ++ "/" ++ token i.

(** Lines 280-283: an object given first is the options. *)
Definition sendArgs (text opt : option SendArg)
    : option string * option SendArg :=
  match text with
  | Some (ArgString s) => (Some s, opt)
  | Some o => (None, Some o)
  | None => (None, opt)
  end.

(** Lines 289-292: [if (option instanceof Embed) option = { embeds: [option] }] *)
Definition wrapEmbed (opt : option SendArg) : option SendArg :=
  match opt with
  | Some (ArgEmbed e) =>
      Some (ArgOptions {| o_embed := None; o_embeds := Some [e]; o_file := None;
                          o_tts := None; o_allowedMentions := None;
                          o_name := None; o_avatar := None |})
  | other => other
  end.

(** [(option as WebhookMessageOptions)?.field]: a string has none of them. *)
Definition field {A} (f : WebhookMessageOptions -> option A)
    (opt : option SendArg) : option A :=
  match opt with
  | Some (ArgOptions o) => f o
  | _ => None
  end.

(** Lines 294-313 *)
Definition followupPayload (text : option string)
    (opt : option SendArg) : FollowupPayload :=
  {| f_content := text;
     f_embeds := match field o_embed opt with
                 | Some e => Some [e]
                 | None => field o_embeds opt
                 end;
     f_file := field o_file opt;
     f_tts := field o_tts opt;
     f_allowed_mentions := field o_allowedMentions opt;
     f_username := field o_name opt;
     f_avatar := field o_avatar opt |}.

(** [embeds !== undefined && embeds instanceof Array && embeds.length > 10] *)
Definition tooManyEmbeds (p : FollowupPayload) : bool :=
  match f_embeds p with
  | Some l => (10 <? length l)%nat
  | None => false
  end.

(** Lines 276-334. The [Message] wrapped around the transport's answer is
    built by code outside this class; the answer stands for it. *)
Definition send (text opt : option SendArg) : Method JsVal :=
  let '(text, opt) := sendArgs text opt in
  if negb (isSome text) && negb (isSome opt)
  then throw (Error "Either text or option is necessary.")
  else
    let opt := wrapEmbed opt in
    let payload := followupPayload text opt in
    if tooManyEmbeds payload
    then throw (Error "Cannot send more than 10 embeds through Interaction Webhook")
    else
      i <- getThis ;;
      resp <- restPost rest (Url (url i ++ "?wait=true")) (FollowupBody payload) ;;
      ret resp.

End Methods.

(** [respond] called once per element of [datas], whatever each call does;
    counts the calls that took [responded] from false to true. *)
Fixpoint respondEach (EPHEMERAL : Z) (rest : Rest) (datas : list InteractionResponse)
    (h : Heap) : nat * Heap :=
  match datas with
  | [] => (0%nat, h)
  | d :: ds =>
      let h' := snd (respond EPHEMERAL rest d h) in
      let '(n, h'') := respondEach EPHEMERAL rest ds h' in
      ((if negb (responded (this h)) && responded (this h') then S n else n), h'')
  end.

(** The call that [respond(data)] issues on the interaction [i]. *)
Definition callbackRequest (EPHEMERAL : Z) (i : Interaction)
    (data : InteractionResponse) : Request :=
  {| endpoint := INTERACTION_CALLBACK (id i) (token i);
     body := ResponseBody (responsePayload EPHEMERAL data) |}.

(** *** Sample interactions, arguments and transports *)

Definition sampleInteraction : Interaction :=
  {| id := "900"; token := "tok";
     data := Some {| data_name := "ban";
                     data_options := [ {| op_name := "reason"; op_type := STRING;
                                          op_value := VStr "spam" |};
                                       {| op_name := "target"; op_type := USER;
                                          op_value := VStr "123" |} ] |};
     responded := false;
     resolved := {| users := {[ "123" := {| iuser_id := "123" |} ]};
                    members := ∅; channels := ∅; roles := ∅ |};
     client_user_id := Some "99" |}.

Definition freshHeap : Heap := {| this := sampleInteraction; outbound := [] |}.

Definition textResponse (text : string) : InteractionResponse :=
  {| r_content := Some text; r_embeds := None; r_tts := None; r_flags := None;
     r_allowedMentions := None; r_withSource := None; r_type := None;
     r_temp := None; r_ephemeral := None |}.

Definition accepting : Rest := fun _ _ => Resolves VUndefined.
Definition rejecting : Rest := fun _ _ => RejectsWith (Error "503").

(** A transport that rejects the first call it sees and resolves the
    later ones. *)
Definition flaky : Rest :=
  fun sent _ => match sent with
                | [] => RejectsWith (Error "503")
                | _ => Resolves VUndefined
                end.

Definition elevenEmbeds : list Embed := List.map EmbedObj (List.map N.of_nat (seq 1 11)).

(** Options with a single [embed] next to eleven [embeds]. *)
Definition embedAndEmbeds : WebhookMessageOptions :=
  {| o_embed := Some (EmbedObj 0); o_embeds := Some elevenEmbeds; o_file := None;
     o_tts := None; o_allowedMentions := None; o_name := None; o_avatar := None |}.

Definition onlyEmbeds : WebhookMessageOptions :=
  {| o_embed := None; o_embeds := Some elevenEmbeds; o_file := None;
     o_tts := None; o_allowedMentions := None; o_name := None; o_avatar := None |}.

(** Lines 146-156 *)
Definition option (i : Interaction) (name : string) : OptionValue :=
  match find (fun e => String.eqb (op_name e) name) (options i) with
  | None => NoValue
  | Some op =>
      if isUndefined (op_value op) then NoValue
      else match op_type op with
           | USER => tableGet UserValue (users (resolved i)) (op_value op)
           | ROLE => tableGet RoleValue (roles (resolved i)) (op_value op)
           | CHANNEL => tableGet ChannelValue (channels (resolved i)) (op_value op)
           | _ => Raw (op_value op)
           end
  end.

End Interaction.

(** ** src/models/commandClient.ts: the constructor, and the parts of
    [processMessage] taken apart *)

Module Dispatch.
Import Js CommandClient.
Local Open Scope proc_scope.

(** Lines 130-252: the body of [processMessage] down to the context. *)
Definition uptoCommand (c : Client) (msg : Message) : Proc Invocation :=
  checkBlacklists c msg ;;
  pfx <- resolvePrefix c msg ;;
  resolveCommand c msg pfx.

(** Lines 254-372: what follows once the context is built. *)
Definition afterCommand (c : Client) (msg : Message) (inv : Invocation) : Proc unit :=
  checkScope c msg inv ;;
  checkNSFW msg inv ;;
  checkBotPermissions msg inv ;;
  checkUserPermissions msg inv ;;
  checkArgs inv ;;
  runHooks inv.

(** The events that go with a [return]. *)
Definition isScopeVeto (ev : Event) : bool :=
  match ev with
  | commandOwnerOnly _ | commandGuildOnly _ | commandDmOnly _ | commandNSFW _ => true
  | _ => false
  end.

Definition isPermissionVeto (ev : Event) : bool :=
  match ev with
  | commandBotMissingPermissions _ _ | commandUserMissingPermissions _ _ => true
  | _ => false
  end.

Definition isVeto (ev : Event) : bool := isScopeVeto ev || isPermissionVeto ev.

Definition isUsed (ev : Event) : bool :=
  match ev with
  | commandUsed _ => true
  | _ => false
  end.

(** The three ways the checks before the argument count leave the body: it
    goes on, it returns without a word, or it returns the [emit] of one
    event picked by [P]; in each case nothing else was done but asking. *)
Inductive GateOutcome {A : Type} (P : Event -> bool) : Proc A -> Prop :=
| GatePass (t : list Action) (a : A) :
    forallb isQuery t = true -> GateOutcome P (t, Next a)
| GateSilent (t : list Action) :
    forallb isQuery t = true -> GateOutcome P (t, Return None)
| GateVeto (t : list Action) (ev : Event) :
    forallb isQuery t = true -> P ev = true ->
    GateOutcome P ((t ++ [Emit ev])%list, Return (Some ev)).

(** *** The constructor, lines 71-126 *)

(** [CommandClientOptions], lines 18-45; the options of the base client are
    left out. *)
Record CommandClientOptions := {
  opt_prefix : OneOrMany;
  opt_mentionPrefix : option bool;
  opt_getGuildPrefix : option (Snowflake -> option OneOrMany);
  opt_getUserPrefix : option (Snowflake -> option OneOrMany);
  opt_getChannelPrefix : option (Snowflake -> option OneOrMany);
  opt_isGuildBlacklisted : option (Snowflake -> bool);
  opt_isUserBlacklisted : option (Snowflake -> bool);
  opt_isChannelBlacklisted : option (Snowflake -> bool);
  opt_spacesAfterPrefix : option bool;
  opt_owners : option (list Snowflake);
  opt_allowBots : option bool;
  opt_allowDMs : option bool;
  opt_caseSensitive : option bool
}.

(** The constructed object: the fields [processMessage] reads, and the
    others the constructor sets. *)
Record CommandClientObject := {
  dispatcher :> Client;
  getChannelPrefix : Snowflake -> option OneOrMany;
  spacesAfterPrefix : bool;
  allowDMs : bool;
  caseSensitive : bool
}.

(** [options.field === undefined ? fallback : options.field] *)
Definition orElse {A} (o : option A) (fallback : A) : A :=
  match o with
  | Some x => x
  | None => fallback
  end.

(** The constructor. The parser and the two managers are the ones of
    models/command.ts; [this.user] is undefined until the client logs in. *)
Definition construct (options : CommandClientOptions)
    (parse : Message -> string -> option ParsedCommand)
    (fetch : ParsedCommand -> option Command)
    (categories : string -> option CommandCategory) : CommandClientObject :=
  {| dispatcher :=
       {| prefix := opt_prefix options;
          mentionPrefix := orElse (opt_mentionPrefix options) false;
          getGuildPrefix := orElse (opt_getGuildPrefix options)
                                   (fun _ => Some (opt_prefix options));
          getUserPrefix := orElse (opt_getUserPrefix options)
                                  (fun _ => Some (opt_prefix options));
          isGuildBlacklisted := orElse (opt_isGuildBlacklisted options) (fun _ => false);
          isUserBlacklisted := orElse (opt_isUserBlacklisted options) (fun _ => false);
          isChannelBlacklisted := orElse (opt_isChannelBlacklisted options) (fun _ => false);
          owners := orElse (opt_owners options) [];
          allowBots := orElse (opt_allowBots options) false;
          user := None;
          parseCommand := parse;
          commands_fetch := fetch;
          categories_get := categories |};
     getChannelPrefix := orElse (opt_getChannelPrefix options)
                                (fun _ => Some (opt_prefix options));
     spacesAfterPrefix := orElse (opt_spacesAfterPrefix options) false;
     allowDMs := orElse (opt_allowDMs options) true;
     caseSensitive := orElse (opt_caseSensitive options) false |}.

(** Options that give the prefix and nothing else. *)
Definition onlyPrefix (p : OneOrMany) : CommandClientOptions :=
  {| opt_prefix := p; opt_mentionPrefix := None; opt_getGuildPrefix := None;
     opt_getUserPrefix := None; opt_getChannelPrefix := None;
     opt_isGuildBlacklisted := None; opt_isUserBlacklisted := None;
     opt_isChannelBlacklisted := None; opt_spacesAfterPrefix := None;
     opt_owners := None; opt_allowBots := None; opt_allowDMs := None;
     opt_caseSensitive := None |}.

(** *** More sample commands *)

Definition scopedOptions (owner guildO dmO : option bool) : CommandOptions :=
  {| name := "ban"; category := None;
     whitelistedGuilds := None; whitelistedChannels := None; whitelistedUsers := None;
     ownerOnly := owner; guildOnly := guildO; dmOnly := dmO; nsfw := None;
     permissions := None; botPermissions := None; userPermissions := None;
     args := None |}.

Definition userPermOptions (perms userPerms : option OneOrMany) : CommandOptions :=
  {| name := "ban"; category := None;
     whitelistedGuilds := None; whitelistedChannels := None; whitelistedUsers := None;
     ownerOnly := None; guildOnly := None; dmOnly := None; nsfw := None;
     permissions := perms; botPermissions := None; userPermissions := userPerms;
     args := None |}.

Definition whitelistOptions (guilds : option (list Snowflake)) : CommandOptions :=
  {| name := "ban"; category := None;
     whitelistedGuilds := guilds; whitelistedChannels := None; whitelistedUsers := None;
     ownerOnly := None; guildOnly := None; dmOnly := None; nsfw := None;
     permissions := None; botPermissions := None; userPermissions := None;
     args := None |}.

(** A command with the given hook results. *)
Definition hooked (before exec after : HookResult) : Command :=
  {| options := sampleOptions None None None None None;
     beforeExecute := fun _ => before;
     execute := fun _ => exec;
     afterExecute := fun _ _ => after |}.

End Dispatch.

(** ** src/models/commandClient.ts: [processMessage] when a collaborator
    rejects *)

Module Rejections.
Import Js CommandClient.
Local Open Scope proc_scope.

(** [processMessage] awaits its blacklist and prefix providers and
    [msg.guild.me()] outside the [try] block of line 361. [Faults] tells of
    each of these calls whether it rejects (or throws), and with what; a
    call that does not answers as the client and the guild have it. *)
Definition Faults := Action -> option Exn.

Section WithFaults.

Variable faults : Faults.

(** [await awaitSync(provider(id))] and [await msg.guild.me()]: a rejection
    is thrown on from the [await]. *)
Definition await {A} (a : Action) (v : A) : Proc A :=
  match faults a with
  | Some e => ([a], Throw e)
  | None => ask a v
  end.

(** Lines 130-147 *)
Definition checkBlacklists (c : Client) (msg : Message) : Proc unit :=
  when (negb (allowBots c) && bool_decide (user_bot (author msg) = Some true)) return_ ;;
  isUserBL <- await (AskUserBlacklisted (user_id (author msg)))
                    (isUserBlacklisted c (user_id (author msg))) ;;
  when isUserBL return_ ;;
  isChannelBL <- await (AskChannelBlacklisted (channel_id (channel msg)))
                       (isChannelBlacklisted c (channel_id (channel msg))) ;;
  when isChannelBL return_ ;;
  match guild msg with
  | Some g =>
      isGuildBL <- await (AskGuildBlacklisted (guild_id g))
                         (isGuildBlacklisted c (guild_id g)) ;;
      when isGuildBL return_
  | None => ret tt
  end.

(** Lines 149-167 *)
Definition gatherPrefixes (c : Client) (msg : Message) : Proc (list string) :=
  let prefix := spread [] (prefix c) in
  userPrefix <- await (AskUserPrefix (user_id (author msg)))
                      (getUserPrefix c (user_id (author msg))) ;;
  let prefix := spreadOpt prefix userPrefix in
  prefix <- match guild msg with
            | Some g =>
                guildPrefix <- await (AskGuildPrefix (guild_id g))
                                     (getGuildPrefix c (guild_id g)) ;;
                ret (spreadOpt prefix guildPrefix)
            | None => ret prefix
            end ;;
  ret (newSet prefix).

(** Lines 149-187 *)
Definition resolvePrefix (c : Client) (msg : Message) : Proc string :=
  prefix <- gatherPrefixes c msg ;;
  let used := usedPrefix prefix (content msg) in
  let mentionPfx := match used with None => mentionPrefix c | Some _ => false end in
  used <- (if mentionPfx then
             if startsWith (content msg) (searchString (mention <$> user c))
             then ret (mention <$> user c)
             else if startsWith (content msg) (searchString (nickMention <$> user c))
             then ret (nickMention <$> user c)
             else return_
           else ret used) ;;
  match used with
  | Some p => ret p
  | None => return_
  end.

(** Lines 294-321 *)
Definition checkBotPermissions (msg : Message) (inv : Invocation) : Proc unit :=
  let command := inv_command inv in
  let cat := inv_category inv in
  if (isSome (botPermissions command) || isSome (catField cat_permissions cat))
     && isSome (guild msg)
  then
    match guild msg with
    | Some g =>
        me <- await (FetchMe (guild_id g)) (guild_me g) ;;
        let perms := match botPermissions command with
                     | None => catField cat_permissions cat
                     | Some p => Some p
                     end in
        match perms with
        | Some perms =>
            let perms := mergeAll (toArray perms) (allPermissions inv) in
            let missing := List.filter (fun perm => negb (permissions_has me perm)) perms in
            when (negb (Nat.eqb (length missing) 0))
                 (returnEmit (commandBotMissingPermissions (inv_ctx inv) missing))
        | None => ret tt
        end
    | None => ret tt
    end
  else ret tt.

(** Lines 130-252 *)
Definition uptoCommand (c : Client) (msg : Message) : Proc Invocation :=
  checkBlacklists c msg ;;
  pfx <- resolvePrefix c msg ;;
  resolveCommand c msg pfx.

(** Lines 254-372 *)
Definition afterCommand (c : Client) (msg : Message) (inv : Invocation) : Proc unit :=
  checkScope c msg inv ;;
  checkNSFW msg inv ;;
  checkBotPermissions msg inv ;;
  checkUserPermissions msg inv ;;
  checkArgs inv ;;
  runHooks inv.

(** [processMessage(msg)], lines 129-372. *)
Definition processMessage (c : Client) (msg : Message) : Proc unit :=
  inv <- uptoCommand c msg ;;
  afterCommand c msg inv.

(** No query of the log is one that rejects. *)
Definition answered (t : list Action) : Prop :=
  forall a, In a t -> isQuery a = true -> faults a = None.

(** How a run stands to the run in which every collaborator answers: it is
    that run, none of whose queries rejects, or it has stopped at the first
    of its queries that rejects, with the rejection thrown on. *)
Inductive Follows {A : Type} : Proc A -> Proc A -> Prop :=
| FollowsSame (m : Proc A) : answered (fst m) -> Follows m m
| FollowsThrow (t t' : list Action) (q : Action) (e : Exn) (r : Flow A) :
    answered t -> isQuery q = true -> faults q = Some e ->
    Follows ((t ++ [q])%list, Throw e) ((t ++ q :: t')%list, r).

End WithFaults.

Definition isNotQuery (a : Action) : bool := negb (isQuery a).

(** A guild in which [me()] rejects, and a command that needs a permission
    of the bot. *)
Definition meRejects : Faults :=
  fun a => match a with
           | FetchMe _ => Some (Error "Missing Access")
           | _ => None
           end.

Definition needsBan : Command :=
  plainHooks (sampleOptions None None None (Some (One "BAN_MEMBERS")) None).

End Rejections.

(** ** src/unnamed/part_000: [reply] and the follow-up messages *)

Module Responder.
Import Js Interaction.
Local Open Scope method_scope.

(** A property of an options object: not there ([None]), there and
    undefined ([Some None]), or there with a value. *)
Definition Field (A : Type) : Type := Datatypes.option (Datatypes.option A).

(** [object.field] *)
Definition read {A} (f : Field A) : Datatypes.option A :=
  match f with
  | Some v => v
  | None => None
  end.

(** [InteractionMessageOptions], lines 41-49. *)
Record InteractionMessageOptions := {
  m_content : Field string;
  m_embeds : Field (list JsVal);
  m_tts : Field bool;
  m_flags : Field Flags;
  m_allowedMentions : Field JsVal;
  m_withSource : Field bool
}.

(** [{}] *)
Definition noOptions : InteractionMessageOptions :=
  {| m_content := None; m_embeds := None; m_tts := None; m_flags := None;
     m_allowedMentions := None; m_withSource := None |}.

(** [Object.assign(target, source)], property by property: what the source
    has replaces what the target has. *)
Definition assignField {A} (target source : Field A) : Field A :=
  match source with
  | Some v => Some v
  | None => target
  end.

Definition assign (target source : InteractionMessageOptions) : InteractionMessageOptions :=
  {| m_content := assignField (m_content target) (m_content source);
     m_embeds := assignField (m_embeds target) (m_embeds source);
     m_tts := assignField (m_tts target) (m_tts source);
     m_flags := assignField (m_flags target) (m_flags source);
     m_allowedMentions := assignField (m_allowedMentions target) (m_allowedMentions source);
     m_withSource := assignField (m_withSource target) (m_withSource source) |}.

(** The first argument of [reply]: a string or an options object. *)
Inductive ReplyArg :=
| ReplyText (s : string)
| ReplyOptions (o : InteractionMessageOptions).

(** Lines 220-229: the options [reply] ends up with. *)
Definition replyOptions (content : ReplyArg)
    (messageOptions : Datatypes.option InteractionMessageOptions)
    : InteractionMessageOptions :=
  let options := match content with
                 | ReplyOptions o => Some o
                 | ReplyText _ => messageOptions
                 end in
  let options := match content, messageOptions, options with
                 | ReplyOptions _, Some mo, Some o => Some (assign o mo)
                 | _, _, _ => options
                 end in
  let options := match options with
                 | Some o => o
                 | None => noOptions
                 end in
  match content with
  | ReplyText s =>
      assign options {| m_content := Some (Some s); m_embeds := None; m_tts := None;
                        m_flags := None; m_allowedMentions := None;
                        m_withSource := None |}
  | ReplyOptions _ => options
  end.

(** Lines 231-238: the options with [type] assigned, as [respond] reads
    them. *)
Definition replyResponse (options : InteractionMessageOptions) : InteractionResponse :=
  {| r_content := read (m_content options);
     r_embeds := read (m_embeds options);
     r_tts := read (m_tts options);
     r_flags := read (m_flags options);
     r_allowedMentions := read (m_allowedMentions options);
     r_withSource := read (m_withSource options);
     r_type := Some (if bool_decide (read (m_withSource options) = Some false)
                     then CHANNEL_MESSAGE
                     else CHANNEL_MESSAGE_WITH_SOURCE);
     r_temp := None;
     r_ephemeral := None |}.

(** Lines 216-241 *)
Definition reply (EPHEMERAL : Z) (rest : Rest) (content : ReplyArg)
    (messageOptions : Datatypes.option InteractionMessageOptions) : Method unit :=
  respond EPHEMERAL rest (replyResponse (replyOptions content messageOptions)).

(** *** Follow-up messages: [editResponse], [deleteResponse], [editMessage],
    [deleteMessage] *)

(** A [Message], of which the id is read. *)
Record Message := { message_id : Snowflake }.



















End Responder.

(** ** src/models/client.ts *)

Module ClientCore.
Import Js.

Definition Snowflake := string.

(** *** [get uptime()], lines 143-150; [now] is [Date.now()] and the time
    the client went up is [upSince.getTime()], both in milliseconds. *)
Definition uptime (now : Z) (upSince : option Z) : Z :=
  match upSince with
  | None => 0
  | Some since =>
      let dif := now - since in
      if dif <? 0 then 0 else dif
  end.

(** *** [getEstimatedID()], lines 254-265 *)

(** [token.split('.')[0]] *)
Fixpoint firstSegment (token : string) : string :=
  match token with
  | EmptyString => EmptyString
  | String ch rest => if Ascii.eqb ch "."%char then EmptyString
                      else String ch (firstSegment rest)
  end.

(** [atob] is the platform's base64 decoder; [None] stands for its throwing. *)
Definition getEstimatedID (atob : string -> option string)
    (user : option Snowflake) (token : option string) (_id : option string) : string :=
  match user with
  | Some id => id
  | None =>
      match token with
      | Some tk =>
          match atob (firstSegment tk) with
          | Some decoded => decoded
          | None => default "unknown" _id
          end
      | None => default "unknown" _id
      end
  end.

(** *** [connect(token, intents)], lines 290-313 *)

(** [shardCount: number | 'auto'] *)
Inductive ShardCount :=
| Auto
| Shards (n : Z).

(** The fields that [connect] reads and writes; [rest_token] is
    [this.rest.token] and [cachedShardCount] is [this.shards.cachedShardCount]. *)
Record Connection := {
  token : option string;
  intents : option (list Z);
  rest_token : option string;
  shard : option Z;
  shardCount : ShardCount;
  cachedShardCount : option Z
}.

(** What [connect] does besides: the debug notice, and the calls it awaits. *)
Inductive ConnectAction :=
| Debug (tag message : string)
| Launch (shard : Z)
| ShardsConnect
| WaitForReady.

(** The outcome of [connect]: how it ends, the fields, what it did. *)
Record Connected := {
  outcome : Exn + unit;
  fields : Connection;
  done : list ConnectAction
}.

(** Lines 306-312, with the token settled; [awaited] tells how a call that
    is awaited ends ([None]: it resolves). *)
Definition launchShards (awaited : ConnectAction -> option Exn) (tk : string)
    (notices : list ConnectAction) (c : Connection) : Connected :=
  let c := {| token := token c; intents := intents c; rest_token := Some tk;
              shard := shard c; shardCount := shardCount c;
              cachedShardCount := cachedShardCount c |} in
  let '(c, first) :=
    match shard c with
    | Some n =>
        ({| token := token c; intents := intents c; rest_token := rest_token c;
            shard := shard c; shardCount := shardCount c;
            cachedShardCount := match shardCount c with
                                | Shards k => Some k
                                | Auto => cachedShardCount c
                                end |},
         Launch n)
    | None => (c, ShardsConnect)
    end in
  match awaited first with
  | Some e => {| outcome := inl e; fields := c; done := (notices ++ [first])%list |}
  | None =>
      match awaited WaitForReady with
      | Some e => {| outcome := inl e; fields := c;
                     done := (notices ++ [first; WaitForReady])%list |}
      | None => {| outcome := inr tt; fields := c;
                   done := (notices ++ [first; WaitForReady])%list |}
      end
  end.

(** Lines 295-304, with the token settled. *)
Definition settleIntents (awaited : ConnectAction -> option Exn) (tk : string)
    (intentsArg : option (list Z)) (c : Connection) : Connected :=
  match intentsArg, intents c with
  | Some _, Some _ =>
      launchShards awaited tk
        [Debug "client"
               "Intents were set in both client and connect function. Using the one in the connect function..."]
        c
  | None, Some _ => launchShards awaited tk [] c
  | Some given, None =>
      launchShards awaited tk []
        {| token := token c; intents := Some given; rest_token := rest_token c;
           shard := shard c; shardCount := shardCount c;
           cachedShardCount := cachedShardCount c |}
  | None, None =>
      {| outcome := inl (Error "No Gateway Intents were provided");
         fields := c; done := [] |}
  end.

(** Lines 290-313 *)
Definition connect (awaited : ConnectAction -> option Exn)
    (tokenArg : option string) (intentsArg : option (list Z)) (c : Connection) : Connected :=
  match tokenArg, token c with
  | None, Some tk => settleIntents awaited tk intentsArg c
  | Some tk, None =>
      settleIntents awaited tk intentsArg
        {| token := Some tk; intents := intents c; rest_token := rest_token c;
           shard := shard c; shardCount := shardCount c;
           cachedShardCount := cachedShardCount c |}
  | _, _ => {| outcome := inl (Error "No Token Provided"); fields := c; done := [] |}
  end.

(** *** Collectors, lines 335-365 *)

(** A collector: the object, known by its identity, and the event it
    listens for. *)
Record Collector := { collector_ref : N; collector_event : string }.

(** [collectors: Set<Collector>], in insertion order. *)
Definition has (collectors : list Collector) (c : Collector) : bool :=
  existsb (fun x => N.eqb (collector_ref x) (collector_ref c)) collectors.

(** [addCollector], lines 336-342 *)
Definition addCollector (c : Collector) (collectors : list Collector)
    : bool * list Collector :=
  if has collectors c then (false, collectors)
  else (true, (collectors ++ [c])%list).

(** [removeCollector], lines 345-351 *)
Definition removeCollector (c : Collector) (collectors : list Collector)
    : bool * list Collector :=
  if negb (has collectors c) then (false, collectors)
  else (true, List.filter (fun x => negb (N.eqb (collector_ref x) (collector_ref c)))
                          collectors).

Inductive EmitAction :=
| Fire (c : Collector) (args : list JsVal)
| SuperEmit (event : string) (args : list JsVal).

(** [emit], lines 353-365: the collectors fired (each [_fire] is taken to
    return), then the emitter's own [emit]. *)
Definition emit (collectors : list Collector) (event : string) (args : list JsVal)
    : list EmitAction :=
  let listening := List.filter (fun c => String.eqb (collector_event c) event) collectors in
  ((if negb (Nat.eqb (length listening) 0)
    then List.map (fun c => Fire c args) collectors
    else [])
   ++ [SuperEmit event args])%list.

(** *** [editUser], [setUsername], [setAvatar], lines 373-401 *)

Inductive EditUserAction :=
| FetchAuto (url : string)
| PatchMe (username avatar : option string).

(** [editUser(data)]; [fetchAuto] is the helper of deps.ts and [patch] is
    [this.rest.api.users['@me'].patch], each thrown on when it gives an
    exception. *)
Definition editUser (fetchAuto : string -> Exn + string)
    (patch : option string -> option string -> option Exn)
    (username avatar : option string) : (Exn + unit) * list EditUserAction :=
  if negb (isSome username) && negb (isSome avatar)
  then (inl (Error "Either username or avatar or both must be specified to edit"), [])
  else
    let fetched :=
      match avatar with
      | Some a =>
          if startsWith a "http"
          then match fetchAuto a with
               | inr data => (inr (Some data), [FetchAuto a])
               | inl e => (inl e, [FetchAuto a])
               end
          else (inr (Some a), [])
      | None => (inr None, [])
      end in
    match fetched with
    | (inl e, did) => (inl e, did)
    | (inr avatar, did) =>
        match patch username avatar with
        | Some e => (inl e, (did ++ [PatchMe username avatar])%list)
        | None => (inr tt, (did ++ [PatchMe username avatar])%list)
        end
    end.

Definition setUsername (fetchAuto : string -> Exn + string)
    (patch : option string -> option string -> option Exn) (username : string)
    : (Exn + unit) * list EditUserAction :=
  editUser fetchAuto patch (Some username) None.

Definition setAvatar (fetchAuto : string -> Exn + string)
    (patch : option string -> option string -> option Exn) (avatar : string)
    : (Exn + unit) * list EditUserAction :=
  editUser fetchAuto patch None (Some avatar).

(** *** A sample connection *)
Definition offline (tk : option string) (its : option (list Z)) : Connection :=
  {| token := tk; intents := its; rest_token := None; shard := None;
     shardCount := Auto; cachedShardCount := None |}.

End ClientCore.

(** ** The decorators of src/models/client.ts and
    src/models/commandClient.ts *)

Module Decorators.
Import Js.

(** What a property of the decorated object holds: a function, known by its
    identity, or something else. *)
Inductive PropertyValue :=
| Function (ref : N)
| NotFunction (v : JsVal).

(** An entry of [_decoratedSlash]. *)
Record SlashEntry := {
  se_name : string;
  se_guild : option string;
  se_parent : option string;
  se_group : option string;
  se_handler : N
}.

(** A command as the decorator handles it: its name (possibly undefined
    once options are assigned), what its [execute] property holds, its
    extension, and its other properties. *)
Record DecoratedCommand := {
  dc_name : option string;
  dc_execute : PropertyValue;
  dc_extension : option N;
  dc_options : gmap string JsVal
}.

(** The options of the [command] decorator: the name, the [execute]
    property and the extension, each when it is among them (possibly as
    undefined), and the properties under other names. *)
Record DecoratorOptions := {
  do_name : option (option string);
  do_execute : option PropertyValue;
  do_extension : option (option N);
  do_others : gmap string JsVal
}.

(** The decorated object: a client or an extension. *)
Record Target := {
  target_ref : N;
  isExtension : bool;
  properties : gmap string PropertyValue;
  _decoratedEvents : option (gmap string N);
  _decoratedSlash : option (list SlashEntry);
  _decoratedCommands : option (gmap string DecoratedCommand)
}.

Definition setEvents (v : option (gmap string N)) (t : Target) : Target :=
  {| target_ref := target_ref t; isExtension := isExtension t;
     properties := properties t; _decoratedEvents := v;
     _decoratedSlash := _decoratedSlash t; _decoratedCommands := _decoratedCommands t |}.

Definition setSlash (v : option (list SlashEntry)) (t : Target) : Target :=
  {| target_ref := target_ref t; isExtension := isExtension t;
     properties := properties t; _decoratedEvents := _decoratedEvents t;
     _decoratedSlash := v; _decoratedCommands := _decoratedCommands t |}.

Definition setCommands (v : option (gmap string DecoratedCommand)) (t : Target) : Target :=
  {| target_ref := target_ref t; isExtension := isExtension t;
     properties := properties t; _decoratedEvents := _decoratedEvents t;
     _decoratedSlash := _decoratedSlash t; _decoratedCommands := v |}.

(** [event(name)(client, prop)], client.ts lines 421-436 *)
Definition event (name : option string) (client : Target) (prop : string)
    : (Exn + unit) * Target :=
  match properties client !! prop with
  | Some (Function listener) =>
      let events := default ∅ (_decoratedEvents client) in
      let key := default prop name in
      (inr tt, setEvents (Some (<[key := listener]> events)) client)
  | _ => (inl (Error "@event decorator requires a function"), client)
  end.

(** The body shared by [slash], [subslash] and [groupslash]: the list is
    set up first, then the property is looked at. *)
Definition pushSlash (message : string) (entry : N -> SlashEntry)
    (client : Target) (prop : string) : (Exn + unit) * Target :=
  let entries := default [] (_decoratedSlash client) in
  match properties client !! prop with
  | Some (Function item) =>
      (inr tt, setSlash (Some (entries ++ [entry item])%list) client)
  | _ => (inl (Error message), setSlash (Some entries) client)
  end.

(** [slash(name, guild)(client, prop)], client.ts lines 439-452 *)
Definition slash (name guild : option string) (client : Target) (prop : string)
    : (Exn + unit) * Target :=
  pushSlash "@slash decorator requires a function"
            (fun item => {| se_name := default prop name; se_guild := guild;
                            se_parent := None; se_group := None; se_handler := item |})
            client prop.

(** [subslash(parent, name, guild)(client, prop)], client.ts lines 455-469 *)
Definition subslash (parent : string) (name guild : option string)
    (client : Target) (prop : string) : (Exn + unit) * Target :=
  pushSlash "@subslash decorator requires a function"
            (fun item => {| se_name := default prop name; se_guild := guild;
                            se_parent := Some parent; se_group := None;
                            se_handler := item |})
            client prop.

(** [groupslash(parent, group, name, guild)(client, prop)], client.ts lines
    472-492 *)
Definition groupslash (parent group : string) (name guild : option string)
    (client : Target) (prop : string) : (Exn + unit) * Target :=
  pushSlash "@groupslash decorator requires a function"
            (fun item => {| se_name := default prop name; se_guild := guild;
                            se_parent := Some parent; se_group := Some group;
                            se_handler := item |})
            client prop.

(** [target._decoratedCommands[command.name]]: an undefined name is the key
    "undefined". *)
Definition commandKey (c : DecoratedCommand) : string := default "undefined" (dc_name c).

(** [object[key] = value] on an object literal: under the key "__proto__"
    the assignment goes to the prototype and the object gets no entry. *)
Definition setEntry {A} (key : string) (v : A) (m : gmap string A) : gmap string A :=
  if String.eqb key "__proto__" then m else <[key := v]> m.

(** [command(options)(target, name)], commandClient.ts lines 376-398.
    [fresh] is what [new Command()] gives (models/command.ts). The name and
    the method are set first; [Object.assign(command, options)] then
    replaces whatever the options have, but for a property "__proto__" of
    theirs, which gives the command no entry; the extension is set last. *)
Definition command (fresh : DecoratedCommand) (options : option DecoratorOptions)
    (target : Target) (name : string) : (Exn + unit) * Target :=
  let commands := default ∅ (_decoratedCommands target) in
  match properties target !! name with
  | Some (Function prop) =>
      let decorated :=
        {| dc_name := match options with
                      | Some o => default (Some name) (do_name o)
                      | None => Some name
                      end;
           dc_execute := match options with
                         | Some o => default (Function prop) (do_execute o)
                         | None => Function prop
                         end;
           dc_extension :=
             if isExtension target then Some (target_ref target)
             else match options with
                  | Some o => default (dc_extension fresh) (do_extension o)
                  | None => dc_extension fresh
                  end;
           dc_options := match options with
                         | Some o => delete "__proto__" (do_others o) ∪ dc_options fresh
                         | None => dc_options fresh
                         end |} in
      (inr tt, setCommands (Some (setEntry (commandKey decorated) decorated commands)) target)
  | _ => (inl (Error "@command decorator can only be used on functions"),
          setCommands (Some commands) target)
  end.


(** [target._decoratedEvents?.[key]] and [target._decoratedCommands?.[key]] *)
Definition decoratedEvent (t : Target) (key : string) : option N :=
  match _decoratedEvents t with
  | Some m => m !! key
  | None => None
  end.


(** A sample object to decorate: a client with two methods and a string
    property. *)
Definition sampleTarget : Target :=
  {| target_ref := 1%N; isExtension := false;
     properties := {[ "ping" := Function 10%N; "pong" := Function 11%N;
                      "title" := NotFunction (VStr "bot") ]};
     _decoratedEvents := None; _decoratedSlash := None; _decoratedCommands := None |}.

End Decorators.

(** * Properties of the dispatcher *)

Module CommandClientFacts.
Import Js CommandClient.
Local Open Scope proc_scope.

(** ** The prefix resolver *)

Lemma head_insertBy {A} (cmp : A -> A -> Z) (x : A) (l : list A) :
  head (insertBy cmp x l)
  = Some (match head l with
          | Some y => if cmp x y <=? 0 then x else y
          | None => x
          end).
Proof.
  destruct l as [|y r]; simpl; [reflexivity|].
  destruct (cmp x y <=? 0); reflexivity.
Qed.

Lemma head_sortBy_none {A} (cmp : A -> A -> Z) (l : list A) :
  head (sortBy cmp l) = None -> l = [].
Proof.
  destruct l as [|x l]; [reflexivity|].
  simpl. rewrite head_insertBy. discriminate.
Qed.

Lemma head_sortBy_longest (l : list string) (p : string) :
  head (sortBy byLengthDesc l) = Some p ->
  In p l /\ forall q, In q l -> (String.length q <= String.length p)%nat.
Proof.
  revert p. induction l as [|x l IH]; intros p; simpl; [discriminate|].
  rewrite head_insertBy.
  destruct (head (sortBy byLengthDesc l)) as [y|] eqn:Hy.
  - destruct (IH y eq_refl) as [Hin Hmax].
    unfold byLengthDesc.
    destruct (Z.leb_spec (Z.of_nat (String.length y) - Z.of_nat (String.length x)) 0)
      as [Hle|Hgt]; intros [= <-].
    + split; [now left|].
      intros q [<-|Hq]; [lia|]. specialize (Hmax q Hq). lia.
    + split; [now right|].
      intros q [<-|Hq]; [lia|]. now apply Hmax.
  - apply head_sortBy_none in Hy. subst l.
    intros [= <-]. split; [now left|].
    intros q [<-|[]]. lia.
Qed.

(** Two prefixes of one text that have the same length are the same string. *)
Lemma prefix_same_length (a b s : string) :
  String.prefix a s = true -> String.prefix b s = true ->
  String.length a = String.length b -> a = b.
Proof.
  revert b s. induction a as [|x a IH]; intros [|y b] [|z s]; simpl;
    try discriminate; try reflexivity.
  destruct (ascii_dec x z) as [->|]; [|discriminate].
  destruct (ascii_dec y z) as [->|]; [|discriminate].
  intros Ha Hb [= Hlen]. f_equal. eapply IH; eassumption.
Qed.

Lemma usedPrefix_sound (cands : list string) (text p : string) :
  usedPrefix cands text = Some p ->
  In p cands /\ startsWith text p = true /\
  forall q, In q cands -> startsWith text q = true ->
            (String.length q <= String.length p)%nat.
Proof.
  unfold usedPrefix. intros H.
  apply head_sortBy_longest in H as [Hin Hmax].
  apply filter_In in Hin as [Hin Hp].
  repeat split; [assumption..|].
  intros q Hq Hs. apply Hmax. apply filter_In. now split.
Qed.

Lemma usedPrefix_complete (cands : list string) (text q : string) :
  In q cands -> startsWith text q = true ->
  exists p, usedPrefix cands text = Some p.
Proof.
  intros Hq Hs. unfold usedPrefix.
  destruct (head _) as [p|] eqn:H; [now exists p|].
  apply head_sortBy_none in H.
  assert (Hin : In q (List.filter (startsWith text) cands))
    by (apply filter_In; now split).
  rewrite H in Hin. destruct Hin.
Qed.

(** The longest match is unique, so the choice is a matter of the set of
    candidates and of the text only. *)
Lemma usedPrefix_unique (cands : list string) (text p q : string) :
  usedPrefix cands text = Some p ->
  In q cands -> startsWith text q = true ->
  (String.length p <= String.length q)%nat -> q = p.
Proof.
  intros H Hq Hs Hlen.
  apply usedPrefix_sound in H as (_ & Hp & Hmax).
  specialize (Hmax q Hq Hs).
  unfold startsWith in *.
  eapply prefix_same_length; [eassumption..|lia].
Qed.

Lemma usedPrefix_same_set (l1 l2 : list string) (text : string) :
  (forall x, In x l1 <-> In x l2) ->
  usedPrefix l1 text = usedPrefix l2 text.
Proof.
  intros Hset.
  destruct (usedPrefix l1 text) as [p1|] eqn:H1;
    destruct (usedPrefix l2 text) as [p2|] eqn:H2; try reflexivity.
  - f_equal.
    pose proof (usedPrefix_sound _ _ _ H1) as (Hi1 & Hs1 & Hm1).
    pose proof (usedPrefix_sound _ _ _ H2) as (Hi2 & Hs2 & Hm2).
    eapply (usedPrefix_unique l2); [eassumption|now apply Hset|assumption|].
    apply Hm1; [now apply Hset|assumption].
  - apply usedPrefix_sound in H1 as (Hi & Hs & _).
    apply Hset in Hi.
    destruct (usedPrefix_complete _ _ _ Hi Hs) as [p Hp]. congruence.
  - apply usedPrefix_sound in H2 as (Hi & Hs & _).
    apply Hset in Hi.
    destruct (usedPrefix_complete _ _ _ Hi Hs) as [p Hp]. congruence.
Qed.

(** [new Set] keeps every element once. *)
Lemma includes_In (l : list string) (x : string) :
  existsb (String.eqb x) l = true <-> In x l.
Proof.
  rewrite existsb_exists. split.
  - intros (y & Hy & Heq). apply String.eqb_eq in Heq. now subst.
  - intros H. exists x. split; [assumption|apply String.eqb_refl].
Qed.

Lemma fold_setAdd (l acc : list string) :
  List.NoDup acc ->
  List.NoDup (fold_left setAdd l acc) /\
  forall x, In x (fold_left setAdd l acc) <-> In x acc \/ In x l.
Proof.
  revert acc. induction l as [|y l IH]; intros acc Hnd; simpl.
  - split; [assumption|]. intros x. tauto.
  - assert (Hstep : List.NoDup (setAdd acc y) /\
                    forall x, In x (setAdd acc y) <-> In x acc \/ x = y).
    { unfold setAdd. destruct (existsb (String.eqb y) acc) eqn:Hy.
      - split; [assumption|]. apply includes_In in Hy.
        intros x. split; [tauto|]. intros [H| ->]; assumption.
      - split.
        + apply List.NoDup_app; [assumption|repeat constructor; intros []|].
          intros a Ha [<-|[]]. apply includes_In in Ha. congruence.
        + intros x. rewrite in_app_iff. simpl. intuition congruence. }
    destruct Hstep as [Hnd' Hin'].
    destruct (IH _ Hnd') as [Hn Hin]. split; [assumption|].
    intros x. rewrite Hin, Hin'. intuition congruence.
Qed.

Lemma newSet_spec (l : list string) :
  List.NoDup (newSet l) /\ forall x, In x (newSet l) <-> In x l.
Proof.
  destruct (fold_setAdd l [] (List.NoDup_nil _)) as [Hn Hin].
  split; [assumption|]. intros x. rewrite Hin. simpl. tauto.
Qed.

Lemma gatherPrefixes_spec (c : Client) (msg : Message) :
  exists t, gatherPrefixes c msg = (t, Next (newSet (prefixSources c msg))).
Proof.
  unfold gatherPrefixes, prefixSources.
  destruct (guild msg) as [g|]; simpl; eexists; reflexivity.
Qed.

(** ** The monad *)

Lemma bind_next {A B} (m : Proc A) (f : A -> Proc B) (t : list Action) (b : B) :
  bind m f = (t, Next b) ->
  exists t1 a t2, m = (t1, Next a) /\ f a = (t2, Next b) /\ t = (t1 ++ t2)%list.
Proof.
  destruct m as [t1 [a|v|e]]; simpl; try discriminate.
  destruct (f a) as [t2 r] eqn:Hf. intros [= <- ->].
  exists t1, a, t2. auto.
Qed.

Lemma bind_from_next {A B} (m : Proc A) (f : A -> Proc B) (t : list Action) (a : A) :
  m = (t, Next a) -> bind m f = ((t ++ fst (f a))%list, snd (f a)).
Proof. intros ->. simpl. destruct (f a); reflexivity. Qed.

Lemma bind_from_return {A B} (m : Proc A) (f : A -> Proc B) (t : list Action) v :
  m = (t, Return v) -> bind m f = (t, Return v).
Proof. intros ->. reflexivity. Qed.

Lemma bind_forallb {A B} (P : Action -> bool) (m : Proc A) (f : A -> Proc B) :
  forallb P (fst m) = true ->
  (forall a, forallb P (fst (f a)) = true) ->
  forallb P (fst (bind m f)) = true.
Proof.
  intros Hm Hf. destruct m as [t [a|v|e]]; simpl in *; try assumption.
  specialize (Hf a). destruct (f a) as [t' r]. simpl in *.
  rewrite forallb_app, Hm, Hf. reflexivity.
Qed.

Lemma events_app (t1 t2 : list Action) :
  events (t1 ++ t2) = (events t1 ++ events t2)%list.
Proof. apply flat_map_app. Qed.

Lemma hookCalls_app (t1 t2 : list Action) :
  hookCalls (t1 ++ t2) = (hookCalls t1 ++ hookCalls t2)%list.
Proof. apply List.filter_app. Qed.

Lemma queries_silent (t : list Action) :
  forallb isQuery t = true -> events t = [] /\ hookCalls t = [].
Proof.
  induction t as [|a t IH]; simpl; [auto|].
  intros H. apply andb_prop in H as [Ha Ht].
  destruct (IH Ht) as [He Hh]. unfold hookCalls in *. simpl.
  destruct a; simpl in *; try discriminate; auto.
Qed.

Lemma ret_next {A} (a b : A) (t : list Action) : ret a = (t, Next b) -> t = [] /\ a = b.
Proof. unfold ret. intros [= <- <-]. auto. Qed.

Lemma bind_ret_unit {A} (k : unit -> Proc A) : bind (ret tt) k = k tt.
Proof. unfold ret, bind. destruct (k tt). reflexivity. Qed.

Lemma when_return_next {A} (b : bool) (k : unit -> Proc A) (t : list Action) (x : A) :
  bind (when b return_) k = (t, Next x) -> b = false /\ k tt = (t, Next x).
Proof.
  destruct b; [discriminate|].
  unfold when. rewrite bind_ret_unit. auto.
Qed.

Lemma when_emit_next {A} (b : bool) (ev : Event) (k : unit -> Proc A)
    (t : list Action) (x : A) :
  bind (when b (returnEmit ev)) k = (t, Next x) -> b = false /\ k tt = (t, Next x).
Proof.
  destruct b; [discriminate|].
  unfold when. rewrite bind_ret_unit. auto.
Qed.

Lemma when_emit_last (b : bool) (ev : Event) (t : list Action) (u : unit) :
  when b (returnEmit ev) = (t, Next u) -> b = false /\ t = [].
Proof. destruct b; simpl; [discriminate|]. intros [= <-]. auto. Qed.

(** ** What each check has done when the body goes on after it *)

Lemma checkBlacklists_next (c : Client) (msg : Message) (t : list Action) (u : unit) :
  checkBlacklists c msg = (t, Next u) -> forallb isQuery t = true.
Proof.
  unfold checkBlacklists, when, ask, return_, ret. intros H.
  destruct (negb (allowBots c) && _); simpl in H; [discriminate|].
  destruct (isUserBlacklisted c _); simpl in H; [discriminate|].
  destruct (isChannelBlacklisted c _); simpl in H; [discriminate|].
  destruct (guild msg) as [g|]; simpl in H.
  - destruct (isGuildBlacklisted c _); simpl in H; [discriminate|].
    injection H as <- _. reflexivity.
  - injection H as <- _. reflexivity.
Qed.

Lemma resolvePrefix_next (c : Client) (msg : Message) (t : list Action) (p : string) :
  resolvePrefix c msg = (t, Next p) -> forallb isQuery t = true.
Proof.
  unfold resolvePrefix. intros H.
  destruct (gatherPrefixes_spec c msg) as [t0 Hg].
  assert (Ht0 : forallb isQuery t0 = true).
  { revert Hg. unfold gatherPrefixes, ask, ret.
    destruct (guild msg); simpl; intros [= <-]; reflexivity. }
  rewrite (bind_from_next _ _ _ _ Hg) in H.
  injection H as <- _. rewrite forallb_app, Ht0. simpl.
  unfold return_, ret, bind.
  destruct (usedPrefix _ _); [reflexivity|].
  destruct (mentionPrefix c); [|reflexivity].
  destruct (startsWith _ _); [destruct (mention <$> user c); reflexivity|].
  destruct (startsWith _ _); [destruct (nickMention <$> user c); reflexivity|].
  reflexivity.
Qed.

Lemma resolveCommand_next (c : Client) (msg : Message) (pfx : string)
    (t : list Action) (inv : Invocation) :
  resolveCommand c msg pfx = (t, Next inv) ->
  t = [] /\ ctx_message (inv_ctx inv) = msg /\ ctx_guild (inv_ctx inv) = guild msg.
Proof.
  unfold resolveCommand. intros H.
  destruct (parseCommand c msg pfx) as [parsed|]; [|discriminate].
  destruct (commands_fetch c parsed) as [command|]; [|discriminate].
  simpl in H.
  do 6 (apply when_return_next in H as [_ H]).
  apply ret_next in H as [-> <-]. auto.
Qed.

Lemma checkScope_next (c : Client) (msg : Message) (inv : Invocation)
    (t : list Action) (u : unit) :
  checkScope c msg inv = (t, Next u) -> t = [].
Proof.
  unfold checkScope. intros H. simpl in H.
  do 2 (apply when_emit_next in H as [_ H]).
  now apply when_emit_last in H as [_ ->].
Qed.

Lemma checkNSFW_next (msg : Message) (inv : Invocation) (t : list Action) (u : unit) :
  checkNSFW msg inv = (t, Next u) -> t = [].
Proof. unfold checkNSFW. intros H. now apply when_emit_last in H as [_ ->]. Qed.

Lemma checkBotPermissions_next (msg : Message) (inv : Invocation)
    (t : list Action) (u : unit) :
  checkBotPermissions msg inv = (t, Next u) -> forallb isQuery t = true.
Proof.
  unfold checkBotPermissions. intros H.
  destruct (_ && _); [|injection H as <-; reflexivity].
  destruct (guild msg) as [g|]; [|injection H as <-; reflexivity].
  unfold ask, bind in H.
  destruct (match botPermissions _ with Some _ => _ | None => _ end) as [perms|];
    [|injection H as <-; reflexivity].
  unfold when, returnEmit, ret in H.
  destruct (negb _); [discriminate|].
  injection H as <-. reflexivity.
Qed.

Lemma checkUserPermissions_next (msg : Message) (inv : Invocation)
    (t : list Action) (u : unit) :
  checkUserPermissions msg inv = (t, Next u) -> t = [].
Proof.
  unfold checkUserPermissions. intros H.
  destruct (_ && _); [|injection H as <-; reflexivity].
  destruct (match userPermissions _ with Some _ => _ | None => _ end) as [perms|];
    [|injection H as <-; reflexivity].
  now apply when_emit_last in H as [_ ->].
Qed.

Lemma checkArgs_next (inv : Invocation) (t : list Action) (u : unit) :
  checkArgs inv = (t, Next u) ->
  t = [] \/ t = [Emit (commandMissingArgs (inv_ctx inv))].
Proof.
  unfold checkArgs. intros H.
  destruct (args (inv_command inv)) as [[b|n]|].
  - apply when_emit_last in H as [_ ->]. auto.
  - unfold when, emit, ret in H. destruct (_ <? _); injection H as <-; auto.
  - injection H as <-. auto.
Qed.

Ltac open_bind H :=
  let t1 := fresh "t" in
  let a := fresh "x" in
  let t2 := fresh "t" in
  let H1 := fresh "Hm" in
  let H2 := fresh "Hk" in
  apply bind_next in H as (t1 & a & t2 & H1 & H2 & ->).

Lemma uptoNSFW_next (c : Client) (msg : Message) (t : list Action) (inv : Invocation) :
  uptoNSFW c msg = (t, Next inv) ->
  forallb isQuery t = true /\ ctx_message (inv_ctx inv) = msg.
Proof.
  unfold uptoNSFW. intros H.
  open_bind H. open_bind Hk. open_bind Hk0. open_bind Hk.
  apply ret_next in Hk0 as [-> ->].
  apply checkBlacklists_next in Hm.
  apply resolvePrefix_next in Hm0.
  apply resolveCommand_next in Hm1 as (-> & Hg & _).
  apply checkScope_next in Hm2 as ->.
  rewrite !forallb_app, Hm, Hm0. auto.
Qed.

Lemma uptoBotPermissions_next (c : Client) (msg : Message) (t : list Action)
    (inv : Invocation) :
  uptoBotPermissions c msg = (t, Next inv) ->
  forallb isQuery t = true /\ ctx_message (inv_ctx inv) = msg.
Proof.
  unfold uptoBotPermissions. intros H.
  open_bind H. open_bind Hk. apply ret_next in Hk0 as [-> ->].
  apply uptoNSFW_next in Hm as [Hm Hc]. apply checkNSFW_next in Hm0 as ->.
  rewrite !forallb_app, Hm. auto.
Qed.

Lemma uptoUserPermissions_next (c : Client) (msg : Message) (t : list Action)
    (inv : Invocation) :
  uptoUserPermissions c msg = (t, Next inv) ->
  forallb isQuery t = true /\ ctx_message (inv_ctx inv) = msg.
Proof.
  unfold uptoUserPermissions. intros H.
  open_bind H. open_bind Hk. apply ret_next in Hk0 as [-> ->].
  apply uptoBotPermissions_next in Hm as [Hm Hc].
  apply checkBotPermissions_next in Hm0.
  rewrite !forallb_app, Hm, Hm0. auto.
Qed.

Lemma uptoArgs_next (c : Client) (msg : Message) (t : list Action) (inv : Invocation) :
  uptoArgs c msg = (t, Next inv) ->
  forallb isQuery t = true /\ ctx_message (inv_ctx inv) = msg.
Proof.
  unfold uptoArgs. intros H.
  open_bind H. open_bind Hk. apply ret_next in Hk0 as [-> ->].
  apply uptoUserPermissions_next in Hm as [Hm Hc].
  apply checkUserPermissions_next in Hm0 as ->.
  rewrite !forallb_app, Hm. auto.
Qed.

(** Before the hooks run nothing has been emitted, but for the notice of
    missing arguments, and no hook has been called. *)
Lemma uptoHooks_next (c : Client) (msg : Message) (t : list Action) (inv : Invocation) :
  uptoHooks c msg = (t, Next inv) ->
  (events t = [] \/ events t = [commandMissingArgs (inv_ctx inv)]) /\
  hookCalls t = [] /\ ctx_message (inv_ctx inv) = msg.
Proof.
  unfold uptoHooks. intros H.
  open_bind H. open_bind Hk. apply ret_next in Hk0 as [-> ->].
  apply uptoArgs_next in Hm as [Hm Hc].
  apply queries_silent in Hm as [He Hh].
  rewrite !events_app, !hookCalls_app, He, Hh. simpl.
  apply checkArgs_next in Hm0 as [-> | ->]; simpl; auto.
Qed.

(** ** The claims on the dispatcher *)

Lemma spread_In (acc : list string) (p : OneOrMany) (x : string) :
  In x (spread acc p)
  <-> In x acc \/ match p with One s => x = s | Many l => In x l end.
Proof.
  destruct p as [s|l]; simpl; rewrite in_app_iff; simpl; [|tauto].
  split; [intros [H|[H|[]]]; auto|intros [H|H]; auto].
Qed.

Lemma spreadOpt_In (acc : list string) (p : option OneOrMany) (x : string) :
  In x (spreadOpt acc p)
  <-> In x acc \/
      exists p', p = Some p' /\ match p' with One s => x = s | Many l => In x l end.
Proof.
  destruct p as [p|]; simpl.
  - rewrite spread_In. split; intros [H|H]; auto.
    + right. exists p. auto.
    + destruct H as (p' & [= <-] & H). auto.
  - split; [auto|]. intros [H|(p' & H & _)]; [assumption|discriminate H].
Qed.

(** C6. The candidates are the global prefixes, the prefixes that the
    user-prefix provider gives for the author and, in a guild, those that
    the guild-prefix provider gives for the guild, each once; the two
    providers are asked in that order and nothing else is done. If the text
    starts with some candidate then the resolver selects a candidate that
    the text starts with and that no matching candidate exceeds in length.
    That choice is the only matching candidate of its length, so it is the
    same for every run and for every ordering of the same candidate set.
    With the prefixes "!" and "!!" and the text "!!ping" the choice is
    "!!". *)
Theorem prefix_resolver_selects_longest_match (c : Client) (msg : Message) (q : string) :
  let among (p : OneOrMany) (x : string) : Prop :=
    match p with
    | One s => x = s
    | Many l => In x l
    end in
  let candidate (x : string) : Prop :=
    among (prefix c) x \/
    (exists p, getUserPrefix c (user_id (author msg)) = Some p /\ among p x) \/
    (exists g p, guild msg = Some g /\ getGuildPrefix c (guild_id g) = Some p /\
                 among p x) in
  candidate q -> startsWith (content msg) q = true ->
  exists t cands p,
    gatherPrefixes c msg = (t, Next cands) /\
    t = AskUserPrefix (user_id (author msg))
        :: match guild msg with
           | Some g => [AskGuildPrefix (guild_id g)]
           | None => []
           end /\
    resolvePrefix c msg = (t, Next p) /\
    usedPrefix cands (content msg) = Some p /\
    (List.NoDup cands /\ forall x, In x cands <-> candidate x) /\
    candidate p /\ startsWith (content msg) p = true /\
    (forall q', candidate q' -> startsWith (content msg) q' = true ->
       (String.length q' <= String.length p)%nat /\
       (String.length q' = String.length p -> q' = p)) /\
    (forall cands', (forall x, In x cands' <-> candidate x) ->
       usedPrefix cands' (content msg) = Some p) /\
    usedPrefix ["!"; "!!"] "!!ping" = Some "!!" /\
    usedPrefix ["!!"; "!"] "!!ping" = Some "!!".
Proof.
  intros among candidate Hq Hs.
  assert (Hcand : forall x, In x (newSet (prefixSources c msg)) <-> candidate x).
  { intros x. rewrite (proj2 (newSet_spec _)).
    unfold prefixSources. rewrite !spreadOpt_In, spread_In.
    unfold candidate, among. simpl. split.
    - intros [[[[]|H]|H]|(p & Hp & H)]; auto.
      right. right. destruct (guild msg) as [g|]; [|discriminate Hp].
      exists g, p. auto.
    - intros [H|[H|(g & p & Hg & Hp & H)]]; auto.
      right. exists p. rewrite Hg. auto. }
  apply Hcand in Hq.
  destruct (usedPrefix_complete _ _ _ Hq Hs) as [p Hp].
  pose proof (usedPrefix_sound _ _ _ Hp) as (Hin & Hpre & Hmax).
  assert (Hg : gatherPrefixes c msg
               = (AskUserPrefix (user_id (author msg))
                  :: match guild msg with
                     | Some g => [AskGuildPrefix (guild_id g)]
                     | None => []
                     end,
                  Next (newSet (prefixSources c msg)))).
  { unfold gatherPrefixes, prefixSources, ask. destruct (guild msg); reflexivity. }
  eexists _, (newSet (prefixSources c msg)), p.
  split; [exact Hg|].
  split; [reflexivity|].
  split.
  { unfold resolvePrefix. rewrite (bind_from_next _ _ _ _ Hg).
    rewrite Hp. simpl. rewrite app_nil_r. reflexivity. }
  split; [exact Hp|].
  split; [split; [apply newSet_spec|exact Hcand]|].
  split; [now apply Hcand|].
  split; [exact Hpre|].
  split.
  { intros q' Hq' Hs'. apply Hcand in Hq'. split.
    - now apply Hmax.
    - intros Hlen. eapply usedPrefix_unique; [eassumption..|lia]. }
  split.
  { intros cands' Hsame. rewrite <- Hp. apply usedPrefix_same_set.
    intros x. rewrite Hsame. symmetry. apply Hcand. }
  split; reflexivity.
Qed.

Lemma prefix_resolver_selects_longest_match_witness :
  exists t p,
    resolvePrefix (sampleClient (plainHooks (sampleOptions None None None None None)) None)
                  (sampleMessage "!!ping" "42" None) = (t, Next p) /\ p = "!!".
Proof.
  destruct (prefix_resolver_selects_longest_match
              (sampleClient (plainHooks (sampleOptions None None None None None)) None)
              (sampleMessage "!!ping" "42" None) "!")
    as (t & cands & p & Hg & _ & Hr & Hu & _).
  - left. simpl. auto.
  - reflexivity.
  - exists t, p. split; [exact Hr|].
    vm_compute in Hg. injection Hg as _ <-.
    vm_compute in Hu. now injection Hu as <-.
Defined.

(** C7. A message whose author or channel is blacklisted, or whose guild
    is when it has one, ends [processMessage] with no event emitted and no
    hook called: all it has done is ask the blacklist predicates, user first,
    then channel, then guild, up to the one that said yes. *)
Theorem blacklisted_message_is_dropped_silently (c : Client) (msg : Message) :
  (isUserBlacklisted c (user_id (author msg)) = true \/
   isChannelBlacklisted c (channel_id (channel msg)) = true \/
   exists g, guild msg = Some g /\ isGuildBlacklisted c (guild_id g) = true) ->
  exists t rest,
    processMessage c msg = (t, Return None) /\
    events t = [] /\ hookCalls t = [] /\
    forallb isBlacklistQuery t = true /\
    (t ++ rest)%list
    = AskUserBlacklisted (user_id (author msg))
      :: AskChannelBlacklisted (channel_id (channel msg))
      :: match guild msg with
         | Some g => [AskGuildBlacklisted (guild_id g)]
         | None => []
         end.
Proof.
  intros H.
  assert (Hb : exists t rest,
             checkBlacklists c msg = (t, Return None) /\
             events t = [] /\ hookCalls t = [] /\
             forallb isBlacklistQuery t = true /\
             (t ++ rest)%list
             = AskUserBlacklisted (user_id (author msg))
               :: AskChannelBlacklisted (channel_id (channel msg))
               :: match guild msg with
                  | Some g => [AskGuildBlacklisted (guild_id g)]
                  | None => []
                  end).
  { unfold checkBlacklists, when, ask, return_, ret.
    destruct (negb (allowBots c) && _); simpl.
    { eexists [], _. repeat split. }
    destruct (isUserBlacklisted c _); simpl.
    { eexists [_], _. repeat split. }
    destruct (isChannelBlacklisted c _); simpl.
    { eexists [_; _], _. repeat split. }
    destruct H as [H|[H|(g & Hg & H)]]; try discriminate.
    rewrite Hg. simpl. rewrite H. simpl.
    eexists [_; _; _], []. repeat split. }
  destruct Hb as (t & rest & Hc & Hrest).
  exists t, rest. split; [|exact Hrest].
  unfold processMessage, uptoHooks, uptoArgs, uptoUserPermissions,
    uptoBotPermissions, uptoNSFW.
  rewrite Hc. reflexivity.
Qed.

Lemma blacklisted_message_is_dropped_silently_witness :
  exists t,
    processMessage (sampleClient (plainHooks (sampleOptions None None None None None)) None)
                   (sampleMessage "!ban" "666" None) = (t, Return None) /\
    events t = [].
Proof.
  destruct (blacklisted_message_is_dropped_silently
              (sampleClient (plainHooks (sampleOptions None None None None None)) None)
              (sampleMessage "!ban" "666" None))
    as (t & rest & Hp & He & _).
  - left. reflexivity.
  - exists t. split; [exact Hp|exact He].
Defined.

Lemma runHooks_raises (inv : Invocation) (e : Exn) :
  (raises (beforeExecute (inv_command inv) (inv_ctx inv)) e \/
   exists v, beforeExecute (inv_command inv) (inv_ctx inv) = Returns v /\
             isFalse v = false /\
             raises (execute (inv_command inv) (inv_ctx inv)) e) ->
  exists mid,
    runHooks inv
    = (Emit (commandUsed (inv_ctx inv)) :: mid ++ [Emit (commandError (inv_ctx inv) e)],
       Next tt) /\
    (mid = [RunBefore (inv_ctx inv)] \/
     mid = [RunBefore (inv_ctx inv); RunExecute (inv_ctx inv)]).
Proof.
  unfold runHooks, raises.
  intros [[H|H]|(v & Hv & Hf & [H|H])];
    try (rewrite H; eexists [_]; split; [reflexivity|auto]);
    rewrite Hv; simpl; rewrite Hf; simpl; rewrite H;
    (eexists [_; _]; split; [reflexivity|auto]).
Qed.

(** C2. When the before-hook or the execute-hook of an invocation ends in
    an exception (thrown, or through a rejected promise), [processMessage]
    still returns normally; the events it has emitted hold exactly one
    [commandError], which carries the context of the invocation and that
    exception; and the hooks called are the before-hook alone or the
    before-hook and the execute-hook, never the after-hook. *)
Theorem hook_exception_is_contained (c : Client) (msg : Message)
    (t : list Action) (inv : Invocation) (e : Exn) :
  uptoHooks c msg = (t, Next inv) ->
  (raises (beforeExecute (inv_command inv) (inv_ctx inv)) e \/
   exists v, beforeExecute (inv_command inv) (inv_ctx inv) = Returns v /\
             isFalse v = false /\
             raises (execute (inv_command inv) (inv_ctx inv)) e) ->
  exists t',
    processMessage c msg = (t', Next tt) /\
    List.filter isError (events t') = [commandError (inv_ctx inv) e] /\
    ctx_message (inv_ctx inv) = msg /\
    (hookCalls t' = [RunBefore (inv_ctx inv)] \/
     hookCalls t' = [RunBefore (inv_ctx inv); RunExecute (inv_ctx inv)]) /\
    forallb (fun a => negb (isAfter a)) t' = true /\
    exists mid, t' = (t ++ Emit (commandUsed (inv_ctx inv)) :: mid
                        ++ [Emit (commandError (inv_ctx inv) e)])%list.
Proof.
  intros Hup Hraise.
  destruct (runHooks_raises inv e Hraise) as (mid & Hrun & Hmid).
  destruct (uptoHooks_next _ _ _ _ Hup) as (Hev & Hhooks & Hctx).
  eexists. split.
  { unfold processMessage. rewrite (bind_from_next _ _ _ _ Hup), Hrun. reflexivity. }
  simpl.
  assert (Hquiet : forallb (fun a => negb (isAfter a)) t = true).
  { clear - Hhooks. induction t as [|a t IH]; [reflexivity|].
    unfold hookCalls in Hhooks. simpl in *.
    destruct a; simpl in *; try discriminate; auto. }
  rewrite events_app, hookCalls_app, Hhooks, List.filter_app, forallb_app, Hquiet.
  repeat split.
  - destruct Hev as [-> | ->], Hmid as [-> | ->]; reflexivity.
  - assumption.
  - destruct Hmid as [-> | ->]; auto.
  - destruct Hmid as [-> | ->]; reflexivity.
  - exists mid. reflexivity.
Qed.

Lemma hook_exception_is_contained_witness :
  exists t',
    processMessage (sampleClient failingCommand None) (sampleMessage "!ban" "42" None)
    = (t', Next tt) /\
    length (List.filter isError (events t')) = 1%nat.
Proof.
  edestruct (hook_exception_is_contained
               (sampleClient failingCommand None) (sampleMessage "!ban" "42" None))
    as (t' & Hp & He & _).
  - reflexivity.
  - right. exists VUndefined. repeat split. left. reflexivity.
  - exists t'. split; [exact Hp|]. rewrite He. reflexivity.
Defined.

(** ** The checks after the scope flags *)

Lemma queries_emit_none (p : Event -> bool) (t : list Action) :
  forallb isQuery t = true -> emitsNone p t = true.
Proof.
  unfold emitsNone. induction t as [|a t IH]; simpl; [reflexivity|].
  intros H. apply andb_prop in H as [Ha Ht]. rewrite (IH Ht).
  destruct a; simpl in *; try discriminate; reflexivity.
Qed.

Lemma emitsNone_not_in (p : Event -> bool) (t : list Action) (ev : Event) :
  emitsNone p t = true -> p ev = true -> ~ In (Emit ev) t.
Proof.
  unfold emitsNone. intros H Hp Hin.
  rewrite forallb_forall in H. specialize (H _ Hin). simpl in H.
  rewrite Hp in H. discriminate.
Qed.

Lemma checkBotPermissions_no_nsfw (msg : Message) (inv : Invocation) :
  emitsNone isNSFW (fst (checkBotPermissions msg inv)) = true.
Proof.
  unfold checkBotPermissions.
  destruct (_ && _); [|reflexivity].
  destruct (guild msg) as [g|]; [|reflexivity].
  unfold ask, bind.
  destruct (match botPermissions _ with Some _ => _ | None => _ end); [|reflexivity].
  unfold when, returnEmit, ret. destruct (negb _); reflexivity.
Qed.

Lemma checkUserPermissions_no_nsfw (msg : Message) (inv : Invocation) :
  emitsNone isNSFW (fst (checkUserPermissions msg inv)) = true.
Proof.
  unfold checkUserPermissions.
  destruct (_ && _); [|reflexivity].
  destruct (match userPermissions _ with Some _ => _ | None => _ end); [|reflexivity].
  unfold when, returnEmit, ret. destruct (negb _); reflexivity.
Qed.

Lemma checkArgs_no_nsfw (inv : Invocation) :
  emitsNone isNSFW (fst (checkArgs inv)) = true.
Proof.
  unfold checkArgs, when, returnEmit, emit, ret.
  destruct (args _) as [[b|n]|]; [destruct (Nat.eqb _ _)|destruct (_ <? _)|];
    reflexivity.
Qed.

Lemma runHooks_no_nsfw (inv : Invocation) :
  emitsNone isNSFW (fst (runHooks inv)) = true.
Proof.
  unfold runHooks.
  destruct (beforeExecute _ _) as [v|e|e]; simpl; try reflexivity.
  destruct (isFalse v); simpl; [reflexivity|].
  destruct (execute _ _) as [w|e|e]; simpl; try reflexivity.
  destruct (afterExecute _ _ _); reflexivity.
Qed.

(** The hooks start with the "command used" notice and the before-hook. *)
Lemma runHooks_starts (inv : Invocation) :
  exists rest r,
    runHooks inv
    = (Emit (commandUsed (inv_ctx inv)) :: RunBefore (inv_ctx inv) :: rest, r).
Proof.
  unfold runHooks.
  destruct (beforeExecute _ _) as [v|e|e]; simpl; try (eexists _, _; reflexivity).
  destruct (isFalse v); simpl; [eexists _, _; reflexivity|].
  destruct (execute _ _) as [w|e|e]; simpl; try (eexists _, _; reflexivity).
  destruct (afterExecute _ _ _); eexists _, _; reflexivity.
Qed.

Lemma nsfw_blocked_iff (msg : Message) (inv : Invocation) :
  isTrue (nsfw (inv_command inv))
  && (negb (isSome (guild msg)) || negb (isTrue (channel_nsfw (channel msg)))) = true
  <-> nsfw (inv_command inv) = Some true /\
      (guild msg = None \/ channel_nsfw (channel msg) <> Some true).
Proof.
  unfold isTrue.
  rewrite andb_true_iff, orb_true_iff, !negb_true_iff.
  rewrite bool_decide_eq_true, bool_decide_eq_false.
  destruct (guild msg); simpl; intuition congruence.
Qed.

(** After the NSFW check, no [commandNSFW] is emitted any more. *)
Lemma after_nsfw_check (c : Client) (msg : Message) (t : list Action) (inv : Invocation) :
  uptoBotPermissions c msg = (t, Next inv) ->
  emitsNone isNSFW (fst (processMessage c msg)) = true.
Proof.
  intros H. unfold processMessage, uptoHooks, uptoArgs, uptoUserPermissions.
  unfold emitsNone.
  apply bind_forallb; [|intros; apply runHooks_no_nsfw].
  apply bind_forallb;
    [|intros; apply bind_forallb; [apply checkArgs_no_nsfw|reflexivity]].
  apply bind_forallb;
    [|intros; apply bind_forallb; [apply checkUserPermissions_no_nsfw|reflexivity]].
  apply bind_forallb;
    [|intros; apply bind_forallb; [apply checkBotPermissions_no_nsfw|reflexivity]].
  rewrite H. simpl. apply queries_emit_none.
  now apply uptoBotPermissions_next in H as [H _].
Qed.

(** C4, as the code has it. For an invocation that has passed the scope
    flags: if the command's own [nsfw] is true and the message is outside a
    guild or in a channel not marked nsfw, then [commandNSFW] is emitted
    with the context, nothing else is, no hook runs and the body returns;
    otherwise the body goes on to the permission checks and never emits
    [commandNSFW]. The category is not looked at. *)
Theorem nsfw_check_needs_guild_channel_marked_nsfw (c : Client) (msg : Message)
    (t : list Action) (inv : Invocation) :
  uptoNSFW c msg = (t, Next inv) ->
  (nsfw (inv_command inv) = Some true /\
   (guild msg = None \/ channel_nsfw (channel msg) <> Some true) ->
   processMessage c msg
   = ((t ++ [Emit (commandNSFW (inv_ctx inv))])%list,
      Return (Some (commandNSFW (inv_ctx inv)))) /\
   events (t ++ [Emit (commandNSFW (inv_ctx inv))]) = [commandNSFW (inv_ctx inv)] /\
   hookCalls (t ++ [Emit (commandNSFW (inv_ctx inv))]) = []) /\
  (~ (nsfw (inv_command inv) = Some true /\
      (guild msg = None \/ channel_nsfw (channel msg) <> Some true)) ->
   uptoBotPermissions c msg = (t, Next inv) /\
   forall ctx, ~ In (Emit (commandNSFW ctx)) (fst (processMessage c msg))).
Proof.
  intros Hup.
  destruct (uptoNSFW_next _ _ _ _ Hup) as [Hq _].
  apply queries_silent in Hq as [He Hh].
  split; intros Hcond.
  - apply (nsfw_blocked_iff msg inv) in Hcond.
    assert (Hbot : uptoBotPermissions c msg
                   = ((t ++ [Emit (commandNSFW (inv_ctx inv))])%list,
                      Return (Some (commandNSFW (inv_ctx inv))))).
    { unfold uptoBotPermissions. rewrite (bind_from_next _ _ _ _ Hup).
      unfold checkNSFW. rewrite Hcond. reflexivity. }
    repeat split.
    + unfold processMessage, uptoHooks, uptoArgs, uptoUserPermissions.
      rewrite Hbot. reflexivity.
    + rewrite events_app, He. reflexivity.
    + rewrite hookCalls_app, Hh. reflexivity.
  - assert (Hbot : uptoBotPermissions c msg = (t, Next inv)).
    { unfold uptoBotPermissions. rewrite (bind_from_next _ _ _ _ Hup).
      unfold checkNSFW.
      destruct (isTrue _ && _) eqn:Hb;
        [apply (nsfw_blocked_iff msg inv) in Hb; contradiction|].
      simpl. rewrite app_nil_r. reflexivity. }
    split; [assumption|].
    intros ctx.
    apply (emitsNone_not_in isNSFW); [|reflexivity].
    eapply after_nsfw_check; eassumption.
Qed.

Lemma nsfw_check_needs_guild_channel_marked_nsfw_witness :
  exists t ev,
    processMessage (sampleClient (plainHooks (sampleOptions None (Some true) None None None)) None)
                   (sampleMessage "!ban" "42" None)
    = (t, Return (Some ev)) /\ isNSFW ev = true.
Proof.
  edestruct (nsfw_check_needs_guild_channel_marked_nsfw
               (sampleClient (plainHooks (sampleOptions None (Some true) None None None)) None)
               (sampleMessage "!ban" "42" None))
    as [Hblocked _].
  - reflexivity.
  - destruct Hblocked as (Hp & _).
    + split; [reflexivity|left; reflexivity].
    + eexists _, _. split; [exact Hp|reflexivity].
Defined.

(** C4 as stated fails: a command whose nsfw flag is true, used in a direct
    message, is dropped with [commandNSFW], though no guild is there. *)
Lemma nsfw_command_in_dm_is_dropped :
  let c := sampleClient (plainHooks (sampleOptions None (Some true) None None None)) None in
  let msg := sampleMessage "!ban" "42" None in
  guild msg = None /\
  ~ (existsb isNSFW (events (fst (processMessage c msg))) = true
     <-> exists g, guild msg = Some g /\ channel_nsfw (channel msg) <> Some true).
Proof.
  split; [reflexivity|].
  intros [Hdrop _].
  destruct (Hdrop eq_refl) as (g & Hg & _). discriminate Hg.
Qed.

(** C5, as the code has it. For an invocation that has passed the
    permission checks: under a boolean requirement with no parsed argument,
    [commandMissingArgs] is emitted and the body returns, no hook being
    called; under a numeric minimum that the parsed arguments do not reach,
    [commandMissingArgs] is emitted and the body goes on with the "command
    used" notice and the before-hook. *)
Theorem missing_args_stops_for_flag_goes_on_for_count (c : Client) (msg : Message)
    (t : list Action) (inv : Invocation) :
  uptoArgs c msg = (t, Next inv) ->
  (forall b, args (inv_command inv) = Some (ArgsFlag b) ->
             parsed_args (inv_parsed inv) = [] ->
     processMessage c msg
     = ((t ++ [Emit (commandMissingArgs (inv_ctx inv))])%list,
        Return (Some (commandMissingArgs (inv_ctx inv)))) /\
     hookCalls (t ++ [Emit (commandMissingArgs (inv_ctx inv))]) = []) /\
  (forall n, args (inv_command inv) = Some (ArgsCount n) ->
             Z.of_nat (length (parsed_args (inv_parsed inv))) < n ->
     exists rest r,
       processMessage c msg
       = ((t ++ Emit (commandMissingArgs (inv_ctx inv))
             :: Emit (commandUsed (inv_ctx inv))
             :: RunBefore (inv_ctx inv) :: rest)%list, r)).
Proof.
  intros Hup.
  destruct (uptoArgs_next _ _ _ _ Hup) as [Hq _].
  apply queries_silent in Hq as [_ Hh].
  split.
  - intros b Hargs Hnone. split.
    + unfold processMessage, uptoHooks. rewrite (bind_from_next _ _ _ _ Hup).
      unfold checkArgs. rewrite Hargs, Hnone. reflexivity.
    + rewrite hookCalls_app, Hh. reflexivity.
  - intros n Hargs Hlt.
    destruct (runHooks_starts inv) as (rest & r & Hrun).
    exists rest, r.
    unfold processMessage, uptoHooks. rewrite (bind_from_next _ _ _ _ Hup).
    unfold checkArgs. rewrite Hargs.
    apply Z.ltb_lt in Hlt. rewrite Hlt. simpl.
    rewrite Hrun. simpl. rewrite <- app_assoc. reflexivity.
Qed.

Lemma missing_args_stops_for_flag_goes_on_for_count_witness :
  exists t ev,
    processMessage
      (sampleClient (plainHooks (sampleOptions None None None None (Some (ArgsFlag true)))) None)
      (sampleMessage "!ban" "42" None)
    = (t, Return (Some ev)) /\ isMissingArgs ev = true.
Proof.
  edestruct (missing_args_stops_for_flag_goes_on_for_count
               (sampleClient
                  (plainHooks (sampleOptions None None None None (Some (ArgsFlag true)))) None)
               (sampleMessage "!ban" "42" None))
    as [Hflag _].
  - reflexivity.
  - destruct (Hflag true eq_refl eq_refl) as [Hp _].
    eexists _, _. split; [exact Hp|reflexivity].
Defined.

(** C5 as stated fails: under a boolean requirement with no argument the
    notice is emitted but no hook is reached. *)
Lemma missing_args_flag_is_fatal :
  let c := sampleClient
             (plainHooks (sampleOptions None None None None (Some (ArgsFlag true)))) None in
  let msg := sampleMessage "!ban" "42" None in
  ~ (existsb isMissingArgs (events (fst (processMessage c msg))) = true /\
     existsb isHook (fst (processMessage c msg)) = true).
Proof. intros c msg [_ H]. vm_compute in H. discriminate H. Qed.

(** C3, evaluated where the code departs from it. First, a command without
    bot permissions of its own, in a category that requires "BAN_MEMBERS" of
    the bot, used in a guild where the bot holds no permission: no
    [commandBotMissingPermissions] is emitted and the three hooks run.
    Second, a command that requires "BAN_MEMBERS" of the bot and
    "KICK_MEMBERS" of everyone, in a guild where the bot holds "BAN_MEMBERS"
    only: the missing list is made of the letters of "BAN_MEMBERS" and does
    not hold "KICK_MEMBERS". *)
Theorem bot_permission_check_departs_from_union :
  (let c := sampleClient (plainHooks (sampleOptions (Some "mod") None None None None))
                         (Some (sampleCategory (Some (Many ["BAN_MEMBERS"])))) in
   let msg := sampleMessage "!ban" "42" (Some (sampleGuild [])) in
   existsb isBotMissing (events (fst (processMessage c msg))) = false /\
   length (hookCalls (fst (processMessage c msg))) = 3%nat) /\
  (let c := sampleClient
              (plainHooks (sampleOptions None None (Some (Many ["KICK_MEMBERS"]))
                                         (Some (Many ["BAN_MEMBERS"])) None))
              None in
   let msg := sampleMessage "!ban" "42" (Some (sampleGuild ["BAN_MEMBERS"])) in
   exists ctx,
     List.filter isBotMissing (events (fst (processMessage c msg)))
     = [commandBotMissingPermissions ctx ["B"; "A"; "N"; "_"; "M"; "E"; "R"; "S"]]).
Proof.
  split.
  - split; reflexivity.
  - eexists. reflexivity.
Qed.

(** The example given with C3 holds: bot permissions ["BAN_MEMBERS"] and no
    other permission, in a guild where the bot lacks it. *)
Example bot_missing_ban_members :
  let c := sampleClient
             (plainHooks (sampleOptions None None None (Some (Many ["BAN_MEMBERS"])) None))
             None in
  let msg := sampleMessage "!ban" "42" (Some (sampleGuild [])) in
  exists ctx,
    events (fst (processMessage c msg))
    = [commandBotMissingPermissions ctx ["BAN_MEMBERS"]] /\
    hookCalls (fst (processMessage c msg)) = [].
Proof. eexists. split; reflexivity. Qed.

End CommandClientFacts.

(** * Properties of the interaction responder *)

Module InteractionFacts.
Import Js Interaction.
Local Open Scope method_scope.

(** ** [respond] *)

Lemma respond_when_responded (E : Z) (rest : Rest) (data : InteractionResponse) (h : Heap) :
  responded (this h) = true ->
  respond E rest data h = (inl (Error "Already responded to Interaction"), h).
Proof. intros H. unfold respond, bind, getThis, throw. rewrite H. reflexivity. Qed.

Lemma respond_when_fresh (E : Z) (rest : Rest) (data : InteractionResponse) (h : Heap) :
  responded (this h) = false ->
  respond E rest data h
  = match rest (outbound h) (callbackRequest E (this h) data) with
    | Resolves _ =>
        (inr tt, {| this := setResponded true (this h);
                    outbound := (outbound h ++ [callbackRequest E (this h) data])%list |})
    | RejectsWith e =>
        (inl e, {| this := this h;
                   outbound := (outbound h ++ [callbackRequest E (this h) data])%list |})
    end.
Proof.
  intros H. unfold respond, bind, getThis, restPost, assignResponded, callbackRequest.
  rewrite H. simpl. destruct (rest _ _); reflexivity.
Qed.

Lemma respondEach_when_responded (E : Z) (rest : Rest) (datas : list InteractionResponse)
    (h : Heap) :
  responded (this h) = true -> fst (respondEach E rest datas h) = 0%nat.
Proof.
  revert h. induction datas as [|d ds IH]; intros h H; simpl; [reflexivity|].
  rewrite (respond_when_responded _ _ _ _ H). simpl.
  specialize (IH h H). destruct (respondEach E rest ds h) as [n h'']. simpl in *.
  rewrite H. simpl. assumption.
Qed.

Lemma respondEach_at_most_once (E : Z) (rest : Rest) (datas : list InteractionResponse)
    (h : Heap) :
  (fst (respondEach E rest datas h) <= 1)%nat.
Proof.
  revert h. induction datas as [|d ds IH]; intros h; simpl; [lia|].
  destruct (responded (this h)) eqn:H.
  - rewrite (respond_when_responded _ _ _ _ H). simpl.
    specialize (IH h). destruct (respondEach E rest ds h) as [n h'']. simpl in *.
    assumption.
  - rewrite (respond_when_fresh _ _ _ _ H).
    destruct (rest _ _) as [resp|e]; simpl.
    + match goal with
      | |- context [respondEach E rest ds ?h1] =>
          pose proof (respondEach_when_responded E rest ds h1 eq_refl) as H0;
          destruct (respondEach E rest ds h1) as [n h'']
      end.
      simpl in *. subst n. lia.
    + rewrite H. simpl.
      match goal with
      | |- context [respondEach E rest ds ?h1] =>
          specialize (IH h1); destruct (respondEach E rest ds h1) as [n h'']
      end.
      simpl in *. assumption.
Qed.

(** C1, as the code has it. On an interaction that has not responded,
    [respond] issues exactly one call, the interaction callback; when the
    transport resolves it the method returns and [responded] is true, and
    when the transport rejects it the rejection is thrown on and [responded]
    stays false. On an interaction that has responded, [respond] throws
    "Already responded to Interaction" and issues no call. Over any series
    of calls of [respond], [responded] goes from false to true at most
    once. *)
Theorem respond_sets_responded_once_the_call_succeeds (E : Z) (rest : Rest)
    (data : InteractionResponse) (h : Heap) :
  (responded (this h) = false ->
   outbound (snd (respond E rest data h))
   = (outbound h ++ [callbackRequest E (this h) data])%list /\
   (forall resp, rest (outbound h) (callbackRequest E (this h) data) = Resolves resp ->
      fst (respond E rest data h) = inr tt /\
      responded (this (snd (respond E rest data h))) = true) /\
   (forall e, rest (outbound h) (callbackRequest E (this h) data) = RejectsWith e ->
      fst (respond E rest data h) = inl e /\
      responded (this (snd (respond E rest data h))) = false)) /\
  (responded (this h) = true ->
   respond E rest data h = (inl (Error "Already responded to Interaction"), h)) /\
  (forall datas, (fst (respondEach E rest datas h) <= 1)%nat).
Proof.
  split; [|split].
  - intros H. rewrite (respond_when_fresh _ _ _ _ H).
    destruct (rest _ _) as [resp|e]; simpl.
    + split; [reflexivity|]. split; [auto|]. intros e' He. discriminate He.
    + split; [reflexivity|]. split; [intros resp Hr; discriminate Hr|].
      intros e' [= <-]. auto.
  - apply respond_when_responded.
  - intros datas. apply respondEach_at_most_once.
Qed.

Lemma respond_sets_responded_once_the_call_succeeds_witness :
  responded (this (snd (respond 64 accepting (textResponse "pong") freshHeap))) = true /\
  length (outbound (snd (respond 64 accepting (textResponse "pong") freshHeap))) = 1%nat.
Proof.
  destruct (respond_sets_responded_once_the_call_succeeds
              64 accepting (textResponse "pong") freshHeap) as [Hfresh _].
  destruct (Hfresh eq_refl) as (Hout & Hok & _).
  split.
  - exact (proj2 (Hok VUndefined eq_refl)).
  - rewrite Hout. reflexivity.
Defined.

(** C1 as stated fails: on a fresh interaction whose transport rejects the
    call, [respond] does not set [responded]. *)
Lemma respond_leaves_flag_when_call_fails :
  responded (this freshHeap) = false /\
  ~ (responded (this freshHeap) = false ->
     responded (this (snd (respond 64 rejecting (textResponse "pong") freshHeap))) = true).
Proof.
  split; [reflexivity|].
  intros H. specialize (H eq_refl). vm_compute in H. discriminate H.
Qed.

(** C10. When the outbound call of [respond] is rejected, the rejection is
    thrown on, the interaction is left as it was, with [responded] false,
    and a later [respond] is not refused: it issues its call, and sets
    [responded] if that call goes through. *)
Theorem respond_failure_leaves_interaction_unresponded (E : Z) (rest : Rest)
    (data : InteractionResponse) (h : Heap) (e : Exn) :
  responded (this h) = false ->
  rest (outbound h) (callbackRequest E (this h) data) = RejectsWith e ->
  let h' := snd (respond E rest data h) in
  fst (respond E rest data h) = inl e /\
  this h' = this h /\
  responded (this h') = false /\
  forall data',
    outbound (snd (respond E rest data' h'))
    = (outbound h' ++ [callbackRequest E (this h') data'])%list /\
    forall resp,
      rest (outbound h') (callbackRequest E (this h') data') = Resolves resp ->
      fst (respond E rest data' h') = inr tt /\
      responded (this (snd (respond E rest data' h'))) = true.
Proof.
  intros H Hrej.
  assert (Hr : respond E rest data h
               = (inl e, {| this := this h;
                            outbound := (outbound h ++ [callbackRequest E (this h) data])%list |})).
  { rewrite (respond_when_fresh _ _ _ _ H), Hrej. reflexivity. }
  cbv zeta. rewrite Hr. simpl.
  split; [reflexivity|]. split; [reflexivity|]. split; [assumption|].
  intros data'.
  set (h' := {| this := this h;
                outbound := (outbound h ++ [callbackRequest E (this h) data])%list |}).
  assert (Hf : responded (this h') = false) by assumption.
  rewrite (respond_when_fresh _ _ data' h' Hf).
  split.
  - destruct (rest (outbound h') (callbackRequest E (this h') data')); reflexivity.
  - intros resp Hres.
    change (rest (outbound h') (callbackRequest E (this h') data') = Resolves resp) in Hres.
    rewrite Hres. auto.
Qed.

Lemma respond_failure_leaves_interaction_unresponded_witness :
  let h' := snd (respond 64 flaky (textResponse "pong") freshHeap) in
  responded (this h') = false /\
  responded (this (snd (respond 64 flaky (textResponse "pong again") h'))) = true.
Proof.
  destruct (respond_failure_leaves_interaction_unresponded
              64 flaky (textResponse "pong") freshHeap (Error "503") eq_refl eq_refl)
    as (_ & _ & Hfalse & Hlater).
  split; [exact Hfalse|].
  exact (proj2 (proj2 (Hlater (textResponse "pong again")) VUndefined eq_refl)).
Defined.

(** ** [send] *)

Lemma url_setResponded (b : bool) (i : Interaction) : url (setResponded b i) = url i.
Proof. reflexivity. Qed.

Lemma append_assoc (a b c : string) : (a ++ b) ++ c = a ++ (b ++ c).
Proof.
  induction a as [|x a IH]; [reflexivity|].
  change (String x ((a ++ b) ++ c) = String x (a ++ (b ++ c))).
  f_equal. exact IH.
Qed.

(** C8, as the code has it. An object given as first argument, be it
    options or an embed, takes the place of the options, and the second
    argument is then dropped; a string given first is the text. [send]
    throws "Either text or option is necessary." and issues no call when
    it is given neither argument. Otherwise the embeds of its payload are
    the embed itself when the options are one, the single [embed] of the
    options when they have one, and their [embeds] when they have none; if
    these are more than ten, [send] throws "Cannot send more than 10 embeds
    through Interaction Webhook" and issues no call; if not, it issues
    exactly one call, the follow-up post of the text, these embeds and the
    other fields of the options, and hands on what the transport answers.
    None of this depends on [responded], which [send] leaves as it is. *)
Theorem send_validates_then_posts_once (rest : Rest)
    (text opt : Datatypes.option SendArg) (h : Heap) :
  let txt := match text with
             | Some (ArgString s) => Some s
             | _ => None
             end in
  let given := match text with
               | Some (ArgOptions o) => Some (ArgOptions o)
               | Some (ArgEmbed e) => Some (ArgEmbed e)
               | _ => opt
               end in
  let embeds := match given with
                | Some (ArgEmbed e) => Some [e]
                | Some (ArgOptions o) =>
                    match o_embed o with
                    | Some e => Some [e]
                    | None => o_embeds o
                    end
                | _ => None
                end in
  let payload :=
    match given with
    | Some (ArgOptions o) =>
        {| f_content := txt; f_embeds := embeds; f_file := o_file o; f_tts := o_tts o;
           f_allowed_mentions := o_allowedMentions o; f_username := o_name o;
           f_avatar := o_avatar o |}
    | _ =>
        {| f_content := txt; f_embeds := embeds; f_file := None; f_tts := None;
           f_allowed_mentions := None; f_username := None; f_avatar := None |}
    end in
  let request := {| endpoint := Url ("https://discord.com/api/v8/webhooks/"
                                     ++ match client_user_id (this h) with
                                        | Some u => u
                                        | None => "undefined"
                                        end
                                     ++ "/" ++ token (this h) ++ "?wait=true");
                    body := FollowupBody payload |} in
  (text = None -> opt = None ->
   send rest text opt h = (inl (Error "Either text or option is necessary."), h)) /\
  (~ (text = None /\ opt = None) ->
   (10 < length (default [] embeds))%nat ->
   send rest text opt h
   = (inl (Error "Cannot send more than 10 embeds through Interaction Webhook"), h)) /\
  (~ (text = None /\ opt = None) ->
   (length (default [] embeds) <= 10)%nat ->
   outbound (snd (send rest text opt h)) = (outbound h ++ [request])%list /\
   this (snd (send rest text opt h)) = this h /\
   fst (send rest text opt h)
   = match rest (outbound h) request with
     | Resolves resp => inr resp
     | RejectsWith e => inl e
     end) /\
  (forall b,
     let hb := {| this := setResponded b (this h); outbound := outbound h |} in
     fst (send rest text opt hb) = fst (send rest text opt h) /\
     outbound (snd (send rest text opt hb)) = outbound (snd (send rest text opt h)) /\
     responded (this (snd (send rest text opt hb))) = b).
Proof.
  assert (Hurl : forall i, url i ++ "?wait=true"
                           = "https://discord.com/api/v8/webhooks/"
                             ++ match client_user_id i with
                                | Some u => u
                                | None => "undefined"
                                end
                             ++ "/" ++ token i ++ "?wait=true").
  { intros i. unfold url. rewrite !append_assoc. reflexivity. }
  cbv zeta.
  split; [|split; [|split]].
  - intros -> ->. reflexivity.
  - intros Hsome Hmany. unfold send.
    destruct text as [[s|o|e]|]; destruct opt as [[s'|o'|e']|];
      try (exfalso; apply Hsome; split; reflexivity);
      simpl in *; try lia;
      unfold tooManyEmbeds, followupPayload; simpl;
      repeat match goal with
             | |- context [match o_embed ?o with _ => _ end] => destruct (o_embed o)
             | |- context [match o_embeds ?o with _ => _ end] => destruct (o_embeds o)
             end; simpl in *; try lia;
      try (apply Nat.ltb_lt in Hmany; rewrite Hmany); reflexivity.
  - intros Hsome Hfew. unfold send.
    destruct text as [[s|o|e]|]; destruct opt as [[s'|o'|e']|];
      try (exfalso; apply Hsome; split; reflexivity);
      simpl in *;
      unfold tooManyEmbeds, followupPayload; simpl;
      repeat match goal with
             | |- context [match o_embed ?o with _ => _ end] => destruct (o_embed o)
             | |- context [match o_embeds ?o with _ => _ end] => destruct (o_embeds o)
             end; simpl in *;
      try (apply Nat.ltb_ge in Hfew; rewrite Hfew);
      unfold bind, getThis, restPost, ret; rewrite Hurl;
      destruct (rest _ _); simpl; auto.
  - intros b. unfold send.
    destruct (sendArgs text opt) as [txt given].
    destruct (negb (isSome txt) && negb (isSome given)); [simpl; auto|].
    destruct (tooManyEmbeds _); [simpl; auto|].
    unfold bind, getThis, restPost, ret. simpl.
    rewrite url_setResponded.
    destruct (rest _ _); simpl; auto.
Qed.

Lemma send_validates_then_posts_once_witness :
  send accepting (Some (ArgString "hi")) (Some (ArgOptions onlyEmbeds)) freshHeap
  = (inl (Error "Cannot send more than 10 embeds through Interaction Webhook"), freshHeap).
Proof.
  destruct (send_validates_then_posts_once
              accepting (Some (ArgString "hi")) (Some (ArgOptions onlyEmbeds)) freshHeap)
    as (_ & Hmany & _).
  apply Hmany.
  - intros [Ht _]. discriminate Ht.
  - vm_compute. lia.
Defined.

(** C8 as stated fails: options that carry a single [embed] next to eleven
    [embeds] are posted, with that one embed, and nothing is thrown. *)
Lemma send_posts_when_embed_is_given_with_eleven_embeds :
  o_embeds embedAndEmbeds = Some elevenEmbeds /\
  (10 < length elevenEmbeds)%nat /\
  ~ (exists e,
       send accepting (Some (ArgString "hi")) (Some (ArgOptions embedAndEmbeds)) freshHeap
       = (inl e, freshHeap)).
Proof.
  split; [reflexivity|]. split; [vm_compute; lia|].
  intros [e H]. unfold send in H. simpl in H. discriminate H.
Qed.

(** ** [option] *)

Lemma find_option_none (l : list InteractionApplicationCommandOption) (name : string) :
  (forall op, In op l -> op_name op <> name) ->
  find (fun e => String.eqb (op_name e) name) l = None.
Proof.
  induction l as [|o l IH]; intros H; simpl; [reflexivity|].
  destruct (String.eqb_spec (op_name o) name) as [Heq|_].
  - exfalso. apply (H o); [now left|assumption].
  - apply IH. intros op Hop. apply H. now right.
Qed.

Lemma find_option_first (pre post : list InteractionApplicationCommandOption)
    (op : InteractionApplicationCommandOption) (name : string) :
  (forall o, In o pre -> op_name o <> name) -> op_name op = name ->
  find (fun e => String.eqb (op_name e) name) (pre ++ op :: post) = Some op.
Proof.
  induction pre as [|o pre IH]; intros H Hop; simpl.
  - rewrite Hop, String.eqb_refl. reflexivity.
  - destruct (String.eqb_spec (op_name o) name) as [Heq|_].
    + exfalso. apply (H o); [now left|assumption].
    + apply IH; [|assumption]. intros o' Ho'. apply H. now right.
Qed.

(** The digits printed for a double read back as that double. *)
Lemma shortest_reads_back (x : Z) : roundToDouble x = x -> roundToDouble (shortest x) = x.
Proof.
  intros Hx. unfold shortest. generalize 1 at 1. generalize 17%nat.
  induction n as [|n IH]; intros k; simpl; [assumption|].
  destruct (digits x <? k); [assumption|].
  unfold withDigits. cbv zeta.
  set (unit := 10 ^ (digits x - k)).
  destruct (roundToDouble (x / unit * unit) =? x) eqn:Hlo;
    destruct (roundToDouble (x / unit * unit + unit) =? x) eqn:Hhi;
    try apply Z.eqb_eq in Hlo; try apply Z.eqb_eq in Hhi.
  - destruct (_ <? _); [assumption|].
    destruct (_ <? _); [assumption|].
    destruct (Z.even _); assumption.
  - assumption.
  - assumption.
  - apply IH.
Qed.

Lemma numberToString_small (n : Z) : Z.abs n <= 2 ^ 53 -> numberToString n = decimal n.
Proof.
  intros H. unfold numberToString.
  destruct (Z.leb_spec (Z.abs n) (2 ^ 53)) as [_|Hgt]; [reflexivity|lia].
Qed.

(** C9. [option] is a total function and always hands back a value: no
    value when no option of the interaction bears the name, or when the
    first one that does has no value; for any kind other than user, role and
    channel the raw value itself; for a first match of kind user, role or
    channel, the entry that the matching resolved table has under the raw
    value. The key looked up is the raw value when that is a string, and
    the print of it otherwise (an integer up to 2^53 in full decimal). A
    user option with raw value "123" thus yields the resolved user stored
    under "123". When the table has no entry under the key, the result is
    the member of [Object.prototype] of that name if the key is one of
    these, and no value otherwise. *)
Theorem option_lookup (i : Interaction) (name : string) :
  let inherited :=
    ["constructor"; "hasOwnProperty"; "isPrototypeOf"; "propertyIsEnumerable";
     "toLocaleString"; "toString"; "valueOf"; "__proto__";
     "__defineGetter__"; "__defineSetter__"; "__lookupGetter__"; "__lookupSetter__"] in
  let found : forall A, (A -> OptionValue) -> gmap string A -> string -> OptionValue -> Prop :=
    fun A inj table key result =>
      match table !! key with
      | Some x => result = inj x
      | None => (In key inherited -> result = Inherited key) /\
                (~ In key inherited -> result = NoValue)
      end in
  ((forall op, In op (options i) -> op_name op <> name) -> option i name = NoValue) /\
  (forall pre op post,
     options i = (pre ++ op :: post)%list ->
     (forall o, In o pre -> op_name o <> name) ->
     op_name op = name ->
     let key := match op_value op with
                | VStr s => s
                | VNum n => numberToString n
                | VBool true => "true"
                | VBool false => "false"
                | VObj _ => "[object Object]"
                | VUndefined => "undefined"
                end in
     (op_value op = VUndefined -> option i name = NoValue) /\
     (op_value op <> VUndefined ->
      (op_type op = USER ->
       found _ UserValue (users (resolved i)) key (option i name)) /\
      (op_type op = ROLE ->
       found _ RoleValue (roles (resolved i)) key (option i name)) /\
      (op_type op = CHANNEL ->
       found _ ChannelValue (channels (resolved i)) key (option i name)) /\
      (op_type op <> USER -> op_type op <> ROLE -> op_type op <> CHANNEL ->
       option i name = Raw (op_value op)) /\
      (forall n, op_value op = VNum n -> Z.abs n <= 2 ^ 53 -> key = decimal n) /\
      (forall u, op_type op = USER -> op_value op = VStr "123" ->
                 users (resolved i) !! "123" = Some u ->
                 option i name = UserValue u))) /\
  (numberToString (2 ^ 53 + 3) = "9007199254740996" /\
   numberToString (2 ^ 64) = "18446744073709552000" /\
   numberToString (10 ^ 21) = "1e+21" /\
   numberToString (- 2 ^ 70) = "-1.1805916207174113e+21" /\
   numberToString (2 ^ 1024) = "Infinity").
Proof.
  intros inherited found.
  assert (Hfound : forall A (inj : A -> OptionValue) (table : gmap string A) (v : JsVal),
            found A inj table (toPropertyKey v) (tableGet inj table v)).
  { intros A inj table v. unfold found, tableGet. cbv zeta.
    destruct (table !! toPropertyKey v) as [x|]; [reflexivity|].
    change objectPrototype with inherited.
    destruct (existsb (String.eqb (toPropertyKey v)) inherited) eqn:Hin.
    - split; [reflexivity|]. intros Hnot. exfalso. apply Hnot.
      now apply CommandClientFacts.includes_In.
    - split; [|reflexivity]. intros Hyes.
      apply CommandClientFacts.includes_In in Hyes. congruence. }
  split; [|split].
  - intros H. unfold option. rewrite (find_option_none _ _ H). reflexivity.
  - intros pre op post Hopts Hpre Hname key. unfold option.
    rewrite Hopts, (find_option_first _ _ _ _ Hpre Hname).
    split.
    + intros ->. reflexivity.
    + intros Hval.
      assert (Hu : isUndefined (op_value op) = false)
        by (destruct (op_value op); try reflexivity; contradiction).
      assert (Hkey : toPropertyKey (op_value op) = key)
        by (subst key; destruct (op_value op) as [|[|]| | |]; reflexivity).
      rewrite Hu.
      repeat split.
      * intros ->. rewrite <- Hkey. apply Hfound.
      * intros ->. rewrite <- Hkey. apply Hfound.
      * intros ->. rewrite <- Hkey. apply Hfound.
      * intros H1 H2 H3. destruct (op_type op); try reflexivity; contradiction.
      * intros n Hn Hsmall. subst key. rewrite Hn. now apply numberToString_small.
      * intros u -> -> Hu'. unfold tableGet. simpl. rewrite Hu'. reflexivity.
  - repeat split; vm_compute; reflexivity.
Qed.

Lemma option_lookup_witness :
  option sampleInteraction "target" = UserValue {| iuser_id := "123" |} /\
  option sampleInteraction "missing" = NoValue.
Proof.
  destruct (option_lookup sampleInteraction "target") as (_ & Hfound & _).
  destruct (option_lookup sampleInteraction "missing") as (Hnone & _).
  split.
  - destruct (Hfound [ {| op_name := "reason"; op_type := STRING; op_value := VStr "spam" |} ]
                     {| op_name := "target"; op_type := USER; op_value := VStr "123" |}
                     [] eq_refl) as [_ Hval].
    + intros o [<-|[]]. discriminate.
    + reflexivity.
    + destruct Hval as (_ & _ & _ & _ & _ & Hex); [discriminate|].
      apply Hex; reflexivity.
  - apply Hnone. intros op [<-|[<-|[]]]; discriminate.
Defined.

End InteractionFacts.

(** * Further properties of the dispatcher *)

Module DispatchFacts.
Import Js CommandClient Dispatch CommandClientFacts.
Local Open Scope proc_scope.

(** ** Taking [processMessage] apart *)

Lemma bind_then {A B} (m : Proc A) (k : A -> Proc unit) (g : A -> Proc B) :
  bind (bind m (fun a => bind (k a) (fun _ => ret a))) g
  = bind m (fun a => bind (k a) (fun _ => g a)).
Proof.
  destruct m as [t [a|v|e]]; simpl; try reflexivity.
  destruct (k a) as [t1 [u|v|e]]; simpl; try reflexivity.
  destruct (g a) as [t2 r]. rewrite app_nil_r, app_assoc. reflexivity.
Qed.

Lemma uptoNSFW_from_command (c : Client) (msg : Message) :
  uptoNSFW c msg = (inv <- uptoCommand c msg ;; checkScope c msg inv ;; ret inv).
Proof.
  unfold uptoNSFW, uptoCommand.
  destruct (checkBlacklists c msg) as [t0 [u|v|e]]; simpl; try reflexivity.
  destruct (resolvePrefix c msg) as [t1 [pfx|v|e]]; simpl; try reflexivity.
  destruct (resolveCommand c msg pfx) as [t2 [inv|v|e]]; simpl; try reflexivity.
  destruct (checkScope c msg inv) as [t3 [u'|v|e]]; simpl;
    rewrite ?app_nil_r, ?app_assoc; reflexivity.
Qed.

Lemma processMessage_from_command (c : Client) (msg : Message) :
  processMessage c msg = (inv <- uptoCommand c msg ;; afterCommand c msg inv).
Proof.
  unfold processMessage, uptoHooks, uptoArgs, uptoUserPermissions, uptoBotPermissions.
  rewrite uptoNSFW_from_command. unfold afterCommand.
  rewrite !bind_then. reflexivity.
Qed.

(** ** The gate *)

Lemma gate_bind {A B} (P : Event -> bool) (m : Proc A) (f : A -> Proc B) :
  GateOutcome P m -> (forall a, GateOutcome P (f a)) -> GateOutcome P (bind m f).
Proof.
  intros [t a Ht|t Ht|t ev Ht Hp] Hf; simpl; try (constructor; assumption).
  specialize (Hf a). destruct (f a) as [t' r].
  inversion Hf; subst.
  - constructor. rewrite forallb_app, Ht. assumption.
  - constructor. rewrite forallb_app, Ht. assumption.
  - rewrite app_assoc. constructor; [|assumption].
    rewrite forallb_app, Ht. assumption.
Qed.

Lemma gate_weaken {A} (P Q : Event -> bool) (m : Proc A) :
  (forall ev, P ev = true -> Q ev = true) -> GateOutcome P m -> GateOutcome Q m.
Proof. intros H [t a Ht|t Ht|t ev Ht Hp]; constructor; auto. Qed.

Lemma gate_ret {A} (P : Event -> bool) (a : A) : GateOutcome P (ret a).
Proof. apply GatePass. reflexivity. Qed.

Lemma gate_ask {A} (P : Event -> bool) (q : Action) (v : A) :
  isQuery q = true -> GateOutcome P (ask q v).
Proof. intros H. apply GatePass. simpl. rewrite H. reflexivity. Qed.

Lemma gate_when_return (P : Event -> bool) (b : bool) : GateOutcome P (when b return_).
Proof. destruct b; [apply GateSilent|apply GatePass]; reflexivity. Qed.

Lemma gate_when_emit (P : Event -> bool) (b : bool) (ev : Event) :
  P ev = true -> GateOutcome P (when b (returnEmit ev)).
Proof.
  intros H. destruct b; [|apply GatePass; reflexivity].
  apply (GateVeto P [] ev); [reflexivity|assumption].
Qed.

Lemma gate_checkBlacklists (P : Event -> bool) (c : Client) (msg : Message) :
  GateOutcome P (checkBlacklists c msg).
Proof.
  unfold checkBlacklists.
  apply gate_bind; [apply gate_when_return|intros _].
  apply gate_bind; [now apply gate_ask|intros b1].
  apply gate_bind; [apply gate_when_return|intros _].
  apply gate_bind; [now apply gate_ask|intros b2].
  apply gate_bind; [apply gate_when_return|intros _].
  destruct (guild msg) as [g|]; [|apply gate_ret].
  apply gate_bind; [now apply gate_ask|intros b3].
  apply gate_when_return.
Qed.

Lemma gate_resolvePrefix (P : Event -> bool) (c : Client) (msg : Message) :
  GateOutcome P (resolvePrefix c msg).
Proof.
  unfold resolvePrefix.
  apply gate_bind.
  - unfold gatherPrefixes.
    apply gate_bind; [now apply gate_ask|intros userPrefix].
    apply gate_bind; [|intros; apply gate_ret].
    destruct (guild msg); [|apply gate_ret].
    apply gate_bind; [now apply gate_ask|intros ?]. apply gate_ret.
  - intros cands. cbv zeta.
    apply gate_bind.
    + destruct (match usedPrefix _ _ with Some _ => _ | None => _ end);
        [|apply gate_ret].
      destruct (startsWith _ _); [apply gate_ret|].
      destruct (startsWith _ _); [apply gate_ret|].
      apply GateSilent. reflexivity.
    + intros [p|]; [apply gate_ret|apply GateSilent; reflexivity].
Qed.

Lemma gate_resolveCommand (P : Event -> bool) (c : Client) (msg : Message) (pfx : string) :
  GateOutcome P (resolveCommand c msg pfx).
Proof.
  unfold resolveCommand.
  destruct (parseCommand c msg pfx) as [parsed|]; [|apply GateSilent; reflexivity].
  destruct (commands_fetch c parsed) as [command|]; [|apply GateSilent; reflexivity].
  cbv zeta.
  repeat (apply gate_bind; [apply gate_when_return|intros _]).
  apply gate_ret.
Qed.

Lemma gate_uptoCommand (P : Event -> bool) (c : Client) (msg : Message) :
  GateOutcome P (uptoCommand c msg).
Proof.
  unfold uptoCommand.
  apply gate_bind; [apply gate_checkBlacklists|intros _].
  apply gate_bind; [apply gate_resolvePrefix|intros pfx].
  apply gate_resolveCommand.
Qed.

Lemma gate_checkScope (c : Client) (msg : Message) (inv : Invocation) :
  GateOutcome isScopeVeto (checkScope c msg inv).
Proof.
  unfold checkScope. cbv zeta.
  repeat (apply gate_bind; [now apply gate_when_emit|intros _]).
  now apply gate_when_emit.
Qed.

Lemma gate_checkNSFW (msg : Message) (inv : Invocation) :
  GateOutcome isScopeVeto (checkNSFW msg inv).
Proof. unfold checkNSFW. now apply gate_when_emit. Qed.

Lemma gate_checkBotPermissions (msg : Message) (inv : Invocation) :
  GateOutcome isPermissionVeto (checkBotPermissions msg inv).
Proof.
  unfold checkBotPermissions. cbv zeta.
  destruct (_ && _); [|apply gate_ret].
  destruct (guild msg) as [g|]; [|apply gate_ret].
  apply gate_bind; [now apply gate_ask|intros me].
  destruct (match botPermissions _ with Some _ => _ | None => _ end); [|apply gate_ret].
  now apply gate_when_emit.
Qed.

Lemma gate_checkUserPermissions (msg : Message) (inv : Invocation) :
  GateOutcome isPermissionVeto (checkUserPermissions msg inv).
Proof.
  unfold checkUserPermissions. cbv zeta.
  destruct (_ && _); [|apply gate_ret].
  destruct (match userPermissions _ with Some _ => _ | None => _ end); [|apply gate_ret].
  now apply gate_when_emit.
Qed.

Lemma scope_is_veto (ev : Event) : isScopeVeto ev = true -> isVeto ev = true.
Proof. unfold isVeto. intros ->. reflexivity. Qed.

Lemma permission_is_veto (ev : Event) : isPermissionVeto ev = true -> isVeto ev = true.
Proof. unfold isVeto. intros ->. apply orb_true_r. Qed.

Lemma gate_uptoBotPermissions (c : Client) (msg : Message) :
  GateOutcome isScopeVeto (uptoBotPermissions c msg).
Proof.
  unfold uptoBotPermissions. rewrite uptoNSFW_from_command.
  apply gate_bind; [|intros inv; apply gate_bind; [apply gate_checkNSFW|intros; apply gate_ret]].
  apply gate_bind; [apply gate_uptoCommand|intros inv].
  apply gate_bind; [apply gate_checkScope|intros; apply gate_ret].
Qed.

Lemma gate_uptoArgs (c : Client) (msg : Message) :
  GateOutcome isVeto (uptoArgs c msg).
Proof.
  unfold uptoArgs, uptoUserPermissions.
  apply gate_bind;
    [|intros inv; apply gate_bind; [|intros; apply gate_ret];
      apply (gate_weaken isPermissionVeto);
      [apply permission_is_veto|apply gate_checkUserPermissions]].
  apply gate_bind;
    [|intros inv; apply gate_bind; [|intros; apply gate_ret];
      apply (gate_weaken isPermissionVeto);
      [apply permission_is_veto|apply gate_checkBotPermissions]].
  apply (gate_weaken isScopeVeto); [apply scope_is_veto|].
  apply gate_uptoBotPermissions.
Qed.

(** ** How a run ends *)

Lemma runHooks_cases (inv : Invocation) :
  (exists e,
     runHooks inv
     = ([Emit (commandUsed (inv_ctx inv)); RunBefore (inv_ctx inv);
         Emit (commandError (inv_ctx inv) e)], Next tt)) \/
  runHooks inv
  = ([Emit (commandUsed (inv_ctx inv)); RunBefore (inv_ctx inv)], Return None) \/
  (exists e,
     runHooks inv
     = ([Emit (commandUsed (inv_ctx inv)); RunBefore (inv_ctx inv);
         RunExecute (inv_ctx inv); Emit (commandError (inv_ctx inv) e)], Next tt)) \/
  (exists r,
     runHooks inv
     = ([Emit (commandUsed (inv_ctx inv)); RunBefore (inv_ctx inv);
         RunExecute (inv_ctx inv); RunAfter (inv_ctx inv) r], Next tt)) \/
  (exists r e,
     runHooks inv
     = ([Emit (commandUsed (inv_ctx inv)); RunBefore (inv_ctx inv);
         RunExecute (inv_ctx inv); RunAfter (inv_ctx inv) r;
         Emit (commandError (inv_ctx inv) e)], Next tt)).
Proof.
  unfold runHooks.
  destruct (beforeExecute _ _) as [v|e|e]; simpl; eauto.
  destruct (isFalse v); simpl; eauto.
  destruct (execute _ _) as [r|e|e]; simpl; eauto.
  destruct (afterExecute _ _ _) as [w|e|e]; simpl; eauto 7.
Qed.

Lemma processMessage_cases (c : Client) (msg : Message) :
  (exists t, processMessage c msg = (t, Return None) /\ forallb isQuery t = true) \/
  (exists t ev,
     processMessage c msg = ((t ++ [Emit ev])%list, Return (Some ev)) /\
     forallb isQuery t = true /\
     (isVeto ev = true \/ isMissingArgs ev = true)) \/
  (exists t inv,
     uptoHooks c msg = (t, Next inv) /\
     processMessage c msg = ((t ++ fst (runHooks inv))%list, snd (runHooks inv))).
Proof.
  pose proof (gate_uptoArgs c msg) as Hgate.
  unfold processMessage, uptoHooks.
  destruct (uptoArgs c msg) as [t r]. inversion Hgate; subst.
  - simpl. unfold checkArgs.
    destruct (args (inv_command a)) as [[b|n]|]; simpl.
    + destruct (Nat.eqb _ _); simpl.
      * right. left. eexists _, _. split; [reflexivity|]. split; [assumption|].
        right. reflexivity.
      * right. right. exists (t ++ [])%list, a. rewrite app_nil_r.
        destruct (runHooks a). auto.
    + destruct (_ <? _); simpl.
      * right. right. exists (t ++ [Emit (commandMissingArgs (inv_ctx a))])%list, a.
        destruct (runHooks a). auto.
      * right. right. exists (t ++ [])%list, a. rewrite app_nil_r.
        destruct (runHooks a). auto.
    + right. right. exists (t ++ [])%list, a. rewrite app_nil_r.
      destruct (runHooks a). auto.
  - left. exists t. auto.
  - right. left. eexists _, _. split; [reflexivity|]. auto.
Qed.

(** X1. Down to the whitelists [processMessage] only asks its providers:
    either the run ends there, having returned nothing, emitted nothing and
    called no hook, or a command is resolved for the message and the rest
    of the body runs on its context. *)
Theorem nothing_is_emitted_before_a_command_is_resolved (c : Client) (msg : Message) :
  (exists t,
     uptoCommand c msg = (t, Return None) /\
     processMessage c msg = (t, Return None) /\
     forallb isQuery t = true /\ events t = [] /\ hookCalls t = []) \/
  (exists t inv,
     uptoCommand c msg = (t, Next inv) /\
     forallb isQuery t = true /\
     ctx_message (inv_ctx inv) = msg /\
     processMessage c msg
     = ((t ++ fst (afterCommand c msg inv))%list, snd (afterCommand c msg inv))).
Proof.
  pose proof (gate_uptoCommand (fun _ => false) c msg) as Hgate.
  rewrite processMessage_from_command.
  destruct (uptoCommand c msg) as [t r] eqn:Hup. inversion Hgate; subst.
  - right. exists t, a. repeat split; try assumption.
    + unfold uptoCommand in Hup. open_bind Hup. open_bind Hk.
      now apply resolveCommand_next in Hk0 as (_ & Hmsg & _).
    + simpl. destruct (afterCommand c msg a). reflexivity.
  - left. exists t. destruct (queries_silent _ H0). auto.
  - discriminate.
Qed.

(** X2. When the text starts with none of the candidate prefixes: with the
    mention prefix off the message is dropped; with it on, the plain mention
    of the client's user is tried first and the nickname mention second, and
    the message is dropped when neither begins the text, or when no user is
    logged in. *)
Theorem mention_prefix_is_the_fallback (c : Client) (msg : Message) :
  usedPrefix (newSet (prefixSources c msg)) (content msg) = None ->
  (mentionPrefix c = false -> snd (resolvePrefix c msg) = Return None) /\
  (mentionPrefix c = true -> user c = None -> snd (resolvePrefix c msg) = Return None) /\
  (mentionPrefix c = true -> forall u, user c = Some u ->
     (startsWith (content msg) (mention u) = true ->
      snd (resolvePrefix c msg) = Next (mention u)) /\
     (startsWith (content msg) (mention u) = false ->
      startsWith (content msg) (nickMention u) = true ->
      snd (resolvePrefix c msg) = Next (nickMention u)) /\
     (startsWith (content msg) (mention u) = false ->
      startsWith (content msg) (nickMention u) = false ->
      snd (resolvePrefix c msg) = Return None)).
Proof.
  intros Hnone.
  destruct (gatherPrefixes_spec c msg) as [t0 Hg].
  unfold resolvePrefix. rewrite (bind_from_next _ _ _ _ Hg), Hnone.
  cbv beta iota zeta.
  unfold startsWith, return_, ret, bind, snd.
  destruct (mentionPrefix c) eqn:Hm.
  2:{ split; [reflexivity|]. split; intros Hd; discriminate Hd. }
  split; [intros Hd; discriminate Hd|].
  split.
  - intros _ ->. simpl. destruct (String.prefix _ _); reflexivity.
  - intros _ u ->. simpl. repeat split.
    + intros ->. reflexivity.
    + intros -> ->. reflexivity.
    + intros -> ->. reflexivity.
Qed.

Lemma mention_prefix_is_the_fallback_witness :
  snd (resolvePrefix
         (sampleClient (plainHooks (sampleOptions None None None None None)) None)
         (sampleMessage "<@99> ban" "42" None))
  = Return None.
Proof.
  refine (proj1 (mention_prefix_is_the_fallback
                   (sampleClient (plainHooks (sampleOptions None None None None None)) None)
                   (sampleMessage "<@99> ban" "42" None) _) _); reflexivity.
Defined.



(** X4. A whitelist that is there but empty lets nobody through: with an
    empty user or channel whitelist of its own a command is dropped for
    every message, and with an empty guild whitelist for every message sent
    in a guild. *)
Theorem empty_whitelist_blocks_everything (c : Client) (msg : Message) (pfx : string) :
  (forall parsed command,
     parseCommand c msg pfx = Some parsed -> commands_fetch c parsed = Some command ->
     whitelistedUsers command = Some [] \/ whitelistedChannels command = Some [] \/
     (whitelistedGuilds command = Some [] /\ guild msg <> None) ->
     resolveCommand c msg pfx = ([], Return None)).
Proof.
  intros parsed command Hparse Hfetch H.
  unfold resolveCommand. rewrite Hparse, Hfetch.
  set (cat := match category command with
              | Some k => categories_get c k
              | None => None
              end).
  cbv zeta.
  destruct (whitelistedGuilds command) as [wg|],
           (catField cat_whitelistedGuilds cat) as [cg|],
           (guild msg) as [g|],
           (whitelistedChannels command) as [wc|],
           (catField cat_whitelistedChannels cat) as [cc|],
           (whitelistedUsers command) as [wu|],
           (catField cat_whitelistedUsers cat) as [cu|];
    simpl;
    destruct H as [H|[H|[H Hg]]]; try discriminate H; try contradiction;
    injection H as ->; simpl;
    repeat match goal with
           | |- context [includes ?l ?x] => destruct (includes l x); simpl
           end; reflexivity.
Qed.

Lemma empty_whitelist_blocks_everything_witness :
  resolveCommand (sampleClient (plainHooks (whitelistOptions (Some []))) None)
                 (sampleMessage "!ban" "42" (Some (sampleGuild []))) "!"
  = ([], Return None).
Proof.
  refine (empty_whitelist_blocks_everything
            (sampleClient (plainHooks (whitelistOptions (Some []))) None)
            (sampleMessage "!ban" "42" (Some (sampleGuild []))) "!"
            _ _ eq_refl eq_refl _).
  right. right. split; [reflexivity|discriminate].
Defined.

Lemma processMessage_after (c : Client) (msg : Message) (t : list Action) (inv : Invocation) :
  uptoCommand c msg = (t, Next inv) ->
  processMessage c msg
  = ((t ++ fst (afterCommand c msg inv))%list, snd (afterCommand c msg inv)).
Proof.
  intros H. rewrite processMessage_from_command. now apply bind_from_next.
Qed.

Lemma isTrue_spec (flag : option bool) : isTrue flag = true <-> flag = Some true.
Proof. unfold isTrue. apply bool_decide_eq_true. Qed.

Lemma in_emit_events (ev : Event) (t : list Action) : In (Emit ev) t -> In ev (events t).
Proof.
  unfold events. intros H. apply in_flat_map. exists (Emit ev). split; [assumption|now left].
Qed.

Lemma queries_have_no_emit (ev : Event) (t : list Action) :
  forallb isQuery t = true -> ~ In (Emit ev) t.
Proof.
  intros H Hin. rewrite forallb_forall in H. specialize (H _ Hin). discriminate H.
Qed.



(** X6. A command on which guild-only and DM-only are both in effect never
    runs: wherever it is used, the run ends with [commandOwnerOnly],
    [commandGuildOnly] (outside a guild) or [commandDmOnly] (in a guild), and
    no hook is called. *)
Theorem guild_only_and_dm_only_never_runs (c : Client) (msg : Message)
    (t : list Action) (inv : Invocation) :
  uptoCommand c msg = (t, Next inv) ->
  flagOf (guildOnly (inv_command inv)) (inv_category inv) cat_guildOnly = Some true ->
  flagOf (dmOnly (inv_command inv)) (inv_category inv) cat_dmOnly = Some true ->
  exists ev,
    processMessage c msg = ((t ++ [Emit ev])%list, Return (Some ev)) /\
    (ev = commandOwnerOnly (inv_ctx inv) \/
     (ev = commandGuildOnly (inv_ctx inv) /\ guild msg = None) \/
     (ev = commandDmOnly (inv_ctx inv) /\ guild msg <> None)) /\
    hookCalls (fst (processMessage c msg)) = [].
Proof.
  intros Hup Hguild Hdm.
  assert (Hq : forallb isQuery t = true).
  { pose proof (gate_uptoCommand (fun _ => false) c msg) as Hg.
    rewrite Hup in Hg. now inversion Hg. }
  apply queries_silent in Hq as [_ Hh].
  rewrite (processMessage_after _ _ _ _ Hup).
  unfold afterCommand, checkScope. cbv zeta.
  rewrite Hguild, Hdm.
  destruct (isTrue _ && negb (includes _ _)); simpl.
  - exists (commandOwnerOnly (inv_ctx inv)).
    rewrite hookCalls_app, Hh. split; [reflexivity|].
    split; [left; reflexivity|reflexivity].
  - destruct (guild msg) as [g|]; simpl.
    + exists (commandDmOnly (inv_ctx inv)).
      rewrite hookCalls_app, Hh. split; [reflexivity|].
      split; [|reflexivity]. right. right. split; [reflexivity|discriminate].
    + exists (commandGuildOnly (inv_ctx inv)).
      rewrite hookCalls_app, Hh. split; [reflexivity|].
      split; [|reflexivity]. right. left. split; reflexivity.
Qed.

Lemma guild_only_and_dm_only_never_runs_witness :
  exists t ev,
    processMessage
      (sampleClient (plainHooks (scopedOptions None (Some true) (Some true))) None)
      (sampleMessage "!ban" "42" (Some (sampleGuild [])))
    = (t, Return (Some ev)).
Proof.
  edestruct (guild_only_and_dm_only_never_runs
               (sampleClient (plainHooks (scopedOptions None (Some true) (Some true))) None)
               (sampleMessage "!ban" "42" (Some (sampleGuild []))))
    as (ev & Hp & _).
  - reflexivity.
  - reflexivity.
  - reflexivity.
  - eexists _, _. exact Hp.
Defined.

(** X7. The before-hook stops the command only by returning the boolean
    false: then the run returns after the "command used" notice and the
    before-hook, with neither execute-hook, after-hook nor [commandError].
    Any other value it returns (undefined, 0, the empty string, ...) lets the
    execute-hook run. *)
Theorem before_hook_stops_only_by_false (c : Client) (msg : Message)
    (t : list Action) (inv : Invocation) (v : JsVal) :
  uptoHooks c msg = (t, Next inv) ->
  beforeExecute (inv_command inv) (inv_ctx inv) = Returns v ->
  (v = VBool false ->
   processMessage c msg
   = ((t ++ [Emit (commandUsed (inv_ctx inv)); RunBefore (inv_ctx inv)])%list,
      Return None)) /\
  (v <> VBool false -> In (RunExecute (inv_ctx inv)) (fst (processMessage c msg))).
Proof.
  intros Hup Hbefore.
  unfold processMessage. rewrite (bind_from_next _ _ _ _ Hup).
  unfold runHooks. rewrite Hbefore.
  split.
  - intros ->. reflexivity.
  - intros Hv.
    assert (Hf : isFalse v = false)
      by (destruct v as [|[|]| | |]; try reflexivity; contradiction).
    simpl. rewrite Hf. simpl.
    apply in_or_app. right.
    destruct (execute _ _) as [r|e|e]; simpl; auto.
    destruct (afterExecute _ _ _); simpl; auto.
Qed.

Lemma before_hook_stops_only_by_false_witness :
  exists t,
    processMessage
      (sampleClient (hooked (Returns (VBool false)) (Returns VUndefined) (Returns VUndefined))
                    None)
      (sampleMessage "!ban" "42" None)
    = (t, Return None) /\
    length (hookCalls t) = 1%nat.
Proof.
  edestruct (before_hook_stops_only_by_false
               (sampleClient
                  (hooked (Returns (VBool false)) (Returns VUndefined) (Returns VUndefined))
                  None)
               (sampleMessage "!ban" "42" None))
    as (Hp & _).
  - reflexivity.
  - reflexivity.
  - eexists. split; [exact (Hp eq_refl)|reflexivity].
Defined.

(** X8. When the before-hook does not stop the command and the execute-hook
    returns [r], the after-hook is called with [r]. If the after-hook
    throws while running, [commandError] is emitted with what it threw,
    though the command has been executed; if it returns, or returns a
    promise that rejects, nothing more is emitted. In each case the run
    ends normally. *)
Theorem after_hook_gets_the_result (c : Client) (msg : Message)
    (t : list Action) (inv : Invocation) (v r : JsVal) :
  uptoHooks c msg = (t, Next inv) ->
  beforeExecute (inv_command inv) (inv_ctx inv) = Returns v ->
  v <> VBool false ->
  execute (inv_command inv) (inv_ctx inv) = Returns r ->
  let ran := [Emit (commandUsed (inv_ctx inv)); RunBefore (inv_ctx inv);
              RunExecute (inv_ctx inv); RunAfter (inv_ctx inv) r] in
  (forall e, afterExecute (inv_command inv) (inv_ctx inv) r = Throws e ->
     processMessage c msg
     = ((t ++ ran ++ [Emit (commandError (inv_ctx inv) e)])%list, Next tt)) /\
  (forall e, afterExecute (inv_command inv) (inv_ctx inv) r = Rejects e ->
     processMessage c msg = ((t ++ ran)%list, Next tt)) /\
  (forall w, afterExecute (inv_command inv) (inv_ctx inv) r = Returns w ->
     processMessage c msg = ((t ++ ran)%list, Next tt)).
Proof.
  intros Hup Hbefore Hv Hexec ran.
  assert (Hf : isFalse v = false)
    by (destruct v as [|[|]| | |]; try reflexivity; contradiction).
  unfold processMessage. rewrite (bind_from_next _ _ _ _ Hup).
  unfold runHooks. rewrite Hbefore. simpl. rewrite Hf. simpl. rewrite Hexec. simpl.
  repeat split; intros x ->; reflexivity.
Qed.

Lemma after_hook_gets_the_result_witness :
  exists t,
    processMessage
      (sampleClient (hooked (Returns VUndefined) (Returns (VNum 7)) (Throws (Error "late")))
                    None)
      (sampleMessage "!ban" "42" None)
    = (t, Next tt) /\
    length (List.filter isError (events t)) = 1%nat /\
    length (hookCalls t) = 3%nat.
Proof.
  edestruct (after_hook_gets_the_result
               (sampleClient
                  (hooked (Returns VUndefined) (Returns (VNum 7)) (Throws (Error "late")))
                  None)
               (sampleMessage "!ban" "42" None))
    as (Hp & _).
  - reflexivity.
  - reflexivity.
  - discriminate.
  - reflexivity.
  - eexists. split; [exact (Hp _ eq_refl)|]. split; reflexivity.
Defined.

(** How a run in which every collaborator answers ends, and which hooks
    it calls. *)
Lemma answered_run_shape (c : Client) (msg : Message) :
  (forall e, snd (processMessage c msg) <> Throw e) /\
  ((hookCalls (fst (processMessage c msg)) = [] /\
    List.filter isUsed (events (fst (processMessage c msg))) = []) \/
   exists ctx,
     ctx_message ctx = msg /\
     List.filter isUsed (events (fst (processMessage c msg))) = [commandUsed ctx] /\
     (hookCalls (fst (processMessage c msg)) = [RunBefore ctx] \/
      hookCalls (fst (processMessage c msg)) = [RunBefore ctx; RunExecute ctx] \/
      exists r,
        hookCalls (fst (processMessage c msg))
        = [RunBefore ctx; RunExecute ctx; RunAfter ctx r])).
Proof.
  destruct (processMessage_cases c msg)
    as [(t & -> & Hq)|[(t & ev & -> & Hq & Hev)|(t & inv & Hup & ->)]].
  - split; [discriminate|]. left. simpl.
    destruct (queries_silent _ Hq) as [-> ->]. auto.
  - split; [discriminate|]. left. simpl.
    destruct (queries_silent _ Hq) as [He Hh].
    rewrite hookCalls_app, events_app, He, Hh. simpl.
    split; [reflexivity|].
    destruct ev; simpl in *; try reflexivity; destruct Hev; discriminate.
  - destruct (uptoHooks_next _ _ _ _ Hup) as (Hev & Hh & Hctx).
    simpl fst. simpl snd.
    rewrite hookCalls_app, events_app, Hh, List.filter_app.
    assert (Hu : List.filter isUsed (events t) = [])
      by (destruct Hev as [-> | ->]; reflexivity).
    rewrite Hu. simpl app.
    destruct (runHooks_cases inv)
      as [(e & ->)|[->|[(e & ->)|[(r & ->)|(r & e & ->)]]]];
      (split; [discriminate|]); right; exists (inv_ctx inv);
      (split; [assumption|]); (split; [reflexivity|]); simpl; eauto.
Qed.

(** ** Collaborators that reject *)

Lemma follows_bind {A B} (faults : Rejections.Faults) (m' m : Proc A) (f' f : A -> Proc B) :
  Rejections.Follows faults m' m ->
  (forall a, Rejections.Follows faults (f' a) (f a)) ->
  Rejections.Follows faults (bind m' f') (bind m f).
Proof.
  intros Hm Hf. destruct Hm as [m Hans|t t' q e r Hans Hq He].
  - destruct m as [t [a|v|e]]; simpl in *; try (apply Rejections.FollowsSame; assumption).
    specialize (Hf a). destruct (f' a) as [t1' r1']. destruct (f a) as [t1 r1].
    inversion Hf as [m1 Hans1 Heq1 Heq2|t0 t0' q e r Hans0 Hq He Heq1 Heq2]; subst.
    + apply Rejections.FollowsSame. simpl in *.
      intros a' Hin. apply in_app_or in Hin as [Hin|Hin]; auto.
    + rewrite !app_assoc. apply Rejections.FollowsThrow; try assumption.
      intros a' Hin. apply in_app_or in Hin as [Hin|Hin]; auto.
  - simpl.
    destruct r as [a|v|e0]; simpl; try (apply Rejections.FollowsThrow; assumption).
    destruct (f a) as [t1 r1]. rewrite <- app_assoc. simpl.
    apply Rejections.FollowsThrow; assumption.
Qed.

Lemma follows_await {A} (faults : Rejections.Faults) (a : Action) (v : A) :
  isQuery a = true -> Rejections.Follows faults (Rejections.await faults a v) (ask a v).
Proof.
  intros Hq. unfold Rejections.await, ask.
  destruct (faults a) as [e|] eqn:He.
  - apply (Rejections.FollowsThrow faults [] [] a e (Next v)); try assumption.
    intros a' [].
  - apply Rejections.FollowsSame. simpl. intros a' [<-|[]] _. assumption.
Qed.

Lemma follows_quiet {A} (faults : Rejections.Faults) (m : Proc A) :
  forallb Rejections.isNotQuery (fst m) = true -> Rejections.Follows faults m m.
Proof.
  intros H. apply Rejections.FollowsSame. intros a Hin Hq.
  rewrite forallb_forall in H. specialize (H a Hin).
  unfold Rejections.isNotQuery in H. rewrite Hq in H. discriminate H.
Qed.

Lemma quiet_when_return (b : bool) :
  forallb Rejections.isNotQuery (fst (when b (@return_ unit))) = true.
Proof. destruct b; reflexivity. Qed.

Lemma quiet_when_emit (b : bool) (ev : Event) :
  forallb Rejections.isNotQuery (fst (when b (returnEmit ev))) = true.
Proof. destruct b; reflexivity. Qed.

Lemma quiet_resolveCommand (c : Client) (msg : Message) (pfx : string) :
  forallb Rejections.isNotQuery (fst (resolveCommand c msg pfx)) = true.
Proof.
  unfold resolveCommand.
  destruct (parseCommand c msg pfx) as [parsed|]; [|reflexivity].
  destruct (commands_fetch c parsed) as [command|]; [|reflexivity].
  cbv zeta.
  apply bind_forallb; [apply quiet_when_return|intros _].
  apply bind_forallb; [apply quiet_when_return|intros _].
  apply bind_forallb; [apply quiet_when_return|intros _].
  apply bind_forallb; [apply quiet_when_return|intros _].
  apply bind_forallb; [apply quiet_when_return|intros _].
  apply bind_forallb; [apply quiet_when_return|intros _].
  reflexivity.
Qed.

Lemma quiet_checkScope (c : Client) (msg : Message) (inv : Invocation) :
  forallb Rejections.isNotQuery (fst (checkScope c msg inv)) = true.
Proof.
  unfold checkScope. cbv zeta.
  apply bind_forallb; [apply quiet_when_emit|intros _].
  apply bind_forallb; [apply quiet_when_emit|intros _].
  apply quiet_when_emit.
Qed.

Lemma quiet_checkNSFW (msg : Message) (inv : Invocation) :
  forallb Rejections.isNotQuery (fst (checkNSFW msg inv)) = true.
Proof. unfold checkNSFW. apply quiet_when_emit. Qed.

Lemma quiet_checkUserPermissions (msg : Message) (inv : Invocation) :
  forallb Rejections.isNotQuery (fst (checkUserPermissions msg inv)) = true.
Proof.
  unfold checkUserPermissions. cbv zeta.
  destruct (_ && _); [|reflexivity].
  destruct (match userPermissions _ with Some _ => _ | None => _ end); [|reflexivity].
  apply quiet_when_emit.
Qed.

Lemma quiet_checkArgs (inv : Invocation) :
  forallb Rejections.isNotQuery (fst (checkArgs inv)) = true.
Proof.
  unfold checkArgs.
  destruct (args _) as [[b|n]|]; [apply quiet_when_emit| |reflexivity].
  destruct (_ <? _); reflexivity.
Qed.

Lemma quiet_runHooks (inv : Invocation) :
  forallb Rejections.isNotQuery (fst (runHooks inv)) = true.
Proof.
  destruct (runHooks_cases inv)
    as [(e & ->)|[->|[(e & ->)|[(r & ->)|(r & e & ->)]]]]; reflexivity.
Qed.

Lemma follows_when_return (faults : Rejections.Faults) (b : bool) :
  Rejections.Follows faults (when b return_) (when b return_).
Proof. apply follows_quiet, quiet_when_return. Qed.

Lemma follows_ret {A} (faults : Rejections.Faults) (a : A) :
  Rejections.Follows faults (ret a) (ret a).
Proof. apply follows_quiet. reflexivity. Qed.

Lemma follows_checkBlacklists (faults : Rejections.Faults) (c : Client) (msg : Message) :
  Rejections.Follows faults (Rejections.checkBlacklists faults c msg) (checkBlacklists c msg).
Proof.
  unfold Rejections.checkBlacklists, checkBlacklists.
  apply follows_bind; [apply follows_when_return|intros _].
  apply follows_bind; [now apply follows_await|intros b1].
  apply follows_bind; [apply follows_when_return|intros _].
  apply follows_bind; [now apply follows_await|intros b2].
  apply follows_bind; [apply follows_when_return|intros _].
  destruct (guild msg) as [g|]; [|apply follows_ret].
  apply follows_bind; [now apply follows_await|intros b3].
  apply follows_when_return.
Qed.

Lemma follows_resolvePrefix (faults : Rejections.Faults) (c : Client) (msg : Message) :
  Rejections.Follows faults (Rejections.resolvePrefix faults c msg) (resolvePrefix c msg).
Proof.
  unfold Rejections.resolvePrefix, resolvePrefix.
  apply follows_bind.
  - unfold Rejections.gatherPrefixes, gatherPrefixes.
    apply follows_bind; [now apply follows_await|intros userPrefix].
    apply follows_bind; [|intros; apply follows_ret].
    destruct (guild msg); [|apply follows_ret].
    apply follows_bind; [now apply follows_await|intros ?]. apply follows_ret.
  - intros cands. apply follows_quiet. cbv zeta.
    apply bind_forallb.
    + destruct (match usedPrefix _ _ with Some _ => _ | None => _ end); [|reflexivity].
      destruct (startsWith _ _); [reflexivity|].
      destruct (startsWith _ _); reflexivity.
    + intros [p|]; reflexivity.
Qed.

Lemma follows_checkBotPermissions (faults : Rejections.Faults) (msg : Message)
    (inv : Invocation) :
  Rejections.Follows faults (Rejections.checkBotPermissions faults msg inv)
                     (checkBotPermissions msg inv).
Proof.
  unfold Rejections.checkBotPermissions, checkBotPermissions. cbv zeta.
  destruct (_ && _); [|apply follows_ret].
  destruct (guild msg) as [g|]; [|apply follows_ret].
  apply follows_bind; [now apply follows_await|intros me].
  apply follows_quiet.
  destruct (match botPermissions _ with Some _ => _ | None => _ end); [|reflexivity].
  apply quiet_when_emit.
Qed.

Lemma follows_processMessage (faults : Rejections.Faults) (c : Client) (msg : Message) :
  Rejections.Follows faults (Rejections.processMessage faults c msg) (processMessage c msg).
Proof.
  rewrite processMessage_from_command.
  unfold Rejections.processMessage, Rejections.uptoCommand, uptoCommand.
  apply follows_bind.
  - apply follows_bind; [apply follows_checkBlacklists|intros _].
    apply follows_bind; [apply follows_resolvePrefix|intros pfx].
    apply follows_quiet, quiet_resolveCommand.
  - intros inv. unfold Rejections.afterCommand, afterCommand.
    apply follows_bind; [apply follows_quiet, quiet_checkScope|intros _].
    apply follows_bind; [apply follows_quiet, quiet_checkNSFW|intros _].
    apply follows_bind; [apply follows_checkBotPermissions|intros _].
    apply follows_bind; [apply follows_quiet, quiet_checkUserPermissions|intros _].
    apply follows_bind; [apply follows_quiet, quiet_checkArgs|intros _].
    apply follows_quiet, quiet_runHooks.
Qed.

(** In a run in which every collaborator answers, the queries come first. *)
Lemma queries_come_first (c : Client) (msg : Message) :
  exists tq tn,
    fst (processMessage c msg) = (tq ++ tn)%list /\
    forallb isQuery tq = true /\ forallb Rejections.isNotQuery tn = true.
Proof.
  assert (Hp : processMessage c msg
               = (inv <- uptoArgs c msg ;; checkArgs inv ;; runHooks inv)).
  { unfold processMessage, uptoHooks. rewrite bind_then. reflexivity. }
  rewrite Hp.
  pose proof (gate_uptoArgs c msg) as Hgate.
  destruct (uptoArgs c msg) as [t r]. inversion Hgate; subst.
  - exists t, (fst (checkArgs a ;; runHooks a)). simpl.
    destruct (checkArgs a ;; runHooks a) as [t1 r1] eqn:Hk. simpl.
    split; [reflexivity|]. split; [assumption|].
    change t1 with (fst (t1, r1)). rewrite <- Hk.
    apply bind_forallb; [apply quiet_checkArgs|intros _; apply quiet_runHooks].
  - exists t, []. simpl. rewrite app_nil_r. auto.
  - exists t0, [Emit ev]. simpl. auto.
Qed.

Lemma before_a_query (t t' tq tn : list Action) (q : Action) :
  (t ++ q :: t')%list = (tq ++ tn)%list ->
  isQuery q = true ->
  forallb isQuery tq = true -> forallb Rejections.isNotQuery tn = true ->
  forallb isQuery t = true.
Proof.
  revert tq. induction t as [|a t IH]; intros tq Heq Hq Htq Htn; [reflexivity|].
  destruct tq as [|b tq]; simpl in *.
  - exfalso. subst tn. simpl in Htn. apply andb_prop in Htn as [_ Htn].
    rewrite forallb_app in Htn. apply andb_prop in Htn as [_ Htn].
    simpl in Htn. unfold Rejections.isNotQuery in Htn. rewrite Hq in Htn.
    discriminate Htn.
  - injection Heq as <- Heq. apply andb_prop in Htq as [Ha Htq].
    rewrite Ha. simpl. eapply IH; eassumption.
Qed.

(** X9. [processMessage] throws only when one of the collaborators it
    awaits outside its [try] block rejects: a blacklist or prefix provider,
    or [msg.guild.me()]. It then throws what that call rejected with, right
    after the call, having done nothing but ask, with no event emitted and
    no hook called. When none of the calls made rejects, the run is the one
    in which every collaborator answers, and it does not throw whatever the
    hooks do: it ends by itself or hands on the promise of the [emit] of a
    veto. In every run the hooks called are none, the before-hook, the
    before- and the execute-hook, or all three, each once, in that order
    and on the context of the message; the "command used" notice is
    emitted once in a run that calls a hook and not at all in a run that
    calls none. *)
Theorem run_throws_only_when_a_collaborator_rejects (faults : Rejections.Faults)
    (c : Client) (msg : Message) :
  let run := Rejections.processMessage faults c msg in
  (forall e, snd run = Throw e <->
     exists t q, fst run = (t ++ [q])%list /\ isQuery q = true /\ faults q = Some e) /\
  (forall e, snd run = Throw e ->
     forallb isQuery (fst run) = true /\ events (fst run) = [] /\ hookCalls (fst run) = []) /\
  ((forall q, In q (fst (processMessage c msg)) -> isQuery q = true -> faults q = None) ->
   run = processMessage c msg) /\
  ((hookCalls (fst run) = [] /\ List.filter isUsed (events (fst run)) = []) \/
   exists ctx,
     ctx_message ctx = msg /\
     List.filter isUsed (events (fst run)) = [commandUsed ctx] /\
     (hookCalls (fst run) = [RunBefore ctx] \/
      hookCalls (fst run) = [RunBefore ctx; RunExecute ctx] \/
      exists r, hookCalls (fst run) = [RunBefore ctx; RunExecute ctx; RunAfter ctx r])).
Proof.
  intros run. subst run.
  pose proof (follows_processMessage faults c msg) as Hfollow.
  destruct (answered_run_shape c msg) as [Hnever Hhooks].
  destruct (queries_come_first c msg) as (tq & tn & Hshape & Htq & Htn).
  remember (Rejections.processMessage faults c msg) as run eqn:Hrun.
  remember (processMessage c msg) as plain eqn:Hplain.
  destruct Hfollow as [m Hans|t t' q e r Hans Hq He].
  - split; [|split; [|split]].
    + intros e. split.
      * intros Hthrow. exfalso. exact (Hnever e Hthrow).
      * intros (t & q & Ht & Hq & He). exfalso.
        assert (Hn : faults q = None).
        { apply Hans; [|assumption]. rewrite Ht. apply in_or_app. right. now left. }
        congruence.
    + intros e Hthrow. exfalso. exact (Hnever e Hthrow).
    + reflexivity.
    + assumption.
  - assert (Hbefore : forallb isQuery t = true).
    { simpl in Hshape. eapply before_a_query; eassumption. }
    assert (Hall : forallb isQuery (t ++ [q]) = true).
    { rewrite forallb_app, Hbefore. simpl. rewrite Hq. reflexivity. }
    destruct (queries_silent _ Hall) as [He0 Hh0].
    split; [|split; [|split]].
    + intros e'. simpl. split.
      * intros [= <-]. exists t, q. auto.
      * intros (t0 & q0 & Ht & Hq0 & He').
        apply app_inj_tail in Ht as [_ <-]. congruence.
    + intros e' _. simpl. auto.
    + intros Hnone. exfalso.
      assert (Hn : faults q = None).
      { apply Hnone; [|assumption]. simpl. apply in_or_app. right. now left. }
      congruence.
    + left. simpl. rewrite Hh0, He0. auto.
Qed.

Lemma run_throws_only_when_a_collaborator_rejects_witness :
  let run := Rejections.processMessage Rejections.meRejects
               (sampleClient Rejections.needsBan None)
               (sampleMessage "!ban" "42" (Some (sampleGuild []))) in
  snd run = Throw (Error "Missing Access") /\ events (fst run) = [].
Proof.
  destruct (run_throws_only_when_a_collaborator_rejects
              Rejections.meRejects
              (sampleClient Rejections.needsBan None)
              (sampleMessage "!ban" "42" (Some (sampleGuild []))))
    as (Hthrow & Hquiet & _).
  assert (H : snd (Rejections.processMessage Rejections.meRejects
                     (sampleClient Rejections.needsBan None)
                     (sampleMessage "!ban" "42" (Some (sampleGuild []))))
              = Throw (Error "Missing Access")).
  { apply Hthrow. eexists _, (FetchMe "500"). split; [|split]; reflexivity. }
  split; [exact H|exact (proj1 (proj2 (Hquiet _ H)))].
Defined.

(** X10. One of the six vetoes (owner-only, guild-only, DM-only, NSFW,
    missing bot permissions, missing user permissions) is always the only
    event of its run: once it is emitted the run returns, no hook having
    been called and no "command used" notice given. *)
Theorem veto_is_the_only_event_of_its_run (c : Client) (msg : Message) (ev : Event) :
  In (Emit ev) (fst (processMessage c msg)) ->
  isVeto ev = true ->
  snd (processMessage c msg) = Return (Some ev) /\
  events (fst (processMessage c msg)) = [ev] /\
  hookCalls (fst (processMessage c msg)) = [].
Proof.
  intros Hin Hveto.
  destruct (processMessage_cases c msg)
    as [(t & Hp & Hq)|[(t & ev' & Hp & Hq & Hev)|(t & inv & Hup & Hp)]];
    rewrite Hp in *; simpl in *.
  - exfalso. eapply queries_have_no_emit; eassumption.
  - apply in_app_or in Hin as [Hin|[Hin|[]]].
    + exfalso. eapply queries_have_no_emit; eassumption.
    + injection Hin as ->.
      destruct (queries_silent _ Hq) as [He Hh].
      rewrite events_app, hookCalls_app, He, Hh. auto.
  - exfalso.
    destruct (uptoHooks_next _ _ _ _ Hup) as (Hev & _ & _).
    apply in_app_or in Hin as [Hin|Hin].
    + apply in_emit_events in Hin.
      destruct Hev as [Hev|Hev]; rewrite Hev in Hin; simpl in Hin;
        [assumption|destruct Hin as [<-|[]]; discriminate Hveto].
    + destruct (runHooks_cases inv)
        as [(e & Hr)|[Hr|[(e & Hr)|[(r & Hr)|(r & e & Hr)]]]];
        rewrite Hr in Hin; simpl in Hin;
        repeat (destruct Hin as [Hin|Hin];
                [try discriminate Hin; injection Hin as <-; discriminate Hveto|]);
        assumption.
Qed.

Lemma veto_is_the_only_event_of_its_run_witness :
  length (events (fst (processMessage
                         (sampleClient (plainHooks (scopedOptions None (Some true) None)) None)
                         (sampleMessage "!ban" "42" None)))) = 1%nat.
Proof.
  edestruct (veto_is_the_only_event_of_its_run
               (sampleClient (plainHooks (scopedOptions None (Some true) None)) None)
               (sampleMessage "!ban" "42" None))
    as (_ & He & _).
  - simpl. right. right. right. left. reflexivity.
  - reflexivity.
  - rewrite He. reflexivity.
Defined.

(** ** The permission checks *)

Lemma processMessage_from_bot (c : Client) (msg : Message) :
  processMessage c msg
  = (inv <- uptoBotPermissions c msg ;;
     checkBotPermissions msg inv ;;
     checkUserPermissions msg inv ;;
     checkArgs inv ;;
     runHooks inv).
Proof.
  unfold processMessage, uptoHooks, uptoArgs, uptoUserPermissions.
  rewrite !bind_then. reflexivity.
Qed.


Lemma checkArgs_emits (p : Event -> bool) (inv : Invocation) :
  (forall ctx, p (commandMissingArgs ctx) = false) ->
  emitsNone p (fst (checkArgs inv)) = true.
Proof.
  intros H. unfold checkArgs, when, returnEmit, emit, ret, emitsNone.
  destruct (args _) as [[b|n]|]; [destruct (Nat.eqb _ _)|destruct (_ <? _)|];
    simpl; rewrite ?H; reflexivity.
Qed.

Lemma runHooks_emits (p : Event -> bool) (inv : Invocation) :
  (forall ctx, p (commandUsed ctx) = false) ->
  (forall ctx e, p (commandError ctx e) = false) ->
  emitsNone p (fst (runHooks inv)) = true.
Proof.
  intros Hu He. unfold emitsNone.
  destruct (runHooks_cases inv)
    as [(e & ->)|[->|[(e & ->)|[(r & ->)|(r & e & ->)]]]];
    simpl; rewrite ?Hu, ?He; reflexivity.
Qed.

Lemma checks_skipped_without_guild (msg : Message) (inv : Invocation) :
  guild msg = None ->
  checkBotPermissions msg inv = ret tt /\ checkUserPermissions msg inv = ret tt.
Proof.
  intros H. unfold checkBotPermissions, checkUserPermissions.
  rewrite H, !andb_false_r. auto.
Qed.

(** X11. In a direct message no permission is checked: whatever the command
    and its category require, a run on a message without guild emits
    neither [commandBotMissingPermissions] nor
    [commandUserMissingPermissions]. *)
Theorem no_permission_veto_outside_a_guild (c : Client) (msg : Message) :
  guild msg = None ->
  forall ev, In (Emit ev) (fst (processMessage c msg)) -> isPermissionVeto ev = false.
Proof.
  intros Hdm.
  assert (H : emitsNone isPermissionVeto (fst (processMessage c msg)) = true).
  { rewrite processMessage_from_bot.
    pose proof (gate_uptoBotPermissions c msg) as Hgate.
    destruct (uptoBotPermissions c msg) as [t0 r0].
    inversion Hgate as [t a Hq Heq|t Hq Heq|t ev Hq Hp Heq]; subst.
    - unfold emitsNone. apply bind_forallb.
      + now apply (queries_emit_none isPermissionVeto).
      + intros inv.
        destruct (checks_skipped_without_guild msg inv Hdm) as [-> ->].
        rewrite !bind_ret_unit.
        apply bind_forallb; [now apply checkArgs_emits|intros _].
        now apply runHooks_emits.
    - simpl. now apply queries_emit_none.
    - simpl. unfold emitsNone. rewrite forallb_app.
      fold (emitsNone isPermissionVeto t). rewrite queries_emit_none by assumption.
      simpl. destruct ev; simpl in *; try discriminate; reflexivity. }
  intros ev Hin.
  destruct (isPermissionVeto ev) eqn:Hp; [|reflexivity].
  exfalso. eapply emitsNone_not_in; eassumption.
Qed.

Lemma no_permission_veto_outside_a_guild_witness :
  exists ev,
    In (Emit ev)
       (fst (processMessage
               (sampleClient
                  (plainHooks (userPermOptions None (Some (One "BAN_MEMBERS")))) None)
               (sampleMessage "!ban" "42" None))) /\
    isPermissionVeto ev = false.
Proof.
  pose proof (no_permission_veto_outside_a_guild
                (sampleClient
                   (plainHooks (userPermOptions None (Some (One "BAN_MEMBERS")))) None)
                (sampleMessage "!ban" "42" None) eq_refl) as H.
  eexists. split; [|apply H]; simpl; right; right; right; left; reflexivity.
Defined.



(** X13. In a guild, for a command with bot permissions of its own and no
    shared [permissions] on it or its category: the bot member is fetched,
    and the permissions reported missing are those of the required ones
    that the bot does not hold, in the order they are required; if there is
    any, [commandBotMissingPermissions] is emitted with that list and the
    run returns, if there is none the check is passed. *)
Theorem bot_permissions_missing_list (c : Client) (msg : Message)
    (t : list Action) (inv : Invocation) (g : Guild) (ps : OneOrMany) :
  uptoBotPermissions c msg = (t, Next inv) ->
  guild msg = Some g ->
  permissions (inv_command inv) = None ->
  catField cat_permissions (inv_category inv) = None ->
  botPermissions (inv_command inv) = Some ps ->
  let missing := List.filter (fun perm => negb (permissions_has (guild_me g) perm))
                             (toArray ps) in
  (missing <> [] ->
   processMessage c msg
   = ((t ++ [FetchMe (guild_id g);
             Emit (commandBotMissingPermissions (inv_ctx inv) missing)])%list,
      Return (Some (commandBotMissingPermissions (inv_ctx inv) missing)))) /\
  (missing = [] ->
   uptoUserPermissions c msg = ((t ++ [FetchMe (guild_id g)])%list, Next inv)).
Proof.
  intros Hup Hg Hperm Hcat Hps missing.
  assert (Hcheck : checkBotPermissions msg inv
                   = (ask (FetchMe (guild_id g)) (guild_me g) ;;
                      when (negb (Nat.eqb (length missing) 0))
                           (returnEmit (commandBotMissingPermissions (inv_ctx inv) missing)))).
  { unfold checkBotPermissions, allPermissions. rewrite Hg, Hperm, Hcat, Hps. reflexivity. }
  split.
  - intros Hsome. rewrite processMessage_from_bot, (bind_from_next _ _ _ _ Hup), Hcheck.
    destruct missing; [contradiction|]. reflexivity.
  - intros Hnone. unfold uptoUserPermissions.
    rewrite (bind_from_next _ _ _ _ Hup), Hcheck, Hnone. reflexivity.
Qed.

Lemma bot_permissions_missing_list_witness :
  exists t ctx,
    processMessage
      (sampleClient
         (plainHooks (sampleOptions None None None
                                    (Some (Many ["KICK_MEMBERS"; "BAN_MEMBERS"])) None))
         None)
      (sampleMessage "!ban" "42" (Some (sampleGuild ["KICK_MEMBERS"])))
    = (t, Return (Some (commandBotMissingPermissions ctx ["BAN_MEMBERS"]))).
Proof.
  edestruct (bot_permissions_missing_list
               (sampleClient
                  (plainHooks (sampleOptions None None None
                                             (Some (Many ["KICK_MEMBERS"; "BAN_MEMBERS"]))
                                             None))
                  None)
               (sampleMessage "!ban" "42" (Some (sampleGuild ["KICK_MEMBERS"]))))
    as (Hp & _).
  - reflexivity.
  - reflexivity.
  - reflexivity.
  - reflexivity.
  - reflexivity.
  - eexists _, _. apply Hp. discriminate.
Defined.

(** X14. Shared [permissions] alone are never enforced: for a command
    without bot and user permissions of its own, in a category (if any)
    without shared and without user permissions, both permission checks are
    passed without asking anything, whatever the command's [permissions]
    name and whoever sends the message. *)
Theorem shared_permissions_alone_are_not_checked (c : Client) (msg : Message)
    (t : list Action) (inv : Invocation) :
  uptoBotPermissions c msg = (t, Next inv) ->
  botPermissions (inv_command inv) = None ->
  userPermissions (inv_command inv) = None ->
  catField cat_permissions (inv_category inv) = None ->
  catField cat_userPermissions (inv_category inv) = None ->
  uptoArgs c msg = (t, Next inv) /\
  processMessage c msg
  = (let '(t', r) := (checkArgs inv ;; runHooks inv) in ((t ++ t')%list, r)).
Proof.
  intros Hup Hbot Huser Hcat Hcatu.
  assert (Hb : checkBotPermissions msg inv = ret tt)
    by (unfold checkBotPermissions; rewrite Hbot, Hcat; reflexivity).
  assert (Hu : checkUserPermissions msg inv = ret tt)
    by (unfold checkUserPermissions; rewrite Huser, Hcatu; reflexivity).
  split.
  - unfold uptoArgs, uptoUserPermissions.
    rewrite (bind_from_next _ _ _ _ Hup), Hb. simpl. rewrite Hu. simpl.
    rewrite !app_nil_r. reflexivity.
  - rewrite processMessage_from_bot, (bind_from_next _ _ _ _ Hup), Hb, Hu.
    rewrite !bind_ret_unit. destruct (checkArgs inv ;; runHooks inv). reflexivity.
Qed.

Lemma shared_permissions_alone_are_not_checked_witness :
  length (hookCalls
            (fst (processMessage
                    (sampleClient
                       (plainHooks (userPermOptions (Some (One "ADMINISTRATOR")) None)) None)
                    (sampleMessage "!ban" "42" (Some (sampleGuild []))))))
  = 3%nat.
Proof.
  edestruct (shared_permissions_alone_are_not_checked
               (sampleClient
                  (plainHooks (userPermOptions (Some (One "ADMINISTRATOR")) None)) None)
               (sampleMessage "!ban" "42" (Some (sampleGuild []))))
    as (_ & Hp).
  - reflexivity.
  - reflexivity.
  - reflexivity.
  - reflexivity.
  - reflexivity.
  - rewrite Hp. reflexivity.
Defined.

(** ** The constructor *)

Lemma fold_setAdd_present (l acc : list string) :
  (forall x, In x l -> In x acc) -> fold_left setAdd l acc = acc.
Proof.
  induction l as [|y l IH]; intros H; simpl; [reflexivity|].
  assert (Hy : setAdd acc y = acc).
  { unfold setAdd. destruct (existsb (String.eqb y) acc) eqn:E; [reflexivity|].
    assert (Hin : In y acc) by (apply H; now left).
    apply includes_In in Hin. congruence. }
  rewrite Hy. apply IH. intros x Hx. apply H. now right.
Qed.

Lemma newSet_absorbs (l l' : list string) :
  (forall x, In x l' -> In x l) -> newSet (l ++ l') = newSet l.
Proof.
  intros H. unfold newSet. rewrite fold_left_app.
  apply fold_setAdd_present. intros x Hx.
  apply (proj2 (newSet_spec l)). now apply H.
Qed.

(** X15. A client built without a user and a guild prefix provider asks
    itself: both default providers answer the global prefix, so the
    candidate prefixes of every message are the global ones, each once, in
    the order given. *)
Theorem client_without_providers_has_the_global_prefixes
    (options : CommandClientOptions)
    (parse : Message -> string -> option ParsedCommand)
    (fetch : ParsedCommand -> option Command)
    (categories : string -> option CommandCategory) (msg : Message) :
  opt_getUserPrefix options = None ->
  opt_getGuildPrefix options = None ->
  exists t,
    gatherPrefixes (construct options parse fetch categories) msg
    = (t, Next (newSet (toArray (opt_prefix options)))).
Proof.
  intros Hu Hg.
  destruct (gatherPrefixes_spec (construct options parse fetch categories) msg) as [t Ht].
  exists t. rewrite Ht. f_equal. f_equal.
  unfold prefixSources. simpl. rewrite Hu, Hg. simpl.
  assert (Hs : forall acc, spread acc (opt_prefix options)
                           = (acc ++ toArray (opt_prefix options))%list)
    by (intros acc; destruct (opt_prefix options); reflexivity).
  destruct (guild msg); simpl; rewrite !Hs; simpl.
  - rewrite <- app_assoc. apply newSet_absorbs.
    intros x Hx. apply in_app_or in Hx. tauto.
  - now apply newSet_absorbs.
Qed.

Lemma client_without_providers_has_the_global_prefixes_witness :
  exists t,
    gatherPrefixes (construct (onlyPrefix (Many ["!"; "?"; "!"])) sampleParse
                              (fun _ => None) (fun _ => None))
                   (sampleMessage "!ban" "42" (Some (sampleGuild [])))
    = (t, Next ["!"; "?"]).
Proof.
  exact (client_without_providers_has_the_global_prefixes
           (onlyPrefix (Many ["!"; "?"; "!"])) sampleParse (fun _ => None) (fun _ => None)
           (sampleMessage "!ban" "42" (Some (sampleGuild []))) eq_refl eq_refl).
Defined.

End DispatchFacts.

(** * Further properties of the interaction responder *)

Module ResponderFacts.
Import Js Interaction Responder InteractionFacts.

(** ** Acknowledging and replying *)

(** X16. [acknowledge] issues the interaction callback with the type
    ACK_WITH_SOURCE when called with [true] and ACKNOWLEDGE otherwise, and
    with no message data; once that call has gone through the interaction
    has responded, and every later [respond], [acknowledge] or [reply]
    throws "Already responded to Interaction" without issuing a call. *)
Theorem acknowledge_uses_up_the_response (E : Z) (rest : Rest)
    (withSource : Datatypes.option bool) (h : Heap) (resp : JsVal) :
  responded (this h) = false ->
  let req := {| endpoint := INTERACTION_CALLBACK (id (this h)) (token (this h));
                body := ResponseBody
                          {| p_type := if bool_decide (withSource = Some true)
                                       then ACK_WITH_SOURCE else ACKNOWLEDGE;
                             p_data := None |} |} in
  rest (outbound h) req = Resolves resp ->
  let h' := snd (acknowledge E rest withSource h) in
  outbound h' = (outbound h ++ [req])%list /\
  responded (this h') = true /\
  (forall data,
     respond E rest data h' = (inl (Error "Already responded to Interaction"), h')) /\
  (forall ws,
     acknowledge E rest ws h' = (inl (Error "Already responded to Interaction"), h')) /\
  (forall content mo,
     reply E rest content mo h' = (inl (Error "Already responded to Interaction"), h')).
Proof.
  intros Hfresh req Hres h'.
  assert (Hreq : callbackRequest E (this h)
                   {| r_content := None; r_embeds := None; r_tts := None; r_flags := None;
                      r_allowedMentions := None; r_withSource := None;
                      r_type := Some (if isTrue withSource
                                      then ACK_WITH_SOURCE else ACKNOWLEDGE);
                      r_temp := None; r_ephemeral := None |} = req).
  { unfold callbackRequest, responsePayload, req, isTrue. simpl.
    destruct (bool_decide (withSource = Some true)); reflexivity. }
  assert (Hh' : h' = {| this := setResponded true (this h);
                        outbound := (outbound h ++ [req])%list |}).
  { subst h'. unfold acknowledge.
    rewrite (respond_when_fresh _ _ _ _ Hfresh), Hreq, Hres. reflexivity. }
  rewrite Hh'. simpl.
  split; [reflexivity|]. split; [reflexivity|].
  split; [|split]; intros; unfold acknowledge, reply;
    apply respond_when_responded; reflexivity.
Qed.

Lemma acknowledge_uses_up_the_response_witness :
  fst (respond 64 accepting (textResponse "late")
               (snd (acknowledge 64 accepting (Some true) freshHeap)))
  = inl (Error "Already responded to Interaction").
Proof.
  destruct (acknowledge_uses_up_the_response
              64 accepting (Some true) freshHeap VUndefined eq_refl eq_refl)
    as (_ & _ & Hlater & _).
  rewrite Hlater. reflexivity.
Defined.



(** ** The flags of a response *)

Lemma toInt32_low_bits (n i : Z) :
  0 <= i < 32 -> Z.testbit (toInt32 n) i = Z.testbit n i.
Proof.
  intros Hi.
  rewrite <- (Z.mod_pow2_bits_low (toInt32 n) 32 i) by lia.
  rewrite <- (Z.mod_pow2_bits_low n 32 i) by lia.
  f_equal. unfold toInt32.
  rewrite Zminus_mod_idemp_l. f_equal. lia.
Qed.

Lemma toInt32_range (n : Z) : - 2 ^ 31 <= toInt32 n < 2 ^ 31.
Proof.
  unfold toInt32.
  pose proof (Z.mod_pos_bound (n + 2 ^ 31) (2 ^ 32) ltac:(lia)). lia.
Qed.

Lemma bitor_low_bits (p a i : Z) :
  0 <= i < 32 -> Z.testbit (bitor p a) i = Z.testbit p i || Z.testbit a i.
Proof.
  intros Hi. unfold bitor.
  rewrite toInt32_low_bits, Z.lor_spec, !toInt32_low_bits by assumption.
  reflexivity.
Qed.

Lemma fold_bitor_low_bits (l : list Z) (a i : Z) :
  0 <= i < 32 ->
  Z.testbit (fold_left bitor l a) i
  = Z.testbit a i || existsb (fun f => Z.testbit f i) l.
Proof.
  intros Hi. revert a. induction l as [|f l IH]; intros a; simpl.
  - now rewrite orb_false_r.
  - rewrite IH, bitor_low_bits by assumption. now rewrite orb_assoc.
Qed.

Lemma fold_bitor_range (l : list Z) (a : Z) :
  - 2 ^ 31 <= a < 2 ^ 31 -> - 2 ^ 31 <= fold_left bitor l a < 2 ^ 31.
Proof.
  revert a. induction l as [|f l IH]; intros a Ha; simpl; [assumption|].
  apply IH. apply toInt32_range.
Qed.

(** X18. The flags sent with a response are the bitwise union of what was
    asked for: each of the 32 low bits is set exactly when it is set in the
    ephemeral flag and the response is ephemeral (by [ephemeral] or by the
    deprecated [temp]), or it is set in a flag given by the caller, as a
    number or as a member of a list. The flags sent fit a signed 32-bit
    integer. *)
Theorem response_flags_are_the_union (E : Z) (data : InteractionResponse) (i : Z) :
  0 <= i < 32 ->
  Z.testbit (responseFlags E data) i
  = (bool_decide (r_ephemeral data = Some true) || bool_decide (r_temp data = Some true))
    && Z.testbit E i
    || match r_flags data with
       | Some (FlagsArray l) => existsb (fun f => Z.testbit f i) l
       | Some (FlagsNumber n) => Z.testbit n i
       | None => false
       end /\
  - 2 ^ 31 <= responseFlags E data < 2 ^ 31.
Proof.
  intros Hi. unfold responseFlags, isTrue.
  set (eph := bool_decide (r_ephemeral data = Some true)
              || bool_decide (r_temp data = Some true)).
  assert (Hbase : Z.testbit (if eph then bitor 0 E else 0) i = eph && Z.testbit E i).
  { destruct eph; simpl.
    - rewrite bitor_low_bits by assumption. now rewrite Z.bits_0.
    - apply Z.bits_0. }
  assert (Hrange : - 2 ^ 31 <= (if eph then bitor 0 E else 0) < 2 ^ 31).
  { destruct eph; [apply toInt32_range|lia]. }
  destruct (r_flags data) as [[n|l]|].
  - split; [|apply toInt32_range].
    rewrite bitor_low_bits, Hbase by assumption. reflexivity.
  - split; [|now apply fold_bitor_range].
    rewrite fold_bitor_low_bits, Hbase by assumption. reflexivity.
  - split; [|assumption]. rewrite Hbase. now rewrite orb_false_r.
Qed.

Lemma response_flags_are_the_union_witness :
  Z.testbit
    (responseFlags 64
       {| r_content := None; r_embeds := None; r_tts := None;
          r_flags := Some (FlagsArray [1; 4]); r_allowedMentions := None;
          r_withSource := None; r_type := None; r_temp := Some true;
          r_ephemeral := None |})
    6 = true.
Proof.
  rewrite (proj1 (response_flags_are_the_union 64 _ 6 ltac:(lia))). reflexivity.
Defined.

(** ** Follow-up messages *)



End ResponderFacts.

(** * Properties of the client *)

Module ClientFacts.
Import Js ClientCore.

(** X20. The uptime is never negative: it is zero for a client that is not
    up and for a start time in the future, the time elapsed since the start
    otherwise, and it does not decrease as time goes by. *)
Theorem uptime_is_the_time_elapsed (now : Z) (upSince : option Z) :
  0 <= uptime now upSince /\
  uptime now None = 0 /\
  (forall since, upSince = Some since -> since <= now -> uptime now upSince = now - since) /\
  (forall since, upSince = Some since -> now < since -> uptime now upSince = 0) /\
  (forall later, now <= later -> uptime now upSince <= uptime later upSince).
Proof.
  unfold uptime. repeat split.
  - destruct upSince as [since|]; [|lia]. destruct (Z.ltb_spec (now - since) 0); lia.
  - intros since -> H. destruct (Z.ltb_spec (now - since) 0); lia.
  - intros since -> H. destruct (Z.ltb_spec (now - since) 0); lia.
  - intros later H. destruct upSince as [since|]; [|lia].
    destruct (Z.ltb_spec (now - since) 0), (Z.ltb_spec (later - since) 0); lia.
Qed.

Lemma uptime_is_the_time_elapsed_witness :
  uptime 5000 (Some 2000) = 3000 /\ uptime 1000 (Some 2000) = 0.
Proof.
  destruct (uptime_is_the_time_elapsed 5000 (Some 2000)) as (_ & _ & Hup & _).
  destruct (uptime_is_the_time_elapsed 1000 (Some 2000)) as (_ & _ & _ & Hahead & _).
  split.
  - rewrite (Hup 2000 eq_refl); lia.
  - apply (Hahead 2000 eq_refl). lia.
Defined.

Lemma firstSegment_before_dot (a b : string) :
  (forall ch, In ch (list_ascii_of_string a) -> ch <> "."%char) ->
  firstSegment (a ++ String "."%char b) = a.
Proof.
  induction a as [|ch a IH]; intros H; simpl.
  - reflexivity.
  - destruct (Ascii.eqb_spec ch "."%char) as [->|_].
    + exfalso. apply (H "."%char); [now left|reflexivity].
    + f_equal. apply IH. intros x Hx. apply H. now right.
Qed.

Lemma firstSegment_without_dot (a : string) :
  (forall ch, In ch (list_ascii_of_string a) -> ch <> "."%char) ->
  firstSegment a = a.
Proof.
  induction a as [|ch a IH]; intros H; simpl.
  - reflexivity.
  - destruct (Ascii.eqb_spec ch "."%char) as [->|_].
    + exfalso. apply (H "."%char); [now left|reflexivity].
    + f_equal. apply IH. intros x Hx. apply H. now right.
Qed.

(** X21. The estimated id is the id of the logged-in user when there is
    one, whatever the token. Without a user it is what the part of the
    token before its first dot decodes to, so that nothing after that dot
    matters; and when there is no token, or that part does not decode, it is
    the configured id, or "unknown" when none is configured. *)
Theorem estimated_id_comes_from_user_then_token (atob : string -> option string)
    (token : option string) (_id : option string) :
  (forall u, getEstimatedID atob (Some u) token _id = u) /\
  (forall a b,
     (forall ch, In ch (list_ascii_of_string a) -> ch <> "."%char) ->
     getEstimatedID atob None (Some (a ++ String "."%char b)) _id
     = getEstimatedID atob None (Some a) _id) /\
  (forall tk decoded,
     atob (firstSegment tk) = Some decoded ->
     getEstimatedID atob None (Some tk) _id = decoded) /\
  (forall tk,
     atob (firstSegment tk) = None ->
     getEstimatedID atob None (Some tk) _id = default "unknown" _id) /\
  getEstimatedID atob None None _id = default "unknown" _id.
Proof.
  unfold getEstimatedID. repeat split.
  - intros a b H. now rewrite firstSegment_before_dot, firstSegment_without_dot.
  - intros tk decoded ->. reflexivity.
  - intros tk ->. reflexivity.
Qed.

Lemma estimated_id_comes_from_user_then_token_witness :
  getEstimatedID (fun seg => if String.eqb seg "NDI" then Some "42" else None)
                 None (Some "NDI.sig.rest") None
  = "42".
Proof.
  destruct (estimated_id_comes_from_user_then_token
              (fun seg => if String.eqb seg "NDI" then Some "42" else None)
              (Some "NDI.sig.rest") None)
    as (_ & _ & Hdecoded & _).
  apply Hdecoded. reflexivity.
Defined.

(** X22. [connect] wants the token from exactly one side. With a token
    both given to it and held by the client, or with none at all, it throws
    "No Token Provided", having changed nothing and done nothing. With
    exactly one, that token is the client's token from then on, even when
    [connect] then fails for want of intents; and unless it fails so, that
    token is handed to the REST manager. *)
Theorem connect_needs_exactly_one_token (awaited : ConnectAction -> option Exn)
    (tokenArg : option string) (intentsArg : option (list Z)) (c : Connection) :
  (isSome tokenArg = isSome (token c) ->
   connect awaited tokenArg intentsArg c
   = {| outcome := inl (Error "No Token Provided"); fields := c; done := [] |}) /\
  (forall tk,
     (tokenArg = Some tk /\ token c = None) \/ (tokenArg = None /\ token c = Some tk) ->
     token (fields (connect awaited tokenArg intentsArg c)) = Some tk /\
     (intentsArg = None -> intents c = None ->
      outcome (connect awaited tokenArg intentsArg c)
      = inl (Error "No Gateway Intents were provided") /\
      rest_token (fields (connect awaited tokenArg intentsArg c)) = rest_token c /\
      done (connect awaited tokenArg intentsArg c) = []) /\
     (intentsArg <> None \/ intents c <> None ->
      rest_token (fields (connect awaited tokenArg intentsArg c)) = Some tk)).
Proof.
  split.
  - unfold connect. destruct tokenArg, (token c); simpl; try discriminate; reflexivity.
  - intros tk [[-> Hc]|[-> Hc]]; unfold connect; rewrite Hc;
      unfold settleIntents, launchShards; simpl;
      destruct intentsArg as [given|], (intents c) as [own|]; simpl;
      destruct (shard c) as [n|]; simpl;
      repeat match goal with
             | |- context [awaited ?a] => destruct (awaited a); simpl
             end;
      (split; [try assumption; reflexivity|]);
      (split; [intros H1 H2; try discriminate H1; try discriminate H2; auto
              |intros [H|H]; try contradiction; reflexivity]).
Qed.

Lemma connect_needs_exactly_one_token_witness :
  outcome (connect (fun _ => None) (Some "abc.def") (Some [1]) (offline (Some "abc.def") None))
  = inl (Error "No Token Provided").
Proof.
  rewrite (proj1 (connect_needs_exactly_one_token
                    (fun _ => None) (Some "abc.def") (Some [1])
                    (offline (Some "abc.def") None)) eq_refl).
  reflexivity.
Defined.

(** X23. Once the token is settled, the intents of the client win: when it
    has intents of its own they stay as they are, those given to [connect]
    not being stored, and a debug notice is emitted exactly when both sides
    gave some; when it has none, those given to [connect] become its own. *)
Theorem connect_keeps_the_intents_of_the_client (awaited : ConnectAction -> option Exn)
    (tokenArg : option string) (intentsArg : option (list Z)) (c : Connection) :
  isSome tokenArg <> isSome (token c) ->
  (forall own, intents c = Some own ->
     intents (fields (connect awaited tokenArg intentsArg c)) = Some own /\
     (existsb (fun a => match a with Debug _ _ => true | _ => false end)
              (done (connect awaited tokenArg intentsArg c))
      = isSome intentsArg)) /\
  (forall given, intents c = None -> intentsArg = Some given ->
     intents (fields (connect awaited tokenArg intentsArg c)) = Some given /\
     existsb (fun a => match a with Debug _ _ => true | _ => false end)
             (done (connect awaited tokenArg intentsArg c))
     = false).
Proof.
  intros Htok.
  split; [intros own Hown|intros given Hnone ->];
    unfold connect;
    destruct tokenArg as [tk|], (token c) as [tk'|]; simpl in Htok;
      try contradiction;
    unfold settleIntents, launchShards; simpl;
    rewrite ?Hown, ?Hnone; simpl;
    try destruct intentsArg as [given|]; simpl;
    destruct (shard c) as [n|]; simpl;
    repeat match goal with
           | |- context [awaited ?a] => destruct (awaited a); simpl
           end;
    auto.
Qed.

Lemma connect_keeps_the_intents_of_the_client_witness :
  intents (fields (connect (fun _ => None) (Some "abc.def") (Some [2])
                           (offline None (Some [1]))))
  = Some [1].
Proof.
  destruct (connect_keeps_the_intents_of_the_client
              (fun _ => None) (Some "abc.def") (Some [2]) (offline None (Some [1])))
    as [Hown _].
  - discriminate.
  - exact (proj1 (Hown [1] eq_refl)).
Defined.

(** ** Collectors *)

Lemma filter_out_absent (c : Collector) (cs : list Collector) :
  has cs c = false ->
  List.filter (fun x => negb (N.eqb (collector_ref x) (collector_ref c))) cs = cs.
Proof.
  unfold has. induction cs as [|x cs IH]; simpl; [reflexivity|].
  intros H. apply orb_false_elim in H as [Hx Hcs].
  rewrite Hx. simpl. f_equal. now apply IH.
Qed.

(** X24. A collector that is not registered is added, at the end, and
    [addCollector] says true; adding it again says false and changes
    nothing; removing it then says true and gives back the collectors as
    they were before it was added; and removing a collector that is not
    registered says false and changes nothing. *)
Theorem collector_added_then_removed (c : Collector) (cs : list Collector) :
  has cs c = false ->
  addCollector c cs = (true, (cs ++ [c])%list) /\
  has (cs ++ [c]) c = true /\
  addCollector c (cs ++ [c]) = (false, (cs ++ [c])%list) /\
  removeCollector c (cs ++ [c]) = (true, cs) /\
  removeCollector c cs = (false, cs).
Proof.
  intros Habsent.
  assert (Hin : has (cs ++ [c]) c = true).
  { unfold has. rewrite existsb_app. simpl. rewrite N.eqb_refl.
    now rewrite orb_true_r. }
  unfold addCollector, removeCollector. rewrite Habsent, Hin. simpl.
  repeat split.
  rewrite List.filter_app, (filter_out_absent _ _ Habsent). simpl.
  rewrite N.eqb_refl. simpl. now rewrite app_nil_r.
Qed.

Lemma collector_added_then_removed_witness :
  removeCollector {| collector_ref := 3; collector_event := "messageCreate" |}
    (snd (addCollector {| collector_ref := 3; collector_event := "messageCreate" |}
                       [ {| collector_ref := 1; collector_event := "ready" |} ]))
  = (true, [ {| collector_ref := 1; collector_event := "ready" |} ]).
Proof.
  destruct (collector_added_then_removed
              {| collector_ref := 3; collector_event := "messageCreate" |}
              [ {| collector_ref := 1; collector_event := "ready" |} ] eq_refl)
    as (Hadd & _ & _ & Hremove & _).
  rewrite Hadd. exact Hremove.
Defined.

(** X25. [emit] fires either every registered collector or none: when at
    least one collector listens for the event, all of them are fired, in
    the order they were registered, those that listen for other events
    too; when none does, none is fired. The listeners of the event are
    notified after that in both cases. *)
Theorem emit_fires_every_collector_or_none (collectors : list Collector)
    (event : string) (args : list JsVal) :
  ((exists c, In c collectors /\ collector_event c = event) ->
   emit collectors event args
   = (List.map (fun c => Fire c args) collectors ++ [SuperEmit event args])%list) /\
  ((forall c, In c collectors -> collector_event c <> event) ->
   emit collectors event args = [SuperEmit event args]).
Proof.
  unfold emit. split.
  - intros (c & Hin & Hev).
    assert (Hl : In c (List.filter (fun c => String.eqb (collector_event c) event)
                                   collectors)).
    { apply filter_In. split; [assumption|]. rewrite Hev. apply String.eqb_refl. }
    destruct (List.filter _ collectors); [destruct Hl|reflexivity].
  - intros Hnone.
    assert (Hl : List.filter (fun c => String.eqb (collector_event c) event) collectors
                 = []).
    { induction collectors as [|x cs IH]; simpl; [reflexivity|].
      destruct (String.eqb_spec (collector_event x) event) as [Heq|_].
      - exfalso. apply (Hnone x); [now left|assumption].
      - apply IH. intros c Hc. apply Hnone. now right. }
    rewrite Hl. reflexivity.
Qed.

Lemma emit_fires_every_collector_or_none_witness :
  emit [ {| collector_ref := 1; collector_event := "ready" |};
         {| collector_ref := 2; collector_event := "messageCreate" |} ]
       "messageCreate" []
  = [ Fire {| collector_ref := 1; collector_event := "ready" |} [];
      Fire {| collector_ref := 2; collector_event := "messageCreate" |} [];
      SuperEmit "messageCreate" [] ].
Proof.
  rewrite (proj1 (emit_fires_every_collector_or_none _ _ _)).
  - reflexivity.
  - exists {| collector_ref := 2; collector_event := "messageCreate" |}.
    split; [right; left; reflexivity|reflexivity].
Defined.

(** X29. [editUser] with neither a username nor an avatar throws before
    anything is done. An avatar that starts with "http" is fetched first and
    what was fetched is what is sent, nothing being sent when the fetch
    fails; any other avatar is sent as it is. [setUsername] never fetches
    and sends exactly one update, with the username and no avatar. *)
Theorem edit_user_fetches_remote_avatars (fetchAuto : string -> Exn + string)
    (patch : option string -> option string -> option Exn)
    (username : option string) :
  editUser fetchAuto patch None None
  = (inl (Error "Either username or avatar or both must be specified to edit"), []) /\
  (forall a data,
     startsWith a "http" = true -> fetchAuto a = inr data ->
     snd (editUser fetchAuto patch username (Some a))
     = [FetchAuto a; PatchMe username (Some data)]) /\
  (forall a e,
     startsWith a "http" = true -> fetchAuto a = inl e ->
     editUser fetchAuto patch username (Some a) = (inl e, [FetchAuto a])) /\
  (forall a,
     startsWith a "http" = false ->
     snd (editUser fetchAuto patch username (Some a)) = [PatchMe username (Some a)]) /\
  (forall name,
     snd (setUsername fetchAuto patch name) = [PatchMe (Some name) None]).
Proof.
  unfold setUsername, editUser. split; [reflexivity|].
  split; [|split; [|split]].
  - intros a data Hs Hf. rewrite andb_false_r, Hs, Hf.
    destruct (patch _ _); reflexivity.
  - intros a e Hs Hf. rewrite andb_false_r, Hs, Hf. reflexivity.
  - intros a Hs. rewrite andb_false_r, Hs. destruct (patch _ _); reflexivity.
  - intros name. simpl. destruct (patch _ _); reflexivity.
Qed.

Lemma edit_user_fetches_remote_avatars_witness :
  snd (editUser (fun url => inr ("data:" ++ url)) (fun _ _ => None)
                None (Some "http://a/b.png"))
  = [FetchAuto "http://a/b.png"; PatchMe None (Some "data:http://a/b.png")].
Proof.
  destruct (edit_user_fetches_remote_avatars
              (fun url => inr ("data:" ++ url)) (fun _ _ => None) None)
    as (_ & Hfetch & _).
  apply Hfetch; reflexivity.
Defined.

End ClientFacts.

(** * Properties of the decorators *)

Module DecoratorFacts.
Import Js Decorators.

(** X26. The [event] decorator keeps one listener for each event name. On
    a method it stores the method under the name given, or under the name
    of the method when none is given, leaving the listeners under other
    names as they are; of two methods decorated for the same name the later
    is the one kept. On a property that is not a function it throws and
    leaves the object as it was. *)
Theorem event_decorator_keeps_one_listener (name : option string) (client : Target)
    (prop : string) :
  (forall listener,
     properties client !! prop = Some (Function listener) ->
     fst (event name client prop) = inr tt /\
     decoratedEvent (snd (event name client prop)) (default prop name) = Some listener /\
     (forall key, key <> default prop name ->
        decoratedEvent (snd (event name client prop)) key = decoratedEvent client key) /\
     (forall prop' listener',
        properties client !! prop' = Some (Function listener') ->
        decoratedEvent (snd (event (Some (default prop name))
                                   (snd (event name client prop)) prop'))
                       (default prop name)
        = Some listener')) /\
  ((forall listener, properties client !! prop <> Some (Function listener)) ->
   event name client prop = (inl (Error "@event decorator requires a function"), client)).
Proof.
  split.
  - intros listener Hprop. unfold event. rewrite Hprop. simpl.
    split; [reflexivity|]. unfold decoratedEvent. simpl.
    split; [apply lookup_insert_eq|]. split.
    + intros key Hkey. rewrite lookup_insert_ne by congruence.
      destruct (_decoratedEvents client); [reflexivity|apply lookup_empty].
    + intros prop' listener' Hprop'. simpl. rewrite Hprop'. simpl.
      apply lookup_insert_eq.
  - intros Hnot. unfold event.
    destruct (properties client !! prop) as [[listener|v]|]; try reflexivity.
    exfalso. now apply (Hnot listener).
Qed.

Lemma event_decorator_keeps_one_listener_witness :
  decoratedEvent (snd (event (Some "messageCreate")
                             (snd (event (Some "messageCreate") sampleTarget "ping"))
                             "pong"))
                 "messageCreate"
  = Some 11%N.
Proof.
  destruct (event_decorator_keeps_one_listener (Some "messageCreate") sampleTarget "ping")
    as [Hok _].
  destruct (Hok 10%N eq_refl) as (_ & _ & _ & Hlater).
  exact (Hlater "pong" 11%N eq_refl).
Defined.

Lemma pushSlash_spec (message : string) (entry : N -> SlashEntry)
    (client : Target) (prop : string) :
  (forall item,
     properties client !! prop = Some (Function item) ->
     pushSlash message entry client prop
     = (inr tt,
        setSlash (Some (default [] (_decoratedSlash client) ++ [entry item])%list) client)) /\
  ((forall item, properties client !! prop <> Some (Function item)) ->
   pushSlash message entry client prop
   = (inl (Error message),
      setSlash (Some (default [] (_decoratedSlash client))) client)).
Proof.
  unfold pushSlash. split.
  - intros item ->. reflexivity.
  - intros Hnot.
    destruct (properties client !! prop) as [[item|v]|]; try reflexivity.
    exfalso. now apply (Hnot item).
Qed.

(** X27. [slash], [subslash] and [groupslash] register handlers in the
    order they are applied: on a method, one entry is added after those
    already there, named as given, or after the method when no name is
    given, with the guild, and with the parent and the group for the nested
    ones. On a property that is not a function they throw, and the list of
    entries is nevertheless left defined: empty if there was none, as it was
    otherwise. *)
Theorem slash_decorators_register_in_order (name guild : option string)
    (parent group : string) (client : Target) (prop : string) :
  (forall item,
     properties client !! prop = Some (Function item) ->
     let before := default [] (_decoratedSlash client) in
     _decoratedSlash (snd (slash name guild client prop))
     = Some (before ++ [{| se_name := default prop name; se_guild := guild;
                           se_parent := None; se_group := None;
                           se_handler := item |}])%list /\
     _decoratedSlash (snd (subslash parent name guild client prop))
     = Some (before ++ [{| se_name := default prop name; se_guild := guild;
                           se_parent := Some parent; se_group := None;
                           se_handler := item |}])%list /\
     _decoratedSlash (snd (groupslash parent group name guild client prop))
     = Some (before ++ [{| se_name := default prop name; se_guild := guild;
                           se_parent := Some parent; se_group := Some group;
                           se_handler := item |}])%list) /\
  ((forall item, properties client !! prop <> Some (Function item)) ->
   slash name guild client prop
   = (inl (Error "@slash decorator requires a function"),
      setSlash (Some (default [] (_decoratedSlash client))) client) /\
   subslash parent name guild client prop
   = (inl (Error "@subslash decorator requires a function"),
      setSlash (Some (default [] (_decoratedSlash client))) client) /\
   groupslash parent group name guild client prop
   = (inl (Error "@groupslash decorator requires a function"),
      setSlash (Some (default [] (_decoratedSlash client))) client)).
Proof.
  split.
  - intros item Hprop before. unfold slash, subslash, groupslash.
    rewrite !(proj1 (pushSlash_spec _ _ client prop) item Hprop). auto.
  - intros Hnot. unfold slash, subslash, groupslash.
    rewrite !(proj2 (pushSlash_spec _ _ client prop) Hnot). auto.
Qed.

Lemma slash_decorators_register_in_order_witness :
  _decoratedSlash (snd (slash None None sampleTarget "title")) = Some [].
Proof.
  destruct (slash_decorators_register_in_order None None "admin" "roles"
              sampleTarget "title") as [_ Hfail].
  destruct Hfail as (Hslash & _).
  - intros item. discriminate.
  - rewrite Hslash. reflexivity.
Defined.



End DecoratorFacts.
